(* ===== verification/_CoqProject ===== *)
-Q . S2P
Prelude.v
ErrorLatch.v
SdsRec.v
RecorderSds.v
Producer.v
Capture.v
CaptureRace.v
RecManagement.v
ControlSpec.v
DataCapture.v
DataRace.v
DataStart.v
SensorDrv.v
