(* ===== verification/Prelude.v ===== *)
(** * SDS-Examples: a verification development of the recording core

    This library models, in Rocq, the C sources of the SDS-Examples
    repository (Arm's "Synchronous Data Stream" capture examples) and proves
    the properties that make its recording core correct.

    ** The program and how its parts interact

    - [src/Hardware/ModelTest/recorder_sds.h] defines the assertion macro
      [sds_assert] that latches the first failure into the global record
      [sds_error]; [src/Hardware/Model1/Sensor/rec_management.h] defines the
      same latch as [SDS_ASSERT] on [sdsError], compiled away under [NDEBUG].
    - [src/Hardware/ModelTest/recorder_sds.c], [rec_control]: the control
      thread of the ModelTest variant.  Every 100 ms tick it advances a
      heartbeat counter that toggles LED0, samples the user button, and on a
      press edge either opens the two recorder streams "Model_Input"
      (8192-byte buffer, threshold 7680) and "Model_Output" (576, 512) or
      closes them.  [recActive] is set before the streams are opened.
    - [src/Hardware/TestData/rec_management.c], [threadRecManagement]: the
      TestData variant with streams "DataInput" (8192, 7400) and
      "DataOutput" (1536, 1400); it sets [recActive] only after the opens and,
      on stop, clears [recActive] and polls the flag [recDone] (set by the
      producer thread) before closing the streams.
    - Both register [recorder_event_callback] with the SDS recorder; an I/O
      error event latches an assertion failure.
    - [src/Sensors/Alif_DevKit-E7/Source/sensor_drv.c]: two logical sensors
      (accelerometer, gyroscope) over one BMI323 device: lookup by name,
      enable (which activates both), status and single-sample reads.
    - The SDS recorder itself ([sdsRecInit], [sdsRecOpen], [sdsRecWrite],
      [sdsRecClose]) is not under src/; it is modelled from the
      specification (the stream buffer with its threshold-triggered flush).

    ** Files, in dependency order

    - [Prelude] (this file): C unsigned arithmetic at width 8 and 32 with
      its wrap-around ([uint_wrap], [u8], [u32]), C truth values
      ([c_true]), notations in [sds_scope], the hint databases [sds] and
      [sds_rw], counting on lists ([count_if]) and the shared tactics.
    - [ErrorLatch]: [sds_error_t], the macro [sds_assert] of recorder_sds.h
      (and [SDS_ASSERT] of rec_management.h) as a function [sds_assert] and,
      in Section [Interleaving], as four separate steps (test, then the
      stores of [occurred], [file] and [line]) that two contexts can
      interleave; [recorder_event_callback].
    - [SdsRec]: what the controllers need of the recorder, as the typeclass
      [SdsRecApi] with the laws [SdsRecLaws]; Module [StreamBuffer] models a
      stream (buffer, threshold, flush requests, I/O output) and Module
      [Recorder] a table of streams as a [gmap]; [Recorder.rec_laws]
      discharges the laws.  Modelled from the specification (not under src/).
    - [RecorderSds]: [rec_control] of the ModelTest variant.  Its state is
      the record [rec_state] (locals and globals of recorder_sds.c, the
      recorder state, the LED word and the trace of recorder calls); one
      iteration of the loop is [rec_tick] ([led0_step], then the button,
      then [rec_start]/[rec_stop]); [rec_run] runs a finite prefix of the
      loop interleaved with recorder callbacks ([rec_event]).  The Section
      [Cycle] proves the controller against [SdsRecLaws] only.
    - [Producer]: the producer context (outside src/, from the
      specification): its test of [recActive] and its [sdsRecWrite] as two
      steps, seeing the control thread through the typeclass
      [ControlGlobals]; Section [System] composes any control thread, the
      producer and the recorder thread ([psys_step], [psys_reachable]) with
      a ghost log of accepted writes, and proves the recorder invariant.
    - [Capture]: the ModelTest system: [rec_control]'s iterations and
      callbacks ([model_ctl_step]) in [Producer]'s system ([sys_step],
      [sys_reachable]), on the stream-buffer recorder.
    - [CaptureRace]: the same with the start cut after [recActive = 1U]
      ([rec_tick_begin], [mctl_step]), so that the producer can run between
      that store and the opens.
    - [RecManagement]: [threadRecManagement] of the TestData variant as a
      state machine with a program counter (main loop or the [recDone]
      polling loop): [rm_tick], [rm_poll], [rm_set_done] (the data thread's
      store) and [rm_event] are the steps of [rm_step]; [rm_reachable].
    - [ControlSpec]: the controller state machine of the specification
      (section 4.3) as an executable automaton [spec_step] over recorder
      calls, the typeclass [CallEvent] reading each variant's trace of
      calls as its events, and the refinement of both controllers.
    - [DataCapture]: the TestData system: the thread's iterations, polls
      and callbacks ([data_ctl_step]) in [Producer]'s system, where the data
      thread sets [recDone] when it finds [recActive] cleared.
    - [DataRace]: the same with the data thread's test of [recActive] and
      its store [recDone = 1U] as separate steps ([d2_step]).
    - [DataStart]: the same with the start branch of [threadRecManagement]
      run statement by statement ([start_stmt]: the open of each stream with
      its assertion, LED1 on, [recActive = 1U], [recDone = 0U]), the
      iteration cut before it ([rm_tick_begin], [xctl_step]), so that the
      data thread and the recorder thread run between any two statements.
      Both cuts ([CaptureRace], [DataStart]) are checked against the
      whole iteration ([rec_tick_split], [rm_tick_begin_split]).
    - [SensorDrv]: sensor_drv.c: the table [Sensors] built by the C
      initialiser from the configured sensors, handles as table indices,
      every public function, with NULL and out-of-range accesses as the
      outcomes [NullDeref] and [OutOfBounds].

    ** What the theorems show

    - Recording control (RecorderSds, RecManagement): opens and closes stay
      balanced in every run and every reachable state; recording toggles
      exactly on press edges (a refinement of an abstract toggle machine);
      for both variants a full session (for TestData, with a drain-wait of
      any length) latches no error and restores the recorder's table
      against any recorder satisfying [SdsRecLaws]; the
      TestData thread never closes a stream before [recDone] is read
      non-zero, waits in the
      polling loop while [recDone] is 0 and leaves it once it is set; the
      heartbeat toggles every 11 iterations and no [uint8_t] variable of
      either thread leaves its range.
    - Refinement of the specification (ControlSpec): every trace of
      recorder calls either controller produces is accepted by the
      specification's state machine (init, then sessions of an open of the
      input stream, an open of the output stream and two closes), whose
      state is [Idle] exactly when the controller is idle.
    - Capture (Capture, DataCapture): in every reachable state of either
      system every stream's fill is within its buffer, and every stream's
      bytes are exactly the accepted writes, in order (no silent loss, by
      refinement of the byte stream); each run of writes issues exactly one
      flush request when it reaches the configured threshold.
    - Ordering of the control thread and the producer (Capture,
      CaptureRace, DataCapture, DataStart): in TestData every block the data thread
      decides to write while recording reaches a stream that is still open
      and is appended in full unless the buffer lacks room, and the stop
      sequence always completes within three steps; with the start run
      statement by statement (DataStart) that still holds, because
      [recActive = 1U] follows both opens and [recDone = 0U] follows it
      before any stop; in ModelTest a reachable
      counterexample each shows a block written after the stop closed its
      stream and a block written with the identifier still [NULL] (the
      start raises [recActive] before the opens), both lost.
    - Error latch (ErrorLatch): the first failure wins and is kept; a run of
      assertions records the first failing one; the record stays well
      formed; run alone, the four-step expansion equals [sds_assert], and
      interleaved it can tear the record.
    - Sensor driver (SensorDrv): the branches of [sensorEnable] (which
      activates both sensors, so a second enable fails); the size check of
      [sensorReadSamples], including its 32-bit wrap-around; name lookup
      round trip and the NULL configuration of a one-sensor build.

    ** Bounds and fuel

    Integers are [Z] with the wrap of their C width written out where the
    code can wrap ([uint8_t] locals, the [uint32_t] product of
    [sensorReadSamples]).  No definition needs fuel: the [for (;;)] loops
    are modelled by one iteration per step, and their infinite runs by all
    finite prefixes ([rec_run] on any input list, reachability by any
    number of steps), so each invariant holds at every point of every run.
    The [recDone] polling loop is a step of its own, so its termination is
    stated as progress: it exits at the first poll after [recDone] is set,
    and in the composed TestData system at most three steps after the
    thread enters it ([data_stop_terminates], with stdpp's [nsteps]).

    ** Assumptions on contexts outside src/

    The producer's test of [recActive] is one step and its [sdsRecWrite]
    another; it reads the recorder identifier at the call.  In TestData,
    the data thread's test that finds [recActive] cleared and its store
    [recDone = 1U] are one step, and it sets [recDone] only between two
    writes; the safety of the drain-wait rests on this protocol, and
    [DataRace] shows a reachable loss of data when the test and the store
    are separate steps.  The
    recorder's calls are atomic with respect to the other contexts.

    ** Not modelled

    The CMSIS vio and osDelay calls (LEDs are a bit word, delays are step
    boundaries), socket start-up (its status is an input), the SDS I/O
    transport (the recorder thread's flush moves bytes to an output list),
    the code of the producer and data threads (modelled from the
    specification in [Producer]), the BMI323 driver (its results are
    inputs), and the record headers the SDS recorder adds to each write.
    The header declarations of recorder_sds.h and rec_management.h are
    modelled where they declare the shared globals and the error record;
    Model1's [recIdModelInput]/[recIdModelOutput] belong to a source file
    not in the repository. *)

From Stdlib Require Export ZArith Lia.
From stdpp Require Export base list strings gmap.

(** A byte of C memory ([uint8_t]). *)
Abbreviation byte := Init.Byte.byte.

Declare Scope sds_scope.
Delimit Scope sds_scope with sds.
Open Scope Z_scope.

(** ** C unsigned integers *)

(** The value of a C [uintN_t] after an assignment of the mathematical
    integer [z]: reduction modulo [2^w]. *)
Definition uint_wrap (w z : Z) : Z := z mod 2 ^ w.

Definition u8 (z : Z) : Z := uint_wrap 8 z.
Definition u32 (z : Z) : Z := uint_wrap 32 z.

(** A value representable in [uintN_t]. *)
Definition uint_ok (w z : Z) : bool := (0 <=? z) && (z <? 2 ^ w).

Notation "x *u32 y" := (u32 (x * y)) (at level 40, left associativity) : sds_scope.
Notation "x +u8 y" := (u8 (x + y)) (at level 50, left associativity) : sds_scope.
Notation "x ^u8 y" := (u8 (Z.lxor x y)) (at level 30, right associativity) : sds_scope.

(** C truth values of [uint8_t] flags such as [recActive]: non-zero is
    true. *)
Definition c_true (z : Z) : bool := negb (z =? 0).

Open Scope sds_scope.

Create HintDb sds.
Create Rewrite HintDb sds_rw.

(** ** Generic lemmas *)

Lemma uint_wrap_range w z : 0 <= w -> 0 <= uint_wrap w z < 2 ^ w.
Proof. intros Hw. unfold uint_wrap. apply Z.mod_pos_bound. lia. Qed.

Lemma uint_wrap_small w z : 0 <= z < 2 ^ w -> uint_wrap w z = z.
Proof. intros H. unfold uint_wrap. by apply Z.mod_small. Qed.

Lemma uint_ok_spec w z : uint_ok w z = true <-> 0 <= z < 2 ^ w.
Proof. unfold uint_ok. rewrite andb_true_iff, Z.leb_le, Z.ltb_lt. done. Qed.

Lemma u8_small z : 0 <= z < 256 -> u8 z = z.
Proof. intros H. by apply (uint_wrap_small 8). Qed.

Lemma u32_small z : 0 <= z < 4294967296 -> u32 z = z.
Proof. intros H. by apply (uint_wrap_small 32). Qed.

Lemma u32_range z : 0 <= u32 z < 4294967296.
Proof. apply (uint_wrap_range 32). lia. Qed.

Lemma u8_range z : 0 <= u8 z < 256.
Proof. apply (uint_wrap_range 8). lia. Qed.

(** The product check of a [uint32_t] comparison such as
    [buf_size >= num * size] agrees with the mathematical one exactly when
    the product does not wrap. *)
Lemma u32_mul_nowrap a b : 0 <= a -> 0 <= b -> a * b < 4294967296 -> a *u32 b = a * b.
Proof. intros. apply u32_small. nia. Qed.

Lemma c_true_false z : c_true z = false <-> z = 0.
Proof. unfold c_true. rewrite negb_false_iff, Z.eqb_eq. done. Qed.

Lemma c_true_true z : c_true z = true <-> z <> 0.
Proof. unfold c_true. rewrite negb_true_iff, Z.eqb_neq. done. Qed.

(** Masking bit 0, as in [(event & 1U)]. *)
Lemma land_1_mod2 z : Z.land z 1 = z mod 2.
Proof. change 1 with (Z.ones 1) at 1. by rewrite Z.land_ones by lia. Qed.

Lemma land_1_eqb_0 z : (Z.land z 1 =? 0) = negb (Z.testbit z 0).
Proof. rewrite land_1_mod2, Z.bit0_odd, (Zmod_odd z). by destruct (Z.odd z). Qed.

(** Counting the elements of a trace that satisfy a boolean test. *)
Definition count_if {A} (p : A -> bool) (l : list A) : nat :=
  length (filter (fun x => p x = true) l).

Lemma count_if_app {A} (p : A -> bool) l1 l2 :
  count_if p (l1 ++ l2) = (count_if p l1 + count_if p l2)%nat.
Proof. unfold count_if. by rewrite filter_app, length_app. Qed.

Lemma count_if_cons {A} (p : A -> bool) x l :
  count_if p (x :: l) = ((if p x then 1 else 0) + count_if p l)%nat.
Proof. unfold count_if. rewrite filter_cons. destruct (p x); simpl; done. Qed.

Lemma count_if_nil {A} (p : A -> bool) : count_if p [] = 0%nat.
Proof. done. Qed.

#[export] Hint Resolve u8_range u32_range uint_wrap_range : sds.
#[export] Hint Rewrite @count_if_app @count_if_cons @count_if_nil : sds_rw.
#[export] Hint Rewrite u8_small u32_small using lia : sds_rw.

(** ** Tactics *)

(** Invert a hypothesis and clean the context. *)
Ltac invc H := inversion H; subst; clear H.

(** Split the boolean tests of the C conditions into cases, keeping the
    equations. *)
Ltac case_tests :=
  repeat match goal with
  | |- context [if ?b then _ else _] =>
      lazymatch b with
      | context [if _ then _ else _] => fail
      | _ => destruct b eqn:?
      end
  end.

(** Destruct the pairs that the [let '(x, y) := ...] of a translated
    sequence of calls bind, in the goal. *)
Ltac destruct_lets :=
  repeat match goal with
  | |- context [let '(_, _) := ?p in _] => destruct p
  end.

(** Close arithmetic side conditions after turning boolean comparisons on
    [Z] into propositions. *)
Ltac zbool :=
  repeat match goal with
  | H : (_ =? _) = true |- _ => apply Z.eqb_eq in H
  | H : (_ =? _) = false |- _ => apply Z.eqb_neq in H
  | H : (_ <=? _) = true |- _ => apply Z.leb_le in H
  | H : (_ <=? _) = false |- _ => apply Z.leb_gt in H
  | H : (_ <? _) = true |- _ => apply Z.ltb_lt in H
  | H : (_ <? _) = false |- _ => apply Z.ltb_ge in H
  end.
