(* ===== verification/ErrorLatch.v ===== *)
(** * ErrorLatch: the first-fault error record

    Models the assertion macros of the recording examples:
    - [sds_error_t] and [sds_assert] of
      src/Hardware/ModelTest/recorder_sds.h (lines 32-40);
    - [SDS_ASSERT] of src/Hardware/Model1/Sensor/rec_management.h
      (lines 33-48), the same latch on [sdsError], empty under [NDEBUG];
    - the recorder event callback of recorder_sds.c (lines 68-72), which
      turns an I/O error event into a failed assertion.

    An expansion of the macro is modelled as a function of the record, with
    its source location ([__FILE__], [__LINE__]) as an explicit argument.
    The macro is not atomic: it is a test followed by three stores.  The
    Section [Interleaving] models those stores as separate steps of two
    contexts (the control thread and the transport callback) and shows
    that an interleaving can leave a record whose file comes from one
    failure and whose line from the other. *)

From S2P Require Import Prelude.

Open Scope Z_scope.
Open Scope sds_scope.

(** A source location, the values of [__FILE__] and [__LINE__] at one
    expansion of the macro. *)
Record src_loc := mk_loc { loc_file : string; loc_line : Z }.

(** [sds_error_t]: [occurred] and [reported] are [uint8_t], [file] a
    [const char *] ([None] is [NULL]) and [line] a [uint32_t]. *)
Record sds_error_t := mk_sds_error {
  occurred : Z;
  reported : Z;
  file : option string;
  line : Z
}.

(** The zero-initialised global ([recError = { 0U, 0U, NULL, 0U }] in
    TestData/rec_management.c). *)
Definition sds_error_init : sds_error_t := mk_sds_error 0 0 None 0.

(** The three stores of the macro's body. *)
Definition latch_at (l : src_loc) (e : sds_error_t) : sds_error_t :=
  mk_sds_error 1 (reported e) (Some (loc_file l)) (loc_line l).

(** [sds_assert(cond)] expanded at location [l]. *)
Definition sds_assert (l : src_loc) (cond : bool) (e : sds_error_t) : sds_error_t :=
  if negb cond && (occurred e =? 0) then latch_at l e else e.

(** [SDS_ASSERT(cond)]: the same latch, or nothing when [NDEBUG] is
    defined. *)
Definition SDS_ASSERT (NDEBUG : bool) (l : src_loc) (cond : bool) (e : sds_error_t)
  : sds_error_t :=
  if NDEBUG then e else sds_assert l cond e.

(** The I/O error bit of the recorder's event mask ([sds_rec.h] of the SDS
    framework, outside this repository). *)
Definition SDS_REC_EVENT_IO_ERROR : Z := 1.

(** [recorder_event_callback(id, event)]: the callback ignores [id]; [l] is
    the location of its [sds_assert(false)]. *)
Definition recorder_event_callback {Id : Type} (l : src_loc) (id : Id) (event : Z)
  (e : sds_error_t) : sds_error_t :=
  if negb (Z.land event SDS_REC_EVENT_IO_ERROR =? 0) then sds_assert l false e else e.

(** A run of assertions executed one after the other, as a list of
    (location, condition) pairs, and the first failing location. *)
Fixpoint run_asserts (l : list (src_loc * bool)) (e : sds_error_t) : sds_error_t :=
  match l with
  | [] => e
  | (loc, c) :: t => run_asserts t (sds_assert loc c e)
  end.

Fixpoint first_failure (l : list (src_loc * bool)) : option src_loc :=
  match l with
  | [] => None
  | (loc, c) :: t => if c then first_failure t else Some loc
  end.

(** The well-formedness of the record: [occurred] is a C boolean, and a
    latched record has a file. *)
Definition error_wf (e : sds_error_t) : Prop :=
  (occurred e = 0 \/ occurred e = 1) /\ (occurred e = 1 -> file e <> None).

(** ** Lemmas on one expansion *)

Lemma sds_assert_true l e : sds_assert l true e = e.
Proof. done. Qed.

Lemma sds_assert_occurred l c e : occurred e <> 0 -> sds_assert l c e = e.
Proof.
  intros H. unfold sds_assert. apply Z.eqb_neq in H. rewrite H, andb_false_r. done.
Qed.

Lemma sds_assert_fires l e : occurred e = 0 -> sds_assert l false e = latch_at l e.
Proof. intros H. unfold sds_assert. rewrite H. done. Qed.

Lemma latch_at_occurred l e : occurred (latch_at l e) = 1.
Proof. done. Qed.

Lemma run_asserts_latched l e : occurred e <> 0 -> run_asserts l e = e.
Proof.
  revert e. induction l as [|[loc c] t IH]; intros e H; simpl; [done|].
  rewrite sds_assert_occurred by done. by apply IH.
Qed.

#[export] Hint Rewrite sds_assert_true sds_assert_fires using done : sds_rw.
#[export] Hint Resolve latch_at_occurred : sds.

(** ** Properties *)

(** C19: once an error is latched, no later assertion, failed or not,
    changes any field of the record: the first fault wins. *)
Theorem sds_assert_first_wins (l : src_loc) (c : bool) (e : sds_error_t) :
  occurred e = 1 -> sds_assert l c e = e.
Proof. intros H. apply sds_assert_occurred. lia. Qed.

Lemma sds_assert_first_wins_witness :
  occurred (latch_at (mk_loc "a.c" 10) sds_error_init) = 1 /\
  sds_assert (mk_loc "b.c" 20) false (latch_at (mk_loc "a.c" 10) sds_error_init)
  = latch_at (mk_loc "a.c" 10) sds_error_init.
Proof. split; [reflexivity|]. apply sds_assert_first_wins. reflexivity. Defined.

(** C18: running a sequence of assertions from a record with no error
    latched leaves exactly the location of the first failing assertion in
    the record, or the record unchanged when none fails. *)
Theorem run_asserts_first_failure (l : list (src_loc * bool)) (e : sds_error_t) :
  occurred e = 0 ->
  run_asserts l e = match first_failure l with
                    | Some loc => latch_at loc e
                    | None => e
                    end.
Proof.
  revert e. induction l as [|[loc c] t IH]; intros e H; simpl; [done|].
  destruct c.
  - rewrite sds_assert_true. by apply IH.
  - rewrite sds_assert_fires by done. apply run_asserts_latched. done.
Qed.

Lemma run_asserts_first_failure_witness :
  occurred sds_error_init = 0 /\
  run_asserts [(mk_loc "r.c" 87, true); (mk_loc "r.c" 92, false); (mk_loc "r.c" 116, false)]
    sds_error_init = mk_sds_error 1 0 (Some "r.c") 92.
Proof.
  split; [reflexivity|].
  rewrite (run_asserts_first_failure _ sds_error_init eq_refl). reflexivity.
Defined.

(** C36: every assertion and every callback preserves the well-formedness
    of the record. *)
Theorem sds_assert_wf (l : src_loc) (c : bool) (e : sds_error_t) :
  error_wf e -> error_wf (sds_assert l c e).
Proof.
  intros He. unfold sds_assert. destruct (negb c && (occurred e =? 0)); [|done].
  split; [by right|done].
Qed.

Lemma sds_assert_wf_witness :
  error_wf sds_error_init /\ error_wf (sds_assert (mk_loc "r.c" 116) false sds_error_init).
Proof.
  assert (H : error_wf sds_error_init) by (split; [by left | done]).
  split; [exact H | apply sds_assert_wf; exact H].
Defined.

(** C35: the callback latches an error exactly when the event carries the
    I/O error bit and no error is latched yet; other events leave the
    record unchanged. *)
Theorem recorder_event_callback_spec {Id : Type} (l : src_loc) (id : Id) (event : Z)
  (e : sds_error_t) :
  recorder_event_callback l id event e =
  if Z.testbit event 0 && (occurred e =? 0) then latch_at l e else e.
Proof.
  unfold recorder_event_callback, SDS_REC_EVENT_IO_ERROR.
  rewrite land_1_eqb_0, negb_involutive.
  destruct (Z.testbit event 0); [done|].
  simpl. destruct (occurred e =? 0); done.
Qed.

(** ** The macro's stores as separate steps *)

Section Interleaving.

(** Where a context stands in one expansion of the macro: before the test,
    or before one of its three stores. *)
Inductive assert_pc := PcTest | PcOccurred | PcFile | PcLine | PcDone.

(** A context executing one expansion: its location, its condition and its
    position. *)
Record actx := mk_actx { a_loc : src_loc; a_cond : bool; a_pc : assert_pc }.

Definition at_pc (c : actx) (pc : assert_pc) : actx := mk_actx (a_loc c) (a_cond c) pc.

(** One step of the macro [if (!cond && occurred == 0U) { occurred = 1U;
    file = __FILE__; line = __LINE__; }]. *)
Definition assert_step (c : actx) (e : sds_error_t) : actx * sds_error_t :=
  match a_pc c with
  | PcTest =>
      if negb (a_cond c) && (occurred e =? 0) then (at_pc c PcOccurred, e)
      else (at_pc c PcDone, e)
  | PcOccurred => (at_pc c PcFile, mk_sds_error 1 (reported e) (file e) (line e))
  | PcFile =>
      (at_pc c PcLine, mk_sds_error (occurred e) (reported e) (Some (loc_file (a_loc c))) (line e))
  | PcLine =>
      (at_pc c PcDone, mk_sds_error (occurred e) (reported e) (file e) (loc_line (a_loc c)))
  | PcDone => (c, e)
  end.

(** Two contexts (the control thread and the recorder's callback context)
    scheduled by a list of choices: [true] runs the first, [false] the
    second. *)
Fixpoint interleave (sched : list bool) (a b : actx) (e : sds_error_t)
  : actx * actx * sds_error_t :=
  match sched with
  | [] => (a, b, e)
  | true :: s => let '(a', e') := assert_step a e in interleave s a' b e'
  | false :: s => let '(b', e') := assert_step b e in interleave s a b' e'
  end.

End Interleaving.

(** Run alone, the four steps of one expansion compute [sds_assert]:
    the step model refines the function used everywhere else. *)
Lemma assert_steps_alone (l : src_loc) (c : bool) (e : sds_error_t) (b : actx) :
  snd (interleave [true; true; true; true] (mk_actx l c PcTest) b e) = sds_assert l c e.
Proof.
  unfold sds_assert, interleave, assert_step. simpl.
  destruct (negb c && (occurred e =? 0)); reflexivity.
Qed.

(** C24: the latch is not atomic.  Two failing assertions at different
    locations, interleaved after both tests passed, leave the file of the
    second and the line of the first: a record naming neither failure. *)
Example torn_error_record :
  let la := mk_loc "a.c" 10 in
  let lb := mk_loc "b.c" 20 in
  let '(_, _, e) := interleave [true; false; true; true; false; false; false; true]
                      (mk_actx la false PcTest) (mk_actx lb false PcTest) sds_error_init in
  e = mk_sds_error 1 0 (Some "b.c") 10 /\
  e <> latch_at la sds_error_init /\ e <> latch_at lb sds_error_init.
Proof. vm_compute. split; [done|]. split; intros H; inversion H. Qed.
