(* ===== verification/SdsRec.v ===== *)
(** * SdsRec: the SDS recorder, its interface and a stream-buffer model

    The controllers of this repository call the SDS recorder
    ([sdsRecInit], [sdsRecOpen], [sdsRecWrite], [sdsRecClose] of the SDS
    framework's [sds_rec.h]); that library is not under src/.  This file
    holds:

    - [SdsRecApi], the operations the controllers call, as a typeclass over
      the recorder's state [St] and its stream identifiers [Id], and
      [SdsRecLaws], what the recorder promises about them: an abstract
      table of open streams ([sr_open s id name]), an open of a fresh name
      with a threshold below the buffer size succeeds and adds one entry,
      a close of an open stream succeeds and removes exactly it, and a close
      of [NULL] fails.  The controllers' theorems are proved against these
      laws.
    - the stream buffer and recording session of the specification (section
      4.2), modelled from the specification: a per-stream buffer with a
      fill level, a threshold crossing that issues one flush request, an
      asynchronous I/O step that drains the buffer, and a close that writes
      the rest out.  The record headers of the SDS format (timestamp, size)
      are not modelled: a stream is the sequence of its data bytes.  A
      write that does not fit is refused whole (it returns 0).
    - the theorems that this model keeps every fill level within its
      capacity, issues exactly one flush request per threshold crossing,
      loses no byte (delivered bytes followed by buffered bytes are the
      accepted bytes, a refinement of an abstract byte stream), and
      satisfies [SdsRecLaws]. *)

From S2P Require Import Prelude.

Open Scope Z_scope.
Open Scope sds_scope.

(** Return codes of [sds_rec.h]. *)
Definition SDS_REC_OK : Z := 0.
Definition SDS_REC_ERROR : Z := -1.
Definition SDS_REC_ERROR_PARAMETER : Z := -2.

(** ** The interface *)

Class SdsRecApi (St Id : Type) := {
  sdsRecInit : St -> Z * St;
  sdsRecOpen : string -> Z -> Z -> St -> option Id * St;
  sdsRecClose : option Id -> St -> Z * St
}.

(** [sr_ready s]: [sdsRecInit] has succeeded; [sr_open s id name]: the
    stream [id] named [name] is open. *)
Class SdsRecLaws (St Id : Type) `{SdsRecApi St Id}
    (sr_ready : St -> Prop) (sr_open : St -> Id -> string -> Prop) := {
  sr_open_fresh : forall s n sz thr,
    sr_ready s -> (forall i, ~ sr_open s i n) -> 0 <= thr < sz ->
    exists i s', sdsRecOpen n sz thr s = (Some i, s') /\ sr_ready s' /\
      (forall j m, sr_open s' j m <-> (j = i /\ m = n) \/ sr_open s j m);
  sr_close_open : forall s i n,
    sr_ready s -> sr_open s i n ->
    exists s', sdsRecClose (Some i) s = (SDS_REC_OK, s') /\ sr_ready s' /\
      (forall j m, sr_open s' j m <-> j <> i /\ sr_open s j m);
  sr_close_null : forall s, fst (sdsRecClose None s) <> SDS_REC_OK;
  sr_open_unique : forall s i n m, sr_open s i n -> sr_open s i m -> n = m
}.

(** ** The stream buffer (modelled from the specification) *)

Module StreamBuffer.

(** One stream: its name, buffer size and I/O threshold as given to
    [sdsRecOpen], the bytes in the buffer, the number of flush requests
    issued to the recorder thread, and the bytes already written to the
    I/O. *)
Record sdsStream := mk_stream {
  st_name : string;
  st_size : Z;
  st_threshold : Z;
  st_buf : list byte;
  st_requests : nat;
  st_out : list byte
}.

Definition fill (st : sdsStream) : Z := Z.of_nat (length (st_buf st)).

(** The fill level goes from [n] to [n'] across the threshold [thr]. *)
Definition crossing (thr n n' : Z) : bool := (n <? thr) && (thr <=? n').

(** A write: refused whole (0 bytes written) when it does not fit in the
    buffer; otherwise appended, and a flush request is issued when the fill
    level crosses the threshold. *)
Definition stream_write (data : list byte) (st : sdsStream) : Z * sdsStream :=
  let n := fill st in
  let n' := n + Z.of_nat (length data) in
  if st_size st <? n' then (0, st)
  else (Z.of_nat (length data),
        mk_stream (st_name st) (st_size st) (st_threshold st) (st_buf st ++ data)
          (st_requests st + Nat.b2n (crossing (st_threshold st) n n'))
          (st_out st)).

(** The recorder thread serving a flush request: the whole buffer is
    written to the I/O.  Below the threshold there is no request and the
    thread leaves the buffer alone. *)
Definition stream_io (st : sdsStream) : sdsStream :=
  if st_threshold st <=? fill st then
    mk_stream (st_name st) (st_size st) (st_threshold st) [] (st_requests st)
      (st_out st ++ st_buf st)
  else st.

(** The abstract stream: every byte accepted so far, in order.  It is also
    what [sdsRecClose] leaves in the I/O after its final flush. *)
Definition stream_abs (st : sdsStream) : list byte := st_out st ++ st_buf st.

(** The invariant of a stream: a threshold below the size, and a fill
    level within the buffer. *)
Definition stream_wf (st : sdsStream) : Prop :=
  0 <= st_threshold st < st_size st /\ fill st <= st_size st.

(** A sequence of producer writes and recorder-thread steps on one
    stream, with the values returned by the writes. *)
Inductive stream_op := OpWrite (data : list byte) | OpIo.

Fixpoint stream_run (ops : list stream_op) (st : sdsStream) : list Z * sdsStream :=
  match ops with
  | [] => ([], st)
  | OpWrite d :: t =>
      let '(r, st1) := stream_write d st in
      let '(rs, st2) := stream_run t st1 in (r :: rs, st2)
  | OpIo :: t => stream_run t (stream_io st)
  end.

(** The bytes the run accepted: the data of each write that returned a
    non-zero count. *)
Fixpoint accepted (ops : list stream_op) (rs : list Z) : list byte :=
  match ops, rs with
  | OpWrite d :: t, r :: rs' => (if r =? 0 then [] else d) ++ accepted t rs'
  | OpIo :: t, _ => accepted t rs
  | _, _ => []
  end.

Lemma fill_app st d :
  Z.of_nat (length (st_buf st ++ d)) = fill st + Z.of_nat (length d).
Proof. unfold fill. rewrite length_app. lia. Qed.

Lemma stream_write_cases d st :
  (st_size st < fill st + Z.of_nat (length d) /\ stream_write d st = (0, st)) \/
  (fill st + Z.of_nat (length d) <= st_size st /\
   stream_write d st =
     (Z.of_nat (length d),
      mk_stream (st_name st) (st_size st) (st_threshold st) (st_buf st ++ d)
        (st_requests st + Nat.b2n (crossing (st_threshold st) (fill st) (fill st + Z.of_nat (length d))))
        (st_out st))).
Proof.
  unfold stream_write. destruct (st_size st <? _) eqn:E; zbool; [left|right]; done.
Qed.

Lemma stream_write_abs d st :
  stream_abs (snd (stream_write d st)) =
  stream_abs st ++ (if fst (stream_write d st) =? 0 then [] else d).
Proof.
  destruct (stream_write_cases d st) as [[_ ->]|[_ ->]]; simpl.
  - by rewrite app_nil_r.
  - unfold stream_abs; simpl. destruct d as [|x d]; simpl; [by rewrite !app_nil_r|].
    by rewrite app_assoc.
Qed.

Lemma stream_io_abs st : stream_abs (stream_io st) = stream_abs st.
Proof.
  unfold stream_io, stream_abs. destruct (_ <=? _); simpl; [|done].
  by rewrite app_nil_r.
Qed.

Lemma stream_write_wf d st : stream_wf st -> stream_wf (snd (stream_write d st)).
Proof.
  intros [Ht Hf]. destruct (stream_write_cases d st) as [[_ ->]|[Hle ->]]; simpl.
  - done.
  - split; [done|]. unfold fill; simpl. rewrite fill_app. done.
Qed.

Lemma stream_io_wf st : stream_wf st -> stream_wf (stream_io st).
Proof.
  intros [Ht Hf]. unfold stream_io. destruct (_ <=? _); [|done].
  split; [done|]. unfold fill; simpl. lia.
Qed.

Lemma stream_write_fill_mono d st : fill st <= fill (snd (stream_write d st)).
Proof.
  destruct (stream_write_cases d st) as [[_ ->]|[_ ->]]; simpl; [lia|].
  unfold fill; simpl. rewrite length_app. lia.
Qed.

Lemma stream_write_requests d st :
  st_requests (snd (stream_write d st)) =
  (st_requests st + Nat.b2n (crossing (st_threshold st) (fill st) (fill (snd (stream_write d st)))))%nat.
Proof.
  destruct (stream_write_cases d st) as [[H ->]|[_ ->]]; simpl.
  - unfold crossing. destruct (fill st <? _) eqn:E1; destruct (_ <=? fill st) eqn:E2; simpl; zbool; lia.
  - unfold fill; simpl. by rewrite length_app, Nat2Z.inj_add.
Qed.

Lemma stream_write_keeps st d :
  st_threshold (snd (stream_write d st)) = st_threshold st /\
  st_size (snd (stream_write d st)) = st_size st /\
  st_name (snd (stream_write d st)) = st_name st.
Proof. destruct (stream_write_cases d st) as [[_ ->]|[_ ->]]; done. Qed.

Definition is_write (o : stream_op) : bool := if o is OpWrite _ then true else false.

Lemma crossing_split thr a b c :
  a <= b -> b <= c ->
  (Nat.b2n (crossing thr a b) + Nat.b2n (crossing thr b c))%nat = Nat.b2n (crossing thr a c).
Proof.
  intros. unfold crossing.
  destruct (a <? thr) eqn:E1, (thr <=? b) eqn:E2, (b <? thr) eqn:E3, (thr <=? c) eqn:E4;
    simpl; zbool; lia.
Qed.

(** A run of writes only moves the fill level up and keeps the threshold. *)
Lemma stream_run_writes_mono ops st :
  forallb is_write ops = true ->
  fill st <= fill (snd (stream_run ops st)) /\
  st_threshold (snd (stream_run ops st)) = st_threshold st.
Proof.
  revert st. induction ops as [|[d|] t IH]; intros st Hw; simpl in *; [lia| |done].
  pose proof (stream_write_fill_mono d st) as Hm.
  destruct (stream_write_keeps st d) as [Ht _].
  destruct (stream_write d st) as [r st1]. simpl in *.
  destruct (IH st1 Hw) as [Hm' Ht']. destruct (stream_run t st1) as [rs st2]. simpl in *.
  split; lia.
Qed.

(** for every sequence of producer writes and recorder-thread steps,
    a well-formed stream stays well-formed: the fill level never exceeds
    the buffer size. *)
Lemma stream_run_wf (ops : list stream_op) (st : sdsStream) :
  stream_wf st -> stream_wf (snd (stream_run ops st)).
Proof.
  revert st. induction ops as [|[d|] t IH]; intros st Hwf; simpl; [done| |].
  - pose proof (stream_write_wf d st Hwf) as H1.
    destruct (stream_write d st) as [r st1]. simpl in H1.
    specialize (IH st1 H1). destruct (stream_run t st1). done.
  - by apply IH, stream_io_wf.
Qed.

(** no byte is lost or reordered: the bytes written to the I/O followed
    by the bytes still buffered are the bytes the stream held before,
    followed by the data of every accepted write, in order.  This is the
    refinement of the abstract stream (a byte sequence with append) by the
    buffer. *)
Lemma stream_run_refines (ops : list stream_op) (st : sdsStream) :
  stream_abs (snd (stream_run ops st)) = stream_abs st ++ accepted ops (fst (stream_run ops st)).
Proof.
  revert st. induction ops as [|[d|] t IH]; intros st; simpl.
  - by rewrite app_nil_r.
  - pose proof (stream_write_abs d st) as H1.
    destruct (stream_write d st) as [r st1]. simpl in H1.
    specialize (IH st1). destruct (stream_run t st1) as [rs st2]. simpl in *.
    rewrite IH, H1, app_assoc. done.
  - rewrite IH, stream_io_abs. done.
Qed.

(** between two recorder-thread steps, writes issue at most one flush
    request, not one per write or per byte: exactly one when the run of
    writes takes the fill level from below the threshold to or above it,
    none otherwise. *)
Lemma stream_writes_one_request (ops : list stream_op) (st : sdsStream) :
  forallb is_write ops = true ->
  st_requests (snd (stream_run ops st)) =
  (st_requests st + Nat.b2n (crossing (st_threshold st) (fill st) (fill (snd (stream_run ops st)))))%nat.
Proof.
  revert st. induction ops as [|[d|] t IH]; intros st Hw; simpl in *; [| |discriminate Hw].
  - unfold crossing. destruct (fill st <? _) eqn:E1; destruct (_ <=? fill st) eqn:E2; simpl; zbool; lia.
  - pose proof (stream_write_requests d st) as Hr.
    pose proof (stream_write_fill_mono d st) as Hm.
    destruct (stream_write_keeps st d) as [Ht _].
    destruct (stream_write d st) as [r st1]. simpl in *.
    pose proof (stream_run_writes_mono t st1 Hw) as [Hm' _].
    specialize (IH st1 Hw). destruct (stream_run t st1) as [rs st2]. simpl in *.
    rewrite IH, Hr, Ht, <- Nat.add_assoc, crossing_split by done. done.
Qed.

(** An empty stream as [sdsRecOpen] creates it. *)
Definition stream_new (n : string) (size thr : Z) : sdsStream := mk_stream n size thr [] 0 [].


End StreamBuffer.

(** ** The recorder (modelled from the specification) *)

Module Recorder.
Import StreamBuffer.

(** The recorder: whether [sdsRecInit] ran, the open streams by
    identifier, the next identifier to hand out, and, for the streams
    already closed, the bytes written to their I/O. *)
Record sdsRecState := mk_rec {
  rec_init : bool;
  rec_streams : gmap nat sdsStream;
  rec_next : nat;
  rec_closed : gmap nat (list byte)
}.

Definition rec_empty : sdsRecState := mk_rec false ∅ 0 ∅.

Definition name_in_use (n : string) (s : sdsRecState) : bool :=
  existsb (fun p : nat * sdsStream => String.eqb (st_name p.2) n) (map_to_list (rec_streams s)).

Definition rec_sdsRecInit (s : sdsRecState) : Z * sdsRecState :=
  (SDS_REC_OK, mk_rec true (rec_streams s) (rec_next s) (rec_closed s)).

(** [sdsRecOpen(name, buf, buf_size, io_threshold)]: fails before
    [sdsRecInit], for a threshold that is not below the buffer size, and
    for a name that is already open. *)
Definition rec_sdsRecOpen (n : string) (size thr : Z) (s : sdsRecState)
  : option nat * sdsRecState :=
  if negb (rec_init s) then (None, s)
  else if negb ((0 <=? thr) && (thr <? size)) then (None, s)
  else if name_in_use n s then (None, s)
  else (Some (rec_next s),
        mk_rec true (<[rec_next s := mk_stream n size thr [] 0 []]> (rec_streams s))
          (S (rec_next s)) (rec_closed s)).

(** [sdsRecWrite(id, buf, buf_size)]: the number of bytes written. *)
Definition rec_sdsRecWrite (id : option nat) (data : list byte) (s : sdsRecState)
  : Z * sdsRecState :=
  match id with
  | None => (SDS_REC_ERROR_PARAMETER, s)
  | Some i =>
      match rec_streams s !! i with
      | None => (SDS_REC_ERROR, s)
      | Some st =>
          let '(r, st') := stream_write data st in
          (r, mk_rec (rec_init s) (<[i := st']> (rec_streams s)) (rec_next s) (rec_closed s))
      end
  end.

(** One step of the recorder thread on stream [i]. *)
Definition rec_io (i : nat) (s : sdsRecState) : sdsRecState :=
  mk_rec (rec_init s) (alter stream_io i (rec_streams s)) (rec_next s) (rec_closed s).

(** [sdsRecClose(id)]: writes the rest of the buffer out and releases the
    stream; fails for [NULL] and for a stream that is not open. *)
Definition rec_sdsRecClose (id : option nat) (s : sdsRecState) : Z * sdsRecState :=
  match id with
  | None => (SDS_REC_ERROR_PARAMETER, s)
  | Some i =>
      match rec_streams s !! i with
      | None => (SDS_REC_ERROR, s)
      | Some st =>
          (SDS_REC_OK, mk_rec (rec_init s) (delete i (rec_streams s)) (rec_next s)
                         (<[i := stream_abs st]> (rec_closed s)))
      end
  end.

#[export] Instance rec_api : SdsRecApi sdsRecState nat := {|
  sdsRecInit := rec_sdsRecInit;
  sdsRecOpen := rec_sdsRecOpen;
  sdsRecClose := rec_sdsRecClose
|}.

(** The abstract table of the laws, and readiness: initialised, with every
    open identifier below the next one. *)
Definition rec_open (s : sdsRecState) (i : nat) (n : string) : Prop :=
  exists st, rec_streams s !! i = Some st /\ st_name st = n.

Definition rec_ready (s : sdsRecState) : Prop :=
  rec_init s = true /\ forall i st, rec_streams s !! i = Some st -> (i < rec_next s)%nat.

Lemma name_in_use_spec n s : name_in_use n s = true <-> exists i, rec_open s i n.
Proof.
  unfold name_in_use, rec_open. rewrite existsb_exists. split.
  - intros [[i st] [Hin Heq]]. apply String.eqb_eq in Heq.
    apply list_elem_of_In, elem_of_map_to_list in Hin. eauto.
  - intros (i & st & Hl & <-). exists (i, st). split; [|apply String.eqb_refl].
    apply list_elem_of_In, elem_of_map_to_list. done.
Qed.

Lemma rec_open_fresh_none s n :
  (forall i, ~ rec_open s i n) -> name_in_use n s = false.
Proof.
  intros H. destruct (name_in_use n s) eqn:E; [|done].
  apply name_in_use_spec in E as [i Hi]. by destruct (H i).
Qed.

Lemma rec_open_insert s k st j m :
  rec_open (mk_rec true (<[k := st]> (rec_streams s)) (S k) (rec_closed s)) j m <->
  (j = k /\ m = st_name st) \/ (j <> k /\ rec_open s j m).
Proof.
  unfold rec_open; simpl. destruct (decide (j = k)) as [->|Hne].
  - rewrite lookup_insert_eq. split.
    + intros (st' & [= <-] & <-). by left.
    + intros [[_ ->]|[]]; [by eauto|done].
  - rewrite lookup_insert_ne by done. split; [by right|]. intros [[]|[_ ?]]; done.
Qed.

Lemma rec_open_delete s k j m (c : gmap nat (list byte)) :
  rec_open (mk_rec (rec_init s) (delete k (rec_streams s)) (rec_next s) c) j m <->
  j <> k /\ rec_open s j m.
Proof.
  unfold rec_open; simpl. destruct (decide (j = k)) as [->|Hne].
  - rewrite lookup_delete_eq. split; [by intros (? & ? & _)|by intros []].
  - rewrite lookup_delete_ne by done. split; [by split|by intros []].
Qed.

Lemma rec_sdsRecOpen_in_use n sz thr s :
  name_in_use n s = true -> rec_sdsRecOpen n sz thr s = (None, s).
Proof.
  intros H. unfold rec_sdsRecOpen. rewrite H.
  destruct (rec_init s), ((0 <=? thr) && (thr <? sz)); done.
Qed.

(** ** Invariants of the recorder *)

(** Every open stream is well formed. *)
Definition rec_wf (s : sdsRecState) : Prop :=
  forall i st, rec_streams s !! i = Some st -> stream_wf st.

(** Identifiers in use, open or closed, are below the next one. *)
Definition rec_fresh (s : sdsRecState) : Prop :=
  forall i, is_Some (rec_streams s !! i) \/ is_Some (rec_closed s !! i) -> (i < rec_next s)%nat.

(** All bytes a stream has accepted: buffered and written while open, the
    final output once closed. *)
Definition rec_bytes (s : sdsRecState) (i : nat) : list byte :=
  match rec_streams s !! i with
  | Some st => stream_abs st
  | None => default [] (rec_closed s !! i)
  end.

Lemma rec_sdsRecOpen_cases n sz thr s :
  rec_sdsRecOpen n sz thr s = (None, s) \/
  (rec_init s = true /\ 0 <= thr < sz /\
   rec_sdsRecOpen n sz thr s =
   (Some (rec_next s), mk_rec true (<[rec_next s := stream_new n sz thr]> (rec_streams s))
                         (S (rec_next s)) (rec_closed s))).
Proof.
  unfold rec_sdsRecOpen. destruct (rec_init s); [|by left]. simpl.
  destruct ((0 <=? thr) && (thr <? sz)) eqn:E; simpl; [|by left].
  destruct (name_in_use n s); [by left|right].
  apply andb_true_iff in E as [E1 E2]. zbool. done.
Qed.

Lemma rec_sdsRecOpen_wf n sz thr s : rec_wf s -> rec_wf (snd (rec_sdsRecOpen n sz thr s)).
Proof.
  intros Hw. destruct (rec_sdsRecOpen_cases n sz thr s) as [->|(_ & Ht & ->)]; [done|].
  intros i st. simpl. destruct (decide (i = rec_next s)) as [->|Hne].
  - rewrite lookup_insert_eq. intros [= <-]. unfold stream_wf, fill. simpl. lia.
  - rewrite lookup_insert_ne by done. apply Hw.
Qed.

Lemma rec_sdsRecOpen_fresh n sz thr s : rec_fresh s -> rec_fresh (snd (rec_sdsRecOpen n sz thr s)).
Proof.
  intros Hf. destruct (rec_sdsRecOpen_cases n sz thr s) as [->|(_ & _ & ->)]; [done|].
  intros i Hi. simpl in *. destruct (decide (i = rec_next s)) as [->|Hne]; [lia|].
  rewrite lookup_insert_ne in Hi by done. specialize (Hf i Hi). lia.
Qed.

Lemma rec_sdsRecOpen_bytes n sz thr s j :
  rec_fresh s -> rec_bytes (snd (rec_sdsRecOpen n sz thr s)) j = rec_bytes s j.
Proof.
  intros Hf. destruct (rec_sdsRecOpen_cases n sz thr s) as [->|(_ & _ & ->)]; [done|].
  unfold rec_bytes. simpl. destruct (decide (j = rec_next s)) as [->|Hne].
  - rewrite lookup_insert_eq.
    destruct (rec_streams s !! rec_next s) eqn:E1.
    { assert (rec_next s < rec_next s)%nat by (apply Hf; left; by rewrite E1). lia. }
    destruct (rec_closed s !! rec_next s) eqn:E2.
    { assert (rec_next s < rec_next s)%nat by (apply Hf; right; by rewrite E2). lia. }
    done.
  - by rewrite lookup_insert_ne.
Qed.

Lemma rec_sdsRecOpen_ok n sz thr s :
  rec_init s = true -> name_in_use n s = false -> 0 <= thr < sz ->
  rec_sdsRecOpen n sz thr s =
  (Some (rec_next s), mk_rec true (<[rec_next s := stream_new n sz thr]> (rec_streams s))
                        (S (rec_next s)) (rec_closed s)).
Proof.
  intros Hi Hn Ht. unfold rec_sdsRecOpen. rewrite Hi, Hn.
  replace ((0 <=? thr) && (thr <? sz)) with true
    by (symmetry; apply andb_true_iff; split; zbool; lia).
  done.
Qed.

Lemma stream_write_ret d st : (fst (stream_write d st) =? 0) = negb (0 <? fst (stream_write d st)).
Proof.
  destruct (stream_write_cases d st) as [[_ ->]|[_ ->]]; simpl; [done|].
  destruct (Z.of_nat (length d) =? 0) eqn:E; zbool; simpl; [by rewrite E|].
  symmetry. apply negb_false_iff, Z.ltb_lt. lia.
Qed.

Lemma rec_sdsRecWrite_wf id d s : rec_wf s -> rec_wf (snd (rec_sdsRecWrite id d s)).
Proof.
  intros Hw. unfold rec_sdsRecWrite. destruct id as [i|]; [|done].
  destruct (rec_streams s !! i) as [st|] eqn:E; [|done].
  pose proof (stream_write_wf d st (Hw _ _ E)) as H1.
  destruct (stream_write d st) as [r st']. intros j st2. simpl.
  destruct (decide (j = i)) as [->|Hne].
  - rewrite lookup_insert_eq. by intros [= <-].
  - rewrite lookup_insert_ne by done. apply Hw.
Qed.

Lemma rec_sdsRecWrite_fresh id d s : rec_fresh s -> rec_fresh (snd (rec_sdsRecWrite id d s)).
Proof.
  intros Hf. unfold rec_sdsRecWrite. destruct id as [i|]; [|done].
  destruct (rec_streams s !! i) as [st|] eqn:E; [|done].
  destruct (stream_write d st) as [r st']. intros j Hj. simpl in *.
  destruct (decide (j = i)) as [->|Hne]; [apply Hf; by left; rewrite E|].
  rewrite lookup_insert_ne in Hj by done. by apply Hf.
Qed.

Lemma rec_sdsRecWrite_bytes id d s j :
  rec_bytes (snd (rec_sdsRecWrite id d s)) j =
  rec_bytes s j ++
    (if bool_decide (id = Some j) && (0 <? fst (rec_sdsRecWrite id d s)) then d else []).
Proof.
  unfold rec_sdsRecWrite. destruct id as [i|]; simpl; [|by rewrite app_nil_r].
  destruct (rec_streams s !! i) as [st|] eqn:E; simpl; [|by rewrite andb_false_r, app_nil_r].
  pose proof (stream_write_abs d st) as Ha. rewrite stream_write_ret in Ha.
  destruct (stream_write d st) as [r st']. simpl in *. unfold rec_bytes. simpl.
  destruct (decide (j = i)) as [->|Hne].
  - rewrite lookup_insert_eq, E, bool_decide_eq_true_2 by done. simpl.
    rewrite Ha. by destruct (0 <? r).
  - rewrite lookup_insert_ne, bool_decide_eq_false_2 by congruence. simpl.
    by rewrite app_nil_r.
Qed.

Lemma rec_io_wf i s : rec_wf s -> rec_wf (rec_io i s).
Proof.
  intros Hw j st. unfold rec_io. simpl. rewrite lookup_alter_Some.
  intros [(Hji & st0 & Hs0 & ->)|[_ Hj]]; [by apply stream_io_wf, (Hw j)|by apply (Hw j)].
Qed.

Lemma rec_io_fresh i s : rec_fresh s -> rec_fresh (rec_io i s).
Proof.
  intros Hf j Hj. apply Hf. unfold rec_io in Hj. simpl in Hj.
  rewrite lookup_alter_is_Some in Hj. done.
Qed.

Lemma rec_io_bytes i s j : rec_bytes (rec_io i s) j = rec_bytes s j.
Proof.
  unfold rec_bytes, rec_io. simpl. destruct (decide (j = i)) as [->|Hne].
  - rewrite lookup_alter_eq. destruct (rec_streams s !! i); simpl; [apply stream_io_abs|done].
  - by rewrite lookup_alter_ne.
Qed.

Lemma rec_sdsRecClose_wf id s : rec_wf s -> rec_wf (snd (rec_sdsRecClose id s)).
Proof.
  intros Hw. unfold rec_sdsRecClose. destruct id as [i|]; [|done].
  destruct (rec_streams s !! i) eqn:E; [|done]. intros j st. simpl.
  rewrite lookup_delete_Some. intros [_ Hj]. by apply (Hw j).
Qed.

Lemma rec_sdsRecClose_fresh id s : rec_fresh s -> rec_fresh (snd (rec_sdsRecClose id s)).
Proof.
  intros Hf. unfold rec_sdsRecClose. destruct id as [i|]; [|done].
  destruct (rec_streams s !! i) eqn:E; [|done]. intros j Hj. simpl in *.
  destruct (decide (j = i)) as [->|Hne]; [apply Hf; left; by rewrite E|].
  rewrite lookup_delete_ne, lookup_insert_ne in Hj by done. by apply Hf.
Qed.

Lemma rec_sdsRecClose_bytes id s j : rec_bytes (snd (rec_sdsRecClose id s)) j = rec_bytes s j.
Proof.
  unfold rec_sdsRecClose. destruct id as [i|]; [|done].
  destruct (rec_streams s !! i) as [st|] eqn:E; [|done]. unfold rec_bytes. simpl.
  destruct (decide (j = i)) as [->|Hne].
  - by rewrite lookup_delete_eq, lookup_insert_eq, E.
  - by rewrite lookup_delete_ne, lookup_insert_ne.
Qed.

Lemma rec_sdsRecInit_inv s :
  rec_streams (snd (rec_sdsRecInit s)) = rec_streams s /\
  rec_closed (snd (rec_sdsRecInit s)) = rec_closed s /\ rec_next (snd (rec_sdsRecInit s)) = rec_next s.
Proof. done. Qed.

#[export] Instance rec_laws : SdsRecLaws sdsRecState nat rec_ready rec_open.
Proof.
  split.
  - intros s n sz thr [Hinit Hlt] Hfree Hthr. simpl. unfold rec_sdsRecOpen.
    rewrite Hinit, rec_open_fresh_none by done.
    replace ((0 <=? thr) && (thr <? sz)) with true
      by (symmetry; apply andb_true_iff; split; zbool; lia).
    simpl. eexists _, _. split; [reflexivity|]. split.
    + split; [done|]. simpl. intros i st Hi.
      destruct (decide (i = rec_next s)) as [->|Hne]; [lia|].
      rewrite lookup_insert_ne in Hi by done. specialize (Hlt _ _ Hi). lia.
    + intros j m. rewrite rec_open_insert. simpl. split.
      * intros [[-> ->]|[_ H]]; [by left|by right].
      * intros [[-> ->]|H]; [by left|right]. split; [|done].
        intros ->. destruct H as (st & Hst & _). specialize (Hlt _ _ Hst). lia.
  - intros s i n [Hinit Hlt] (st & Hst & <-). simpl. unfold rec_sdsRecClose. rewrite Hst.
    eexists. split; [reflexivity|]. split.
    + split; [done|]. simpl. intros j st' Hj.
      apply lookup_delete_Some in Hj as [_ Hj]. eauto.
    + intros j m. apply rec_open_delete.
  - intros s. simpl. unfold SDS_REC_ERROR_PARAMETER, SDS_REC_OK. lia.
  - intros s i n m (st & Hst & <-) (st' & Hst' & <-). congruence.
Qed.

End Recorder.
