(* ===== verification/RecorderSds.v ===== *)
(** * RecorderSds: the recording control of the ModelTest variant

    Models [rec_control] of src/Hardware/ModelTest/recorder_sds.c.  The C
    function initialises the recorder and then runs [for (;;)] a loop body
    that sleeps 100 ms per iteration.  Here:

    - [rec_state] holds the globals ([recActive], [recId_model_in],
      [recId_model_out], [sds_error]), the locals of [rec_control] that
      live across iterations ([btn_prev], [led0_cnt], [led0_val]), the
      recorder's state, the LED outputs and the trace of recorder calls;
    - [rec_control_init] is the code before the loop, [rec_tick] one
      iteration of the loop body for one sampled button level, and
      [rec_event] one run of [recorder_event_callback] from the recorder's
      context between two iterations; the infinite loop is modelled by its
      finite prefixes, [rec_run] over a list of inputs;
    - the recorder is any instance of [SdsRecApi]; the theorems that need
      the recorder to behave are proved against [SdsRecLaws], and the
      witnesses use the stream-buffer model of [SdsRec].

    The CMSIS VIO constants ([vioBUTTON0], [vioLED0], [vioLED1],
    [vioLEDon], [vioLEDoff]) come from [cmsis_vio.h], outside this
    repository; [vioSetSignal] and [vioGetSignal] are modelled on a
    bit-mask of LED outputs and a raw button level. *)

From S2P Require Import Prelude ErrorLatch SdsRec.

Open Scope Z_scope.
Open Scope sds_scope.

(** ** CMSIS VIO *)

Definition vioLED0 : Z := 1.
Definition vioLED1 : Z := 2.
Definition vioBUTTON0 : Z := 1.
Definition vioLEDon : Z := 4294967295.
Definition vioLEDoff : Z := 0.

(** [vioSetSignal(mask, signal)]: the LEDs selected by [mask] take the
    corresponding bits of [signal]. *)
Definition vioSetSignal (mask signal leds : Z) : Z :=
  Z.lor (Z.land leds (Z.lnot mask)) (Z.land signal mask).

(** [vioGetSignal(mask)] on the raw input level [raw]. *)
Definition vioGetSignal (mask raw : Z) : Z := Z.land raw mask.

(** ** Configuration of recorder_sds.c *)

Definition REC_BUF_SIZE_MODEL_IN : Z := 8192.
Definition REC_BUF_SIZE_MODEL_OUT : Z := 576.
Definition REC_IO_THRESHOLD_MODEL_IN : Z := u32 (REC_BUF_SIZE_MODEL_IN - 512).
Definition REC_IO_THRESHOLD_MODEL_OUT : Z := u32 (REC_BUF_SIZE_MODEL_OUT - 64).

(** The locations of the assertions of recorder_sds.c. *)
Definition rec_loc (ln : Z) : src_loc := mk_loc "recorder_sds.c" ln.

(** A call made to the recorder, as recorded in the trace. *)
Inductive sds_call := CallInit | CallOpen (name : string) | CallClose.

Definition is_open_call (c : sds_call) : bool := if c is CallOpen _ then true else false.
Definition is_close_call (c : sds_call) : bool := if c is CallClose then true else false.

Section RecControl.

Context {St Id : Type} `{SdsRecApi St Id}.

Record rec_state := mk_rs {
  btn_prev : Z;
  led0_cnt : Z;
  led0_val : Z;
  recActive : Z;
  recId_model_in : option Id;
  recId_model_out : option Id;
  sds_error : sds_error_t;
  sds : St;
  leds : Z;
  calls : list sds_call
}.

(** Code before the loop: [socket] is the status of [socket_startup()]
    when [RTE_SDS_IO_SOCKET] is defined. *)
Definition rec_control_init (socket : option Z) (sds0 : St) (leds0 : Z) : rec_state :=
  let err0 := match socket with
              | Some status => sds_assert (rec_loc 87) (status =? 0) sds_error_init
              | None => sds_error_init
              end in
  let '(status, sds1) := sdsRecInit sds0 in
  let err1 := sds_assert (rec_loc 92) (status =? SDS_REC_OK) err0 in
  mk_rs 0 0 0 0 None None err1 sds1 leds0 [CallInit].

(** [if (led0_cnt++ >= 10U) { led0_cnt = 0U; led0_val ^= 1U;
    vioSetSignal(vioLED0, led0_val); }] on [(led0_cnt, led0_val, leds)]. *)
Definition led0_step (c : Z * Z * Z) : Z * Z * Z :=
  let '(cnt, val, l) := c in
  if 10 <=? cnt then (0, val ^u8 1, vioSetSignal vioLED0 (val ^u8 1) l)
  else (cnt +u8 1, val, l).

(** The start branch: [recActive = 1U], open the two streams, LED1 on. *)
Definition rec_start (s : rec_state) : rec_state :=
  let '(id_in, sds1) := sdsRecOpen "Model_Input" REC_BUF_SIZE_MODEL_IN
                          REC_IO_THRESHOLD_MODEL_IN (sds s) in
  let err1 := sds_assert (rec_loc 116) (bool_decide (is_Some id_in)) (sds_error s) in
  let '(id_out, sds2) := sdsRecOpen "Model_Output" REC_BUF_SIZE_MODEL_OUT
                           REC_IO_THRESHOLD_MODEL_OUT sds1 in
  let err2 := sds_assert (rec_loc 123) (bool_decide (is_Some id_out)) err1 in
  mk_rs (btn_prev s) (led0_cnt s) (led0_val s) 1 id_in id_out err2 sds2
    (vioSetSignal vioLED1 vioLEDon (leds s))
    (calls s ++ [CallOpen "Model_Input"; CallOpen "Model_Output"]).

(** The stop branch: [recActive = 0U], close the two streams, LED1 off. *)
Definition rec_stop (s : rec_state) : rec_state :=
  let '(st1, sds1) := sdsRecClose (recId_model_in s) (sds s) in
  let err1 := sds_assert (rec_loc 132) (st1 =? SDS_REC_OK) (sds_error s) in
  let '(st2, sds2) := sdsRecClose (recId_model_out s) sds1 in
  let err2 := sds_assert (rec_loc 136) (st2 =? SDS_REC_OK) err1 in
  mk_rs (btn_prev s) (led0_cnt s) (led0_val s) 0 (recId_model_in s) (recId_model_out s)
    err2 sds2 (vioSetSignal vioLED1 vioLEDoff (leds s)) (calls s ++ [CallClose; CallClose]).

(** One iteration of the loop body with the button input at level [raw]. *)
Definition rec_tick (raw : Z) (s : rec_state) : rec_state :=
  let '(cnt, val, l) := led0_step (led0_cnt s, led0_val s, leds s) in
  let btn_val := u8 (vioGetSignal vioBUTTON0 raw) in
  let s1 := mk_rs (btn_prev s) cnt val (recActive s) (recId_model_in s)
              (recId_model_out s) (sds_error s) (sds s) l (calls s) in
  if negb (btn_val =? btn_prev s) then
    let s2 := mk_rs btn_val cnt val (recActive s) (recId_model_in s)
                (recId_model_out s) (sds_error s) (sds s) l (calls s) in
    if btn_val =? vioBUTTON0 then
      (if recActive s =? 0 then rec_start s2 else rec_stop s2)
    else s2
  else s1.

(** [recorder_event_callback(id, event)] run by the recorder between two
    iterations. *)
Definition rec_event (id : Id) (event : Z) (s : rec_state) : rec_state :=
  mk_rs (btn_prev s) (led0_cnt s) (led0_val s) (recActive s) (recId_model_in s)
    (recId_model_out s) (recorder_event_callback (rec_loc 70) id event (sds_error s))
    (sds s) (leds s) (calls s).

(** The inputs of a finite prefix of the loop: a tick with a button level,
    or a callback from the recorder. *)
Inductive rec_input := InTick (raw : Z) | InEvent (id : Id) (event : Z).

Definition rec_step (i : rec_input) (s : rec_state) : rec_state :=
  match i with
  | InTick raw => rec_tick raw s
  | InEvent id ev => rec_event id ev s
  end.

Fixpoint rec_run (ins : list rec_input) (s : rec_state) : rec_state :=
  match ins with
  | [] => s
  | i :: t => rec_run t (rec_step i s)
  end.

End RecControl.

Arguments rec_state : clear implicits.

(** ** Observations of the control state *)

(** The level of [btn_val] read for a raw button input. *)
Definition btn_level (raw : Z) : Z := u8 (vioGetSignal vioBUTTON0 raw).

(** A press edge: the button reads pressed and did not before. *)
Definition press_edge (prev raw : Z) : bool :=
  (btn_level raw =? vioBUTTON0) && negb (prev =? vioBUTTON0).

(** The abstract control: the number of press edges along a sequence of
    samples, starting from the previous level [prev]. *)
Fixpoint press_edges (prev : Z) (raws : list Z) : nat :=
  match raws with
  | [] => 0
  | r :: t => (Nat.b2n (press_edge prev r) + press_edges (btn_level r) t)%nat
  end.

Definition ticks_of {Id : Type} (ins : list (@rec_input Id)) : list Z :=
  omap (fun i => if i is InTick raw then Some raw else None) ins.

Section Observations.

Context {St Id : Type} `{SdsRecApi St Id}.

(** The part of the state the button handling acts on. *)
Definition rec_core (s : rec_state St Id)
  : Z * option Id * option Id * sds_error_t * St * list sds_call :=
  (recActive s, recId_model_in s, recId_model_out s, sds_error s, sds s, calls s).

Definition rec_toggle (s : rec_state St Id) : rec_state St Id :=
  if recActive s =? 0 then rec_start s else rec_stop s.

Lemma rec_start_core (s s' : rec_state St Id) :
  rec_core s = rec_core s' -> rec_core (rec_start s) = rec_core (rec_start s').
Proof.
  destruct s, s'. unfold rec_core; simpl. intros [= -> -> -> -> -> ->].
  unfold rec_start, rec_stop; simpl. destruct_lets. done.
Qed.

Lemma rec_stop_core (s s' : rec_state St Id) :
  rec_core s = rec_core s' -> rec_core (rec_stop s) = rec_core (rec_stop s').
Proof.
  destruct s, s'. unfold rec_core; simpl. intros [= -> -> -> -> -> ->].
  unfold rec_start, rec_stop; simpl. destruct_lets. done.
Qed.

Lemma rec_toggle_core (s s' : rec_state St Id) :
  rec_core s = rec_core s' -> rec_core (rec_toggle s) = rec_core (rec_toggle s').
Proof.
  intros Hc. unfold rec_toggle.
  replace (recActive s') with (recActive s) by (unfold rec_core in Hc; congruence).
  destruct (recActive s =? 0); [by apply rec_start_core|by apply rec_stop_core].
Qed.

Lemma rec_tick_btn_prev raw (s : rec_state St Id) :
  btn_prev (rec_tick raw s) = btn_level raw.
Proof.
  unfold rec_tick, btn_level. destruct (led0_step _) as [[cnt val] l].
  destruct (u8 _ =? btn_prev s) eqn:E; simpl; [zbool; done|].
  destruct (u8 _ =? vioBUTTON0); [|done].
  unfold rec_toggle, rec_start, rec_stop.
  destruct (recActive s =? 0);
    destruct_lets; done.
Qed.

Lemma rec_tick_core raw (s : rec_state St Id) :
  rec_core (rec_tick raw s) =
  if press_edge (btn_prev s) raw then rec_core (rec_toggle s) else rec_core s.
Proof.
  unfold rec_tick, press_edge, btn_level. destruct (led0_step _) as [[cnt val] l].
  destruct (u8 _ =? btn_prev s) eqn:E; zbool.
  - rewrite E. destruct (btn_prev s =? vioBUTTON0); simpl; done.
  - simpl. destruct (u8 _ =? vioBUTTON0) eqn:E2; zbool; simpl.
    + replace (btn_prev s =? vioBUTTON0) with false by (symmetry; apply Z.eqb_neq; lia).
      simpl. unfold rec_toggle.
      destruct (recActive s =? 0); [apply rec_start_core|apply rec_stop_core]; done.
    + done.
Qed.

Lemma rec_tick_led0 raw (s : rec_state St Id) :
  (led0_cnt (rec_tick raw s), led0_val (rec_tick raw s)) =
  let '(c, v, _) := led0_step (led0_cnt s, led0_val s, leds s) in (c, v).
Proof.
  unfold rec_tick. destruct (led0_step _) as [[cnt val] l].
  destruct (_ =? btn_prev s); simpl; [done|].
  destruct (_ =? vioBUTTON0); [|done].
  destruct (recActive s =? 0); unfold rec_start, rec_stop;
    destruct_lets; done.
Qed.

Lemma rec_event_core id ev (s : rec_state St Id) :
  recActive (rec_event id ev s) = recActive s /\ calls (rec_event id ev s) = calls s /\
  btn_prev (rec_event id ev s) = btn_prev s /\ sds (rec_event id ev s) = sds s.
Proof. done. Qed.

Lemma rec_start_calls (s : rec_state St Id) :
  recActive (rec_start s) = 1 /\
  calls (rec_start s) = calls s ++ [CallOpen "Model_Input"; CallOpen "Model_Output"].
Proof.
  unfold rec_start.
  destruct_lets; done.
Qed.

Lemma rec_stop_calls (s : rec_state St Id) :
  recActive (rec_stop s) = 0 /\ calls (rec_stop s) = calls s ++ [CallClose; CallClose].
Proof.
  unfold rec_stop.
  destruct_lets; done.
Qed.

End Observations.

(** ** Properties of the control loop *)

Section Properties.

Context {St Id : Type} `{SdsRecApi St Id}.

Lemma rec_core_fields (a b : rec_state St Id) :
  rec_core a = rec_core b ->
  recActive a = recActive b /\ calls a = calls b /\ sds_error a = sds_error b /\ sds a = sds b.
Proof. unfold rec_core. intros [= -> _ _ -> -> ->]. done. Qed.

Lemma btn_level_range raw : btn_level raw = 0 \/ btn_level raw = 1.
Proof.
  unfold btn_level, vioGetSignal, vioBUTTON0.
  rewrite land_1_mod2.
  pose proof (Z.mod_pos_bound raw 2 ltac:(lia)). rewrite u8_small by lia. lia.
Qed.

(** Opens and closes recorded so far balance while idle and differ by the
    two streams while recording. *)
Definition rec_balanced (s : rec_state St Id) : Prop :=
  (recActive s = 0 /\ count_if is_open_call (calls s) = count_if is_close_call (calls s)) \/
  (recActive s = 1 /\
   count_if is_open_call (calls s) = (count_if is_close_call (calls s) + 2)%nat).

Lemma rec_toggle_balanced (s : rec_state St Id) :
  rec_balanced s -> rec_balanced (rec_toggle s).
Proof.
  unfold rec_balanced, rec_toggle.
  intros [[Ha Hc]|[Ha Hc]]; rewrite Ha; simpl.
  - destruct (rec_start_calls s) as [-> ->]. right. split; [done|].
    autorewrite with sds_rw. simpl. lia.
  - destruct (rec_stop_calls s) as [-> ->]. left. split; [done|].
    autorewrite with sds_rw. simpl. lia.
Qed.

Lemma rec_step_balanced i (s : rec_state St Id) :
  rec_balanced s -> rec_balanced (rec_step i s).
Proof.
  destruct i as [raw|id ev]; simpl; [|done].
  intros Hb. pose proof (rec_tick_core raw s) as Hc.
  destruct (press_edge (btn_prev s) raw).
  - apply rec_core_fields in Hc as (Ha & Hcl & _).
    pose proof (rec_toggle_balanced s Hb) as Ht. unfold rec_balanced in *.
    by rewrite Ha, Hcl.
  - apply rec_core_fields in Hc as (Ha & Hcl & _). unfold rec_balanced in *.
    by rewrite Ha, Hcl.
Qed.

(** C1: at every point of every run of the control loop, including runs
    with recorder callbacks, the recorder has seen as many closes as opens
    when the controller is idle ([recActive = 0]), and two opens more
    while it records ([recActive = 1]). *)
Theorem rec_run_balanced (socket : option Z) (sds0 : St) (leds0 : Z)
  (ins : list (@rec_input Id)) :
  rec_balanced (rec_run ins (rec_control_init socket sds0 leds0)).
Proof.
  assert (H0 : rec_balanced (rec_control_init socket sds0 leds0)).
  { unfold rec_control_init. destruct_lets. left. done. }
  revert H0. generalize (rec_control_init socket sds0 leds0).
  induction ins as [|i t IH]; intros s Hs; simpl; [done|].
  by apply IH, rec_step_balanced.
Qed.

(** The ranges of the loop's [uint8_t] locals. *)
Definition rec_bounded (s : rec_state St Id) : Prop :=
  0 <= led0_cnt s <= 10 /\ (led0_val s = 0 \/ led0_val s = 1) /\
  (btn_prev s = 0 \/ btn_prev s = 1).

Lemma led0_step_bounded c v l :
  0 <= c <= 10 -> v = 0 \/ v = 1 ->
  let '(c', v', _) := led0_step (c, v, l) in 0 <= c' <= 10 /\ (v' = 0 \/ v' = 1).
Proof.
  intros Hc Hv. simpl. destruct (10 <=? c) eqn:E; zbool.
  - split; [lia|]. destruct Hv as [-> | ->]; [right|left]; reflexivity.
  - rewrite u8_small by lia. split; [lia|done].
Qed.

Lemma rec_step_bounded i (s : rec_state St Id) :
  rec_bounded s -> rec_bounded (rec_step i s).
Proof.
  destruct i as [raw|id ev]; simpl; [|done].
  intros (Hc & Hv & _). pose proof (rec_tick_led0 raw s) as Hl.
  pose proof (led0_step_bounded _ _ (leds s) Hc Hv) as Hb.
  destruct (led0_step _) as [[c' v'] l']. unfold rec_bounded.
  injection Hl as -> ->. rewrite rec_tick_btn_prev. split; [|split]; try apply Hb.
  apply btn_level_range.
Qed.

(** C27: in every run, the heartbeat counter stays within [0..10], the LED0
    value and the previous button level stay 0 or 1: no [uint8_t] local of
    the loop wraps around. *)
Theorem rec_run_bounded (socket : option Z) (sds0 : St) (leds0 : Z)
  (ins : list (@rec_input Id)) :
  rec_bounded (rec_run ins (rec_control_init socket sds0 leds0)).
Proof.
  assert (H0 : rec_bounded (rec_control_init socket sds0 leds0)).
  { unfold rec_control_init. destruct_lets. unfold rec_bounded. simpl. lia. }
  revert H0. generalize (rec_control_init socket sds0 leds0).
  induction ins as [|i t IH]; intros s Hs; simpl; [done|].
  by apply IH, rec_step_bounded.
Qed.

End Properties.

(** ** The heartbeat and the button *)

Lemma led0_step_count (c v l : Z) :
  0 <= c < 10 -> led0_step (c, v, l) = (c + 1, v, l).
Proof.
  intros Hc. simpl. replace (10 <=? c) with false by (symmetry; apply Z.leb_gt; lia).
  by rewrite u8_small by lia.
Qed.

(** C26: LED0 changes once every 11 iterations, not every 10: from a reset
    counter, the first ten iterations only count, and the eleventh toggles
    the LED.  With the loop's [osDelay(100U)] this is a period of 1.1 s
    where the comment says "every 1 second". *)
Theorem led0_toggle_period (v l : Z) (k : nat) :
  (k < 10)%nat ->
  Nat.iter (S k) led0_step (0, v, l) = (Z.of_nat (S k), v, l) /\
  Nat.iter 11 led0_step (0, v, l) = (0, v ^u8 1, vioSetSignal vioLED0 (v ^u8 1) l).
Proof.
  intros Hk. split; [|reflexivity].
  induction k as [|k IH]; [reflexivity|].
  rewrite Nat.iter_succ, IH by lia. rewrite led0_step_count by lia. f_equal. f_equal. lia.
Qed.

Lemma led0_toggle_period_witness :
  (3 < 10)%nat /\
  Nat.iter 4 led0_step (0, 1, 0) = (Z.of_nat 4, 1, 0) /\
  Nat.iter 11 led0_step (0, 1, 0) = (0, 1 ^u8 1, vioSetSignal vioLED0 (1 ^u8 1) 0).
Proof. split; [lia|]. apply (led0_toggle_period 1 0 3). lia. Defined.

Section Refinement.

Context {St Id : Type} `{SdsRecApi St Id}.

Lemma rec_toggle_active (s : rec_state St Id) :
  recActive s = 0 \/ recActive s = 1 -> recActive (rec_toggle s) = 1 - recActive s.
Proof.
  unfold rec_toggle. intros [-> | ->]; simpl.
  - by destruct (rec_start_calls s) as [-> _].
  - by destruct (rec_stop_calls s) as [-> _].
Qed.

Lemma rec_tick_active raw (s : rec_state St Id) :
  recActive s = 0 \/ recActive s = 1 ->
  recActive (rec_tick raw s) =
  if press_edge (btn_prev s) raw then 1 - recActive s else recActive s.
Proof.
  intros Ha. pose proof (rec_tick_core raw s) as Hc.
  destruct (press_edge _ _); apply rec_core_fields in Hc as [-> _]; [|done].
  by apply rec_toggle_active.
Qed.

(** C8: the control loop refines the abstract control "toggle between
    idle and recording on every press edge of the button": after any run
    (callbacks included), [recActive] is the initial one when the sampled
    levels contain an even number of press edges and the other one when
    they contain an odd number. *)
Theorem rec_run_refines_edges (ins : list (@rec_input Id)) (s : rec_state St Id) :
  recActive s = 0 \/ recActive s = 1 ->
  recActive (rec_run ins s) =
  if Nat.even (press_edges (btn_prev s) (ticks_of ins)) then recActive s else 1 - recActive s.
Proof.
  revert s. induction ins as [|[raw|id ev] t IH]; intros s Ha; simpl;
    [done| |exact (IH (rec_event id ev s) Ha)].
  pose proof (rec_tick_active raw s Ha) as Ht.
  rewrite IH, Ht, rec_tick_btn_prev.
  2: { rewrite Ht. destruct (press_edge _ _); lia. }
  destruct (press_edge _ _); cbn [Nat.b2n Nat.add]; [|done].
  rewrite Nat.even_succ, <- Nat.negb_even.
  destruct (Nat.even _); simpl; lia.
Qed.

End Refinement.

#[local] Existing Instances Recorder.rec_api Recorder.rec_laws.

Lemma rec_run_refines_edges_witness :
  (recActive (rec_control_init None Recorder.rec_empty 0) = 0 \/
   recActive (rec_control_init None Recorder.rec_empty 0) = 1) /\
  recActive (rec_run [InTick 1; InTick 0; InTick 1; InEvent 0%nat 1; InTick 0; InTick 1]
               (rec_control_init None Recorder.rec_empty 0)) = 1.
Proof.
  assert (H0 : recActive (rec_control_init None Recorder.rec_empty 0) = 0 \/
               recActive (rec_control_init None Recorder.rec_empty 0) = 1) by (left; reflexivity).
  split; [exact H0|]. rewrite (rec_run_refines_edges _ _ H0). reflexivity.
Defined.

(** Test of the specification's scenario: from start-up, pressed,
    released, pressed on three consecutive iterations gives exactly one
    start (two opens) and one stop (two closes), the controller idle again
    and no error latched. *)
Example press_release_press_scenario :
  let s := rec_run [InTick 1; InTick 0; InTick 1]
             (rec_control_init None Recorder.rec_empty 0) in
  recActive s = 0 /\
  calls s = [CallInit; CallOpen "Model_Input"; CallOpen "Model_Output"; CallClose; CallClose] /\
  sds_error s = sds_error_init.
Proof. vm_compute. repeat split. Qed.

(** ** A recording cycle against the recorder's laws *)

Lemma rec_thresholds_ok :
  0 <= REC_IO_THRESHOLD_MODEL_IN < REC_BUF_SIZE_MODEL_IN /\
  0 <= REC_IO_THRESHOLD_MODEL_OUT < REC_BUF_SIZE_MODEL_OUT.
Proof.
  unfold REC_IO_THRESHOLD_MODEL_IN, REC_IO_THRESHOLD_MODEL_OUT,
    REC_BUF_SIZE_MODEL_IN, REC_BUF_SIZE_MODEL_OUT.
  rewrite !u32_small by lia. lia.
Qed.

Section Cycle.

Context {St Id : Type} `{SdsRecApi St Id}.
Context (ready : St -> Prop) (opn : St -> Id -> string -> Prop).
Context `{!SdsRecLaws St Id ready opn}.

Lemma rec_start_spec (s : rec_state St Id) :
  ready (sds s) ->
  (forall i, ~ opn (sds s) i "Model_Input") -> (forall i, ~ opn (sds s) i "Model_Output") ->
  exists i o,
    recId_model_in (rec_start s) = Some i /\ recId_model_out (rec_start s) = Some o /\
    sds_error (rec_start s) = sds_error s /\ ready (sds (rec_start s)) /\
    (forall j m, opn (sds (rec_start s)) j m <->
       (j = o /\ m = "Model_Output") \/ (j = i /\ m = "Model_Input") \/ opn (sds s) j m).
Proof.
  intros Hr Hi Ho. destruct rec_thresholds_ok as [Hti Hto].
  destruct (sr_open_fresh _ _ _ _ Hr Hi Hti) as (i & s1 & Hop1 & Hr1 & Ht1).
  assert (Ho1 : forall j, ~ opn s1 j "Model_Output").
  { intros j Hj. apply Ht1 in Hj as [[_ ?]|Hj]; [done|by apply (Ho j)]. }
  destruct (sr_open_fresh _ _ _ _ Hr1 Ho1 Hto) as (o & s2 & Hop2 & Hr2 & Ht2).
  unfold rec_start. rewrite Hop1. cbn. rewrite Hop2. cbn.
  exists i, o. do 3 (split; [done|]). split; [done|].
  intros j m. rewrite Ht2, Ht1. done.
Qed.

Lemma rec_stop_spec (s : rec_state St Id) i o :
  ready (sds s) -> recId_model_in s = Some i -> recId_model_out s = Some o -> i <> o ->
  opn (sds s) i "Model_Input" -> opn (sds s) o "Model_Output" ->
  sds_error (rec_stop s) = sds_error s /\ ready (sds (rec_stop s)) /\
  (forall j m, opn (sds (rec_stop s)) j m <-> j <> o /\ j <> i /\ opn (sds s) j m).
Proof.
  intros Hr Hin Hout Hne Hoi Hoo.
  destruct (sr_close_open _ _ _ Hr Hoi) as (s1 & Hc1 & Hr1 & Ht1).
  assert (Hoo1 : opn s1 o "Model_Output") by (apply Ht1; done).
  destruct (sr_close_open _ _ _ Hr1 Hoo1) as (s2 & Hc2 & Hr2 & Ht2).
  unfold rec_stop. rewrite Hin. rewrite Hc1. cbn. rewrite Hout, Hc2. cbn.
  split; [done|]. split; [done|].
  intros j m. rewrite Ht2, Ht1. done.
Qed.

(** The two opens of a start name different streams. *)
Lemma rec_start_ids_distinct (s : rec_state St Id) i o :
  (forall j m, opn (sds (rec_start s)) j m <->
     (j = o /\ m = "Model_Output") \/ (j = i /\ m = "Model_Input") \/ opn (sds s) j m) ->
  i <> o.
Proof.
  intros Ht ->.
  assert (H1 : opn (sds (rec_start s)) o "Model_Output") by (apply Ht; by left).
  assert (H2 : opn (sds (rec_start s)) o "Model_Input") by (apply Ht; by right; left).
  pose proof (sr_open_unique _ _ _ _ H1 H2). done.
Qed.

Lemma rec_cycle_core (s : rec_state St Id) :
  btn_prev s = 0 -> recActive s = 0 ->
  rec_core (rec_run [InTick 1; InTick 0; InTick 1] s) = rec_core (rec_stop (rec_start s)).
Proof.
  intros Hb Ha. cbn [rec_run rec_step].
  assert (E1 : press_edge 0 1 = true) by reflexivity.
  assert (E2 : press_edge 1 0 = false) by reflexivity.
  pose proof (rec_tick_core 1 s) as C1. rewrite Hb, E1 in C1.
  pose proof (rec_tick_btn_prev 1 s) as B1. change (btn_level 1) with 1 in B1.
  pose proof (rec_tick_core 0 (rec_tick 1 s)) as C2. rewrite B1, E2 in C2.
  pose proof (rec_tick_btn_prev 0 (rec_tick 1 s)) as B2. change (btn_level 0) with 0 in B2.
  pose proof (rec_tick_core 1 (rec_tick 0 (rec_tick 1 s))) as C3. rewrite B2, E1 in C3.
  rewrite C3. apply rec_toggle_core in C2. rewrite C2.
  assert (Ha1 : recActive (rec_tick 1 s) = 1).
  { apply rec_core_fields in C1 as [-> _]. unfold rec_toggle. rewrite Ha. apply rec_start_calls. }
  unfold rec_toggle at 1. rewrite Ha1. simpl.
  apply rec_stop_core. rewrite C1. unfold rec_toggle. by rewrite Ha.
Qed.

(** C11: on a recorder that satisfies the laws, is initialised and has
    neither stream open, an idle controller that sees pressed, released,
    pressed completes one recording: it ends idle, latches no error, and
    leaves the recorder ready with exactly the streams that were open
    before. *)
Theorem rec_cycle_no_error (s : rec_state St Id) :
  ready (sds s) -> btn_prev s = 0 -> recActive s = 0 ->
  (forall i, ~ opn (sds s) i "Model_Input") -> (forall i, ~ opn (sds s) i "Model_Output") ->
  let s' := rec_run [InTick 1; InTick 0; InTick 1] s in
  recActive s' = 0 /\ sds_error s' = sds_error s /\ ready (sds s') /\
  (forall j m, opn (sds s') j m <-> opn (sds s) j m).
Proof.
  intros Hr Hb Ha Hi Ho. cbv zeta.
  pose proof (rec_cycle_core s Hb Ha) as Hc. apply rec_core_fields in Hc as (-> & _ & -> & ->).
  destruct (rec_start_spec s Hr Hi Ho) as (i & o & Hin & Hout & He1 & Hr1 & Ht1).
  pose proof (rec_start_ids_distinct s i o Ht1) as Hne.
  destruct (rec_stop_spec (rec_start s) i o Hr1 Hin Hout Hne) as (He2 & Hr2 & Ht2);
    [apply Ht1; by right; left | apply Ht1; by left |].
  split; [apply rec_stop_calls|]. rewrite He2, He1. do 2 (split; [done|]).
  intros j m. rewrite Ht2, Ht1. split.
  - intros (Hjo & Hji & [[? _]|[[? _]|Hj]]); done.
  - intros Hj. split; [|split; [|by right; right]]; intros ->.
    + assert (Hm : m = "Model_Output").
      { apply (sr_open_unique (sds (rec_start s)) o); apply Ht1; [by right; right|by left]. }
      subst m. by apply (Ho o).
    + assert (Hm : m = "Model_Input").
      { apply (sr_open_unique (sds (rec_start s)) i); apply Ht1; [by right; right|by right; left]. }
      subst m. by apply (Hi i).
Qed.

End Cycle.

Lemma rec_cycle_no_error_witness :
  let s := rec_control_init None Recorder.rec_empty 0 in
  (Recorder.rec_ready (sds s) /\ btn_prev s = 0 /\ recActive s = 0 /\
   (forall i, ~ Recorder.rec_open (sds s) i "Model_Input") /\
   (forall i, ~ Recorder.rec_open (sds s) i "Model_Output")) /\
  recActive (rec_run [InTick 1; InTick 0; InTick 1] s) = 0 /\
  sds_error (rec_run [InTick 1; InTick 0; InTick 1] s) = sds_error s.
Proof.
  cbv zeta.
  assert (Hr : Recorder.rec_ready (sds (rec_control_init None Recorder.rec_empty 0))).
  { split; [reflexivity|]. intros i st Hst. simpl in Hst. by rewrite lookup_empty in Hst. }
  assert (Hf : forall n i, ~ Recorder.rec_open (sds (rec_control_init None Recorder.rec_empty 0)) i n).
  { intros n i (st & Hst & _). simpl in Hst. by rewrite lookup_empty in Hst. }
  split; [split; [exact Hr|]; split; [reflexivity|]; split; [reflexivity|]; split; apply Hf|].
  destruct (rec_cycle_no_error Recorder.rec_ready Recorder.rec_open
              (rec_control_init None Recorder.rec_empty 0) Hr eq_refl eq_refl (Hf _) (Hf _))
    as (Ha & He & _).
  split; [exact Ha|exact He].
Defined.

(** ** A failed open *)

(** C28: a start whose open of "Model_Input" fails (the name is already
    open in the recorder, or the recorder was never initialised) is not
    fatal: the controller still records, with no input stream, LED1 on,
    and the failed assertion of line 116 latched as the first fault. *)
Theorem rec_start_open_fails (s : rec_state Recorder.sdsRecState nat) :
  Recorder.name_in_use "Model_Input" (sds s) = true ->
  occurred (sds_error s) = 0 -> btn_prev s = 0 -> recActive s = 0 ->
  let s' := rec_tick 1 s in
  recActive s' = 1 /\ recId_model_in s' = None /\
  sds_error s' = latch_at (rec_loc 116) (sds_error s) /\ Z.testbit (leds s') 1 = true.
Proof.
  intros Hu He Hb Ha. cbv zeta. unfold rec_tick.
  destruct (led0_step _) as [[cnt val] l].
  change (u8 (vioGetSignal vioBUTTON0 1)) with 1. rewrite Hb, Ha. cbn -[rec_start Z.testbit].
  unfold rec_start. cbn -[Recorder.rec_sdsRecOpen sds_assert vioSetSignal Z.testbit].
  rewrite Recorder.rec_sdsRecOpen_in_use by exact Hu.
  cbn -[Recorder.rec_sdsRecOpen sds_assert vioSetSignal Z.testbit].
  destruct (Recorder.rec_sdsRecOpen _ _ _ _) as [o s2]. cbn -[sds_assert vioSetSignal Z.testbit].
  rewrite sds_assert_fires by exact He.
  rewrite sds_assert_occurred by (rewrite latch_at_occurred; lia).
  do 3 (split; [done|]).
  unfold vioSetSignal. rewrite Z.lor_spec, !Z.land_spec. apply orb_true_iff. by right.
Qed.

Lemma rec_start_open_fails_witness :
  let sr := snd (Recorder.rec_sdsRecOpen "Model_Input" 8192 7680
                   (snd (Recorder.rec_sdsRecInit Recorder.rec_empty))) in
  let s := mk_rs 0 0 0 0 None None sds_error_init sr 0 [CallInit] in
  (Recorder.name_in_use "Model_Input" (sds s) = true /\ occurred (sds_error s) = 0 /\
   btn_prev s = 0 /\ recActive s = 0) /\
  sds_error (rec_tick 1 s) = latch_at (rec_loc 116) sds_error_init.
Proof.
  cbv zeta.
  split; [repeat split; vm_compute; reflexivity|].
  refine (proj1 (proj2 (proj2 (rec_start_open_fails _ _ _ _ _)))); vm_compute; reflexivity.
Defined.
