(* ===== verification/Producer.v ===== *)
(** * Producer: the data thread that feeds the two streams, and the
    capture system it forms with a control thread and the recorder

    Both variants have a producer context outside src/ (the inference
    loop of ModelTest, the data thread of TestData) that reads the
    control thread's global [recActive] and, while it is set, writes a
    block to each stream with [sdsRecWrite(recId, buf, len)].  It is
    modelled from the specification, with the read of [recActive] and the
    call of [sdsRecWrite] as two steps: the control thread and the
    recorder thread can run between them.

    The producer sees the control thread only through its globals, the
    typeclass [ControlGlobals] (with its laws [ControlGlobalsLaws]):
    [recActive], the two recorder identifiers, the recorder state, and
    what the producer does when it finds [recActive] cleared
    ([cg_idle]: nothing for ModelTest, [recDone = 1U] for TestData).

    Section [System] builds, for any control thread given as a step
    relation, the system [psys] of the control thread, the producer and
    the recorder thread ([rec_io]) with a ghost log of the writes the
    recorder accepted, and proves its invariant: every open stream is
    well formed and every stream's bytes are exactly the accepted writes,
    in order ([psys_reachable_inv]).  [Capture] and [DataCapture]
    instantiate it with the two control threads. *)

From S2P Require Import Prelude ErrorLatch SdsRec.
Import SdsRec.StreamBuffer SdsRec.Recorder.

Open Scope Z_scope.
Open Scope sds_scope.

(** The two streams a producer writes: model (or data) input and output. *)
Inductive prod_stream := PsIn | PsOut.

(** Where the producer is: before its test of [recActive], or between the
    test and the call [sdsRecWrite] of a block [d] to stream [w]. *)
Inductive prod_pc := PIdle | PWrite (w : prod_stream) (d : list byte).

(** What the producer reads and writes of the control thread's state. *)
Class ControlGlobals (C : Type) := {
  cg_active : C -> Z;
  cg_id : prod_stream -> C -> option nat;
  cg_sds : C -> sdsRecState;
  cg_with_sds : C -> sdsRecState -> C;
  cg_idle : C -> C
}.

Class ControlGlobalsLaws (C : Type) `{ControlGlobals C} := {
  cg_sds_with c r : cg_sds (cg_with_sds c r) = r;
  cg_idle_sds c : cg_sds (cg_idle c) = cg_sds c
}.

(** ** The ghost log of accepted writes *)

(** The log entry of a write that returned [r] on [id]. *)
Definition log_write (id : option nat) (r : Z) (d : list byte) : list (nat * list byte) :=
  match id with
  | Some i => if 0 <? r then [(i, d)] else []
  | None => []
  end.

(** The bytes the log says stream [i] accepted, in order. *)
Definition logged_bytes (lg : list (nat * list byte)) (i : nat) : list byte :=
  concat (map snd (filter (fun e => e.1 = i) lg)).

Lemma logged_bytes_app lg id r d j :
  logged_bytes (lg ++ log_write id r d) j =
  logged_bytes lg j ++ (if bool_decide (id = Some j) && (0 <? r) then d else []).
Proof.
  unfold logged_bytes. rewrite filter_app, map_app, concat_app. f_equal.
  destruct id as [i|]; simpl; [|done].
  destruct (0 <? r); simpl; [|by rewrite andb_false_r].
  rewrite filter_cons. simpl. destruct (decide (i = j)) as [->|Hne].
  - rewrite bool_decide_eq_true_2 by done. simpl. by rewrite app_nil_r.
  - rewrite bool_decide_eq_false_2 by congruence. done.
Qed.

Lemma logged_bytes_nil j : logged_bytes [] j = [].
Proof. done. Qed.

(** ** Recorder properties kept by the control thread's calls *)

(** A property of the recorder kept by every call a control thread makes
    and by the recorder thread. *)
Definition rec_preserved (P : sdsRecState -> Prop) : Prop :=
  (forall n sz thr s, P s -> P (snd (rec_sdsRecOpen n sz thr s))) /\
  (forall id s, P s -> P (snd (rec_sdsRecClose id s))) /\
  (forall i s, P s -> P (rec_io i s)) /\
  (forall s, P s -> P (snd (rec_sdsRecInit s))).

(** The recorder state [r'] is obtained from [r] by such calls. *)
Definition rec_evolves (r r' : sdsRecState) : Prop :=
  forall P, rec_preserved P -> P r -> P r'.

Lemma rec_evolves_refl r : rec_evolves r r.
Proof. by intros P _ Hp. Qed.

Lemma rec_evolves_open n sz thr r : rec_evolves r (snd (rec_sdsRecOpen n sz thr r)).
Proof. intros P (Ho & _) Hp. by apply Ho. Qed.

Lemma rec_evolves_close id r : rec_evolves r (snd (rec_sdsRecClose id r)).
Proof. intros P (_ & Hc & _) Hp. by apply Hc. Qed.

Lemma rec_evolves_trans r1 r2 r3 : rec_evolves r1 r2 -> rec_evolves r2 r3 -> rec_evolves r1 r3.
Proof. intros H12 H23 P HP Hp. by apply H23, H12. Qed.

#[export] Hint Resolve rec_evolves_refl rec_evolves_open rec_evolves_close : sds.

Lemma rec_inv_preserved : rec_preserved (fun s => rec_wf s /\ rec_fresh s).
Proof.
  split; [|split; [|split]].
  - intros n sz thr s [Hw Hf]. split; [by apply rec_sdsRecOpen_wf|by apply rec_sdsRecOpen_fresh].
  - intros id s [Hw Hf]. split; [by apply rec_sdsRecClose_wf|by apply rec_sdsRecClose_fresh].
  - intros i s [Hw Hf]. split; [by apply rec_io_wf|by apply rec_io_fresh].
  - intros s [Hw Hf]. split; [exact Hw|exact Hf].
Qed.

Lemma rec_bytes_preserved (b : nat -> list byte) :
  rec_preserved (fun s => rec_fresh s /\ forall j, rec_bytes s j = b j).
Proof.
  split; [|split; [|split]].
  - intros n sz thr s [Hf Hb]. split; [by apply rec_sdsRecOpen_fresh|].
    intros j. by rewrite rec_sdsRecOpen_bytes.
  - intros id s [Hf Hb]. split; [by apply rec_sdsRecClose_fresh|].
    intros j. by rewrite rec_sdsRecClose_bytes.
  - intros i s [Hf Hb]. split; [by apply rec_io_fresh|]. intros j. by rewrite rec_io_bytes.
  - intros s [Hf Hb]. split; [exact Hf|exact Hb].
Qed.

(** ** The producer's two steps *)

Section Steps.

Context {C : Type} `{ControlGlobals C}.

Record psys := mk_psys { pctl : C; ppc : prod_pc; plog : list (nat * list byte) }.

(** [if (recActive)]: remember the write to make, or report idleness. *)
Definition prod_check (w : prod_stream) (d : list byte) (S : psys) : psys :=
  if c_true (cg_active (pctl S)) then mk_psys (pctl S) (PWrite w d) (plog S)
  else mk_psys (cg_idle (pctl S)) PIdle (plog S).

(** [sdsRecWrite(recId, d, len)] with the identifier read now, logged when
    the recorder accepts the bytes. *)
Definition prod_write (S : psys) : psys :=
  match ppc S with
  | PIdle => S
  | PWrite w d =>
      let id := cg_id w (pctl S) in
      let '(r, sr) := rec_sdsRecWrite id d (cg_sds (pctl S)) in
      mk_psys (cg_with_sds (pctl S) sr) PIdle (plog S ++ log_write id r d)
  end.

(** A step of the recorder thread on stream [i]. *)
Definition prod_io (i : nat) (S : psys) : psys :=
  mk_psys (cg_with_sds (pctl S) (rec_io i (cg_sds (pctl S)))) (ppc S) (plog S).

End Steps.

Arguments psys : clear implicits.

(** ** The system of a control thread, the producer and the recorder
    thread *)

Section System.

Context {C : Type} `{ControlGlobalsLaws C}.
Variable ctl_step : C -> C -> Prop.
Variable ctl_init : C -> Prop.

Inductive psys_step : psys C -> psys C -> Prop :=
  | PsCtl c c' pp lg : ctl_step c c' -> psys_step (mk_psys c pp lg) (mk_psys c' pp lg)
  | PsIo i S : psys_step S (prod_io i S)
  | PsCheck w d S : ppc S = PIdle -> psys_step S (prod_check w d S)
  | PsWrite w d S : ppc S = PWrite w d -> psys_step S (prod_write S).

Inductive psys_reachable : psys C -> Prop :=
  | psys_reach_init c : ctl_init c -> psys_reachable (mk_psys c PIdle [])
  | psys_reach_step S S' : psys_reachable S -> psys_step S S' -> psys_reachable S'.

(** The recorder invariant and the refinement of the byte streams by the
    ghost log. *)
Definition psys_inv (S : psys C) : Prop :=
  rec_wf (cg_sds (pctl S)) /\ rec_fresh (cg_sds (pctl S)) /\
  forall j, rec_bytes (cg_sds (pctl S)) j = logged_bytes (plog S) j.

Hypothesis ctl_step_evolves : forall c c', ctl_step c c' -> rec_evolves (cg_sds c) (cg_sds c').
Hypothesis ctl_init_empty : forall c, ctl_init c ->
  rec_wf (cg_sds c) /\ rec_fresh (cg_sds c) /\ forall j, rec_bytes (cg_sds c) j = [].

Lemma prod_write_inv (S : psys C) : psys_inv S -> psys_inv (prod_write S).
Proof.
  intros (Hw & Hf & Hb). unfold prod_write. destruct (ppc S) as [|w d]; [done|].
  pose proof (rec_sdsRecWrite_bytes (cg_id w (pctl S)) d (cg_sds (pctl S))) as Hwb.
  pose proof (rec_sdsRecWrite_wf (cg_id w (pctl S)) d _ Hw) as Hww.
  pose proof (rec_sdsRecWrite_fresh (cg_id w (pctl S)) d _ Hf) as Hwf.
  destruct (rec_sdsRecWrite _ _ _) as [r sr]. unfold psys_inv. simpl in *.
  rewrite cg_sds_with. split; [done|split; [done|]]. intros j.
  by rewrite Hwb, logged_bytes_app, Hb.
Qed.

Lemma psys_step_inv S S' : psys_step S S' -> psys_inv S -> psys_inv S'.
Proof.
  intros Hs Hi. destruct Hs as [c c' pp lg Hc|i S|w d S _|w d S _].
  - destruct Hi as (Hw & Hf & Hb). simpl in *.
    destruct (ctl_step_evolves c c' Hc _ rec_inv_preserved (conj Hw Hf)).
    destruct (ctl_step_evolves c c' Hc _ (rec_bytes_preserved (logged_bytes lg)) (conj Hf Hb)).
    unfold psys_inv. simpl. done.
  - destruct Hi as (Hw & Hf & Hb). unfold psys_inv, prod_io. simpl. rewrite cg_sds_with.
    split; [by apply rec_io_wf|split; [by apply rec_io_fresh|]].
    intros j. by rewrite rec_io_bytes.
  - unfold prod_check. destruct (c_true _); [exact Hi|].
    unfold psys_inv. simpl. by rewrite cg_idle_sds.
  - by apply prod_write_inv.
Qed.

Lemma psys_reachable_inv S : psys_reachable S -> psys_inv S.
Proof.
  induction 1 as [c Hc|S S' _ IH Hs]; [|by apply (psys_step_inv S)].
  destruct (ctl_init_empty c Hc) as (Hw & Hf & Hb). unfold psys_inv. simpl.
  split; [done|split; [done|]]. intros j. by rewrite Hb.
Qed.

End System.

Arguments psys_step {C _} ctl_step.
Arguments psys_reachable {C _} ctl_step ctl_init.
