(* ===== verification/Capture.v ===== *)
(** * Capture: the ModelTest capture system

    The ModelTest example runs three contexts around the recorder:
    - the control thread [rec_control] of recorder_sds.c ([rec_tick]) with
      the recorder's callback ([rec_event]), as the step relation
      [model_ctl_step];
    - the producer, the inference loop that tests [recActive] and then
      calls [sdsRecWrite(recId_model_in, ...)] or
      [sdsRecWrite(recId_model_out, ...)] (its code is not under src/; it
      is the producer of [Producer], which sees [rec_control]'s globals
      through the instance [model_globals]);
    - the recorder thread, which serves flush requests ([rec_io]).

    [sys_step] is the system of [Producer] for this control thread, on the
    stream-buffer recorder of [SdsRec]; [sys_reachable] is the set of
    states reachable from [rec_control]'s start-up.  The theorems show
    that every open stream stays within its buffer and that every byte
    [sdsRecWrite] accepted is, in order, in its stream's buffer or I/O
    output; and, by a reachable counterexample, that a block the producer
    decided to write while recording can reach [sdsRecWrite] after the
    stop has closed its stream, since [rec_control] closes the streams
    without waiting for the producer. *)

From S2P Require Import Prelude ErrorLatch SdsRec RecorderSds Producer.
Import SdsRec.StreamBuffer SdsRec.Recorder.

Open Scope Z_scope.
Open Scope sds_scope.

#[local] Existing Instances rec_api rec_laws.

Abbreviation cap_state := (rec_state sdsRecState nat).

(** The two streams of recorder_sds.c and their [sdsRecOpen] arguments. *)
Definition model_stream_config (w : prod_stream) : string * Z * Z :=
  match w with
  | PsIn => ("Model_Input", REC_BUF_SIZE_MODEL_IN, REC_IO_THRESHOLD_MODEL_IN)
  | PsOut => ("Model_Output", REC_BUF_SIZE_MODEL_OUT, REC_IO_THRESHOLD_MODEL_OUT)
  end.

Definition model_id (w : prod_stream) (s : cap_state) : option nat :=
  match w with
  | PsIn => recId_model_in s
  | PsOut => recId_model_out s
  end.

Definition with_sds (s : cap_state) (sr : sdsRecState) : cap_state :=
  mk_rs (btn_prev s) (led0_cnt s) (led0_val s) (recActive s) (recId_model_in s)
    (recId_model_out s) (sds_error s) sr (leds s) (calls s).

(** The globals of recorder_sds.c the producer reads; a producer that
    finds [recActive] cleared does nothing. *)
#[export] Instance model_globals : ControlGlobals cap_state := {|
  cg_active := recActive;
  cg_id := model_id;
  cg_sds := sds;
  cg_with_sds := with_sds;
  cg_idle c := c
|}.

#[export] Instance model_globals_laws : ControlGlobalsLaws cap_state.
Proof. split; done. Qed.

(** The control thread: loop iterations and recorder callbacks. *)
Inductive model_ctl_step : cap_state -> cap_state -> Prop :=
  | ModelTick raw c : model_ctl_step c (rec_tick raw c)
  | ModelEvent id ev c : model_ctl_step c (rec_event id ev c).

Definition model_ctl_init (c : cap_state) : Prop :=
  exists socket leds0, c = rec_control_init socket rec_empty leds0.

Abbreviation system := (psys cap_state).

Definition sys_step : system -> system -> Prop := psys_step model_ctl_step.
Definition sys_reachable : system -> Prop := psys_reachable model_ctl_step model_ctl_init.

(** ** How each step acts on the recorder *)

Lemma sds_rec_start (c : cap_state) :
  sds (rec_start c) =
  snd (rec_sdsRecOpen "Model_Output" REC_BUF_SIZE_MODEL_OUT REC_IO_THRESHOLD_MODEL_OUT
         (snd (rec_sdsRecOpen "Model_Input" REC_BUF_SIZE_MODEL_IN REC_IO_THRESHOLD_MODEL_IN
                 (sds c)))).
Proof.
  unfold rec_start. simpl.
  destruct (rec_sdsRecOpen "Model_Input" _ _ _) as [i s1]. simpl.
  destruct (rec_sdsRecOpen "Model_Output" _ _ _) as [o s2]. done.
Qed.

Lemma sds_rec_stop (c : cap_state) :
  sds (rec_stop c) =
  snd (rec_sdsRecClose (recId_model_out c) (snd (rec_sdsRecClose (recId_model_in c) (sds c)))).
Proof.
  unfold rec_stop. simpl.
  destruct (rec_sdsRecClose (recId_model_in c) _) as [r1 s1]. simpl.
  destruct (rec_sdsRecClose (recId_model_out c) _) as [r2 s2]. done.
Qed.

Lemma sds_rec_tick raw (c : cap_state) :
  sds (rec_tick raw c) = if press_edge (btn_prev c) raw then sds (rec_toggle c) else sds c.
Proof.
  pose proof (rec_tick_core raw c) as Hc.
  destruct (press_edge _ _); by apply rec_core_fields in Hc as (_ & _ & _ & ->).
Qed.

Lemma rec_tick_evolves raw (c : cap_state) : rec_evolves (sds c) (sds (rec_tick raw c)).
Proof.
  rewrite sds_rec_tick. destruct (press_edge _ _); [|apply rec_evolves_refl].
  unfold rec_toggle. destruct (recActive c =? 0); [rewrite sds_rec_start|rewrite sds_rec_stop].
  - eapply rec_evolves_trans; apply rec_evolves_open.
  - eapply rec_evolves_trans; apply rec_evolves_close.
Qed.

Lemma model_ctl_step_evolves c c' : model_ctl_step c c' -> rec_evolves (sds c) (sds c').
Proof. intros []; [apply rec_tick_evolves|apply rec_evolves_refl]. Qed.

Lemma model_ctl_init_empty c : model_ctl_init c ->
  rec_wf (sds c) /\ rec_fresh (sds c) /\ forall j, rec_bytes (sds c) j = [].
Proof.
  intros (socket & leds0 & ->).
  assert (Hs : sds (rec_control_init socket rec_empty leds0) = mk_rec true ∅ 0 ∅)
    by (destruct socket; reflexivity).
  rewrite Hs. split; [|split].
  - intros i st. simpl. by rewrite lookup_empty.
  - intros i. simpl. rewrite !lookup_empty. by intros [[]|[]].
  - intros j. unfold rec_bytes. simpl. by rewrite !lookup_empty.
Qed.

Lemma sys_reachable_inv S : sys_reachable S -> psys_inv S.
Proof.
  apply psys_reachable_inv; [apply model_ctl_step_evolves|apply model_ctl_init_empty].
Qed.

(** ** Properties of the capture system *)

(** C2: in every state the ModelTest system can reach (any interleaving of
    control-loop iterations, recorder callbacks, producer writes and
    recorder-thread flushes), every open stream's fill level is within its
    buffer and its threshold is below its buffer size. *)
Theorem capture_streams_bounded (S : system) (i : nat) (st : sdsStream) :
  sys_reachable S -> rec_streams (sds (pctl S)) !! i = Some st ->
  0 <= st_threshold st < st_size st /\ fill st <= st_size st.
Proof. intros HS Hi. destruct (sys_reachable_inv S HS) as (Hw & _). exact (Hw i st Hi). Qed.

(** C4: no silent loss: in every reachable state, the bytes of every
    stream (buffered and written to the I/O while open, its final output
    once closed) are exactly the data of the producer's writes that
    [sdsRecWrite] accepted for it, in the order of the writes. *)
Theorem capture_no_loss (S : system) (i : nat) :
  sys_reachable S -> rec_bytes (sds (pctl S)) i = logged_bytes (plog S) i.
Proof. intros HS. destruct (sys_reachable_inv S HS) as (_ & _ & Hb). apply Hb. Qed.

Lemma name_in_use_after_open s k n n' sz thr :
  n' <> n -> name_in_use n' s = false ->
  name_in_use n' (mk_rec true (<[k := stream_new n sz thr]> (rec_streams s)) (S k) (rec_closed s))
  = false.
Proof.
  intros Hne Hfree. match goal with |- ?x = false => destruct x eqn:E end; [|reflexivity].
  apply name_in_use_spec in E as [j Hj]. apply rec_open_insert in Hj as [[_ Hm]|[_ Hj]].
  - simpl in Hm. congruence.
  - assert (name_in_use n' s = true) by (apply name_in_use_spec; eauto). congruence.
Qed.

(** C3: the two streams a start opens are fresh buffers with the
    configured sizes and thresholds of recorder_sds.c, and on each of them
    a run of producer writes issues exactly one flush request if it fills
    the buffer to the configured threshold ([REC_IO_THRESHOLD_MODEL_IN],
    [REC_IO_THRESHOLD_MODEL_OUT]) and none before: one request per
    crossing, not per write or per byte. *)
Theorem rec_start_streams_flush_once (c : cap_state) (w : prod_stream) :
  rec_init (sds c) = true ->
  name_in_use "Model_Input" (sds c) = false -> name_in_use "Model_Output" (sds c) = false ->
  let '(n, sz, thr) := model_stream_config w in
  exists i, model_id w (rec_start c) = Some i /\
    rec_streams (sds (rec_start c)) !! i = Some (stream_new n sz thr) /\
    forall ops, forallb is_write ops = true ->
      st_requests (snd (stream_run ops (stream_new n sz thr))) =
      Nat.b2n (thr <=? fill (snd (stream_run ops (stream_new n sz thr)))).
Proof.
  intros Hi Hin Hout. destruct rec_thresholds_ok as [Hti Hto].
  assert (Hout1 := name_in_use_after_open (sds c) (rec_next (sds c)) "Model_Input" "Model_Output"
                     REC_BUF_SIZE_MODEL_IN REC_IO_THRESHOLD_MODEL_IN ltac:(discriminate) Hout).
  unfold rec_start. cbn -[rec_sdsRecOpen stream_run].
  rewrite (rec_sdsRecOpen_ok _ _ _ _ Hi Hin Hti). cbn -[rec_sdsRecOpen stream_run].
  erewrite rec_sdsRecOpen_ok; [|reflexivity|exact Hout1|exact Hto].
  cbn -[stream_run]. set (k := rec_next (sds c)).
  assert (Hreq : forall n sz thr ops, 0 < thr -> forallb is_write ops = true ->
            st_requests (snd (stream_run ops (stream_new n sz thr))) =
            Nat.b2n (thr <=? fill (snd (stream_run ops (stream_new n sz thr))))).
  { intros n sz thr ops Hpos Hw. rewrite stream_writes_one_request by done.
    unfold crossing. replace (fill (stream_new n sz thr)) with 0 by reflexivity.
    change (st_threshold (stream_new n sz thr)) with thr.
    change (st_requests (stream_new n sz thr)) with 0%nat.
    replace (0 <? thr) with true by (symmetry; by apply Z.ltb_lt). reflexivity. }
  destruct w; simpl.
  - exists k. split; [done|]. split.
    + rewrite lookup_insert_ne by lia. by rewrite lookup_insert_eq.
    + intros ops Hw. apply Hreq; [vm_compute; done|done].
  - exists (S k). split; [done|]. split.
    + by rewrite lookup_insert_eq.
    + intros ops Hw. apply Hreq; [vm_compute; done|done].
Qed.

(** An iteration of [rec_control] in the system. *)
Definition sys_tick (raw : Z) (S : system) : system :=
  mk_psys (rec_tick raw (pctl S)) (ppc S) (plog S).

Lemma sys_reach_init socket leds0 :
  sys_reachable (mk_psys (rec_control_init socket rec_empty leds0) PIdle []).
Proof. apply psys_reach_init. by exists socket, leds0. Qed.

Lemma sys_reach_tick raw S : sys_reachable S -> sys_reachable (sys_tick raw S).
Proof. intros HS. destruct S. eapply psys_reach_step; [exact HS|]. apply PsCtl, ModelTick. Qed.

Lemma sys_reach_check w d S : sys_reachable S -> ppc S = PIdle -> sys_reachable (prod_check w d S).
Proof. intros HS Hp. eapply psys_reach_step; [exact HS|]. by apply PsCheck. Qed.

Lemma sys_reach_write w d S :
  sys_reachable S -> ppc S = PWrite w d -> sys_reachable (prod_write S).
Proof. intros HS Hp. eapply psys_reach_step; [exact HS|]. by eapply PsWrite. Qed.

(** C7: the stop of [rec_control] does not wait for the producer: from
    start-up, a press starts recording, the producer finds [recActive]
    set and decides to write a block to "Model_Input", and before its
    [sdsRecWrite] the button is released and pressed again.  The stop
    clears [recActive] and closes the stream at once, so the producer's
    call reaches a closed stream, [sdsRecWrite] fails, and the block is
    in no stream: it is lost without any error being latched. *)
Example model_write_after_close :
  let d := [Byte.x01; Byte.x02] in
  let S := sys_tick 1 (sys_tick 0
             (prod_check PsIn d (sys_tick 1 (mk_psys (rec_control_init None rec_empty 0) PIdle [])))) in
  sys_reachable S /\ ppc S = PWrite PsIn d /\ recActive (pctl S) = 0 /\
  model_id PsIn (pctl S) = Some 0%nat /\ rec_streams (sds (pctl S)) !! 0%nat = None /\
  fst (rec_sdsRecWrite (Some 0%nat) d (sds (pctl S))) = SDS_REC_ERROR /\
  rec_bytes (sds (pctl (prod_write S))) 0%nat = [] /\
  sds_error (pctl (prod_write S)) = sds_error_init.
Proof.
  cbv zeta. split.
  - apply sys_reach_tick, sys_reach_tick, sys_reach_check; [|reflexivity].
    apply sys_reach_tick, sys_reach_init.
  - vm_compute. repeat split.
Qed.

(** Test of the specification's scenario on the ModelTest input stream
    (buffer [REC_BUF_SIZE_MODEL_IN] = 8192, threshold
    [REC_IO_THRESHOLD_MODEL_IN] = 8192 - 512): 7679 bytes issue no flush
    request, one more byte issues exactly one, and a further byte none. *)
Example model_input_threshold_scenario :
  let '(n, sz, thr) := model_stream_config PsIn in
  let st0 := stream_new n sz thr in
  let '(r1, st1) := stream_write (repeat Byte.x00 7679) st0 in
  let '(r2, st2) := stream_write [Byte.x00] st1 in
  let '(r3, st3) := stream_write [Byte.x00] st2 in
  (r1, r2, r3) = (7679, 1, 1) /\
  (st_requests st1, st_requests st2, st_requests st3) = (0%nat, 1%nat, 1%nat).
Proof. vm_compute. split; reflexivity. Qed.

(** ** Witnesses *)

Lemma capture_streams_bounded_witness :
  let S := sys_tick 1 (mk_psys (rec_control_init None rec_empty 0) PIdle []) in
  (sys_reachable S /\
   rec_streams (sds (pctl S)) !! 0%nat = Some (stream_new "Model_Input" 8192 7680)) /\
  fill (stream_new "Model_Input" 8192 7680) <= st_size (stream_new "Model_Input" 8192 7680).
Proof.
  cbv zeta.
  assert (HS := sys_reach_tick 1 _ (sys_reach_init None 0)).
  assert (Hl : rec_streams (sds (pctl (sys_tick 1 (mk_psys (rec_control_init None rec_empty 0)
                 PIdle [])))) !! 0%nat = Some (stream_new "Model_Input" 8192 7680))
    by (vm_compute; reflexivity).
  split; [split; [exact HS|exact Hl]|].
  exact (proj2 (capture_streams_bounded _ _ _ HS Hl)).
Defined.

Lemma capture_no_loss_witness :
  let S := prod_write (prod_check PsIn [Byte.x01; Byte.x02]
             (sys_tick 1 (mk_psys (rec_control_init None rec_empty 0) PIdle []))) in
  sys_reachable S /\ rec_bytes (sds (pctl S)) 0%nat = [Byte.x01; Byte.x02].
Proof.
  cbv zeta.
  assert (HS := sys_reach_write PsIn [Byte.x01; Byte.x02] _
                  (sys_reach_check PsIn [Byte.x01; Byte.x02] _
                     (sys_reach_tick 1 _ (sys_reach_init None 0)) eq_refl) eq_refl).
  split; [exact HS|]. rewrite (capture_no_loss _ _ HS). vm_compute. reflexivity.
Defined.

Lemma rec_start_streams_flush_once_witness :
  let c := rec_control_init None rec_empty 0 in
  (rec_init (sds c) = true /\ name_in_use "Model_Input" (sds c) = false /\
   name_in_use "Model_Output" (sds c) = false) /\
  (let '(n, sz, thr) := model_stream_config PsOut in
   exists i, model_id PsOut (rec_start c) = Some i /\
     rec_streams (sds (rec_start c)) !! i = Some (stream_new n sz thr) /\
     forall ops, forallb is_write ops = true ->
       st_requests (snd (stream_run ops (stream_new n sz thr))) =
       Nat.b2n (thr <=? fill (snd (stream_run ops (stream_new n sz thr))))).
Proof.
  cbv zeta. split; [repeat split; vm_compute; reflexivity|].
  exact (rec_start_streams_flush_once (rec_control_init None rec_empty 0) PsOut
           eq_refl eq_refl eq_refl).
Defined.
