(* ===== verification/CaptureRace.v ===== *)
(** * CaptureRace: the ModelTest start, statement by statement

    [rec_control]'s start branch (recorder_sds.c, lines 108-126) sets
    [recActive = 1U] first and only then opens the two streams.  [Capture]
    runs a loop iteration as one step; here the iteration is cut after
    [recActive = 1U] ([rec_tick_begin]) and the opens, assertions and
    LED are a second step ([rec_start]), so that the producer can run
    between the two.  [rec_tick_split] shows that the two steps run
    back to back are [rec_tick]; [model_write_null_id] shows a reachable
    state of the resulting system in which the producer, having seen
    [recActive] set, calls [sdsRecWrite] with the identifier still
    [NULL]. *)

From S2P Require Import Prelude ErrorLatch SdsRec RecorderSds Producer Capture.
Import SdsRec.StreamBuffer SdsRec.Recorder.

Open Scope Z_scope.
Open Scope sds_scope.

#[local] Existing Instances rec_api rec_laws.

(** The control thread between two statements: [opening] when it has set
    [recActive] and not yet run the opens. *)
Record mctl := mk_mctl { mc : cap_state; opening : bool }.

(** A loop iteration up to [recActive = 1U] when it starts recording, the
    whole iteration otherwise. *)
Definition rec_tick_begin (raw : Z) (s : cap_state) : mctl :=
  let '(cnt, val, l) := led0_step (led0_cnt s, led0_val s, leds s) in
  let btn_val := u8 (vioGetSignal vioBUTTON0 raw) in
  if negb (btn_val =? btn_prev s) && (btn_val =? vioBUTTON0) && (recActive s =? 0) then
    mk_mctl (mk_rs btn_val cnt val 1 (recId_model_in s) (recId_model_out s) (sds_error s)
               (sds s) l (calls s)) true
  else mk_mctl (rec_tick raw s) false.

Inductive mctl_step : mctl -> mctl -> Prop :=
  | MTick raw c : mctl_step (mk_mctl c false) (rec_tick_begin raw c)
  | MOpen c : mctl_step (mk_mctl c true) (mk_mctl (rec_start c) false)
  | MEvent id ev m : mctl_step m (mk_mctl (rec_event id ev (mc m)) (opening m)).

Definition mctl_init (m : mctl) : Prop :=
  opening m = false /\ model_ctl_init (mc m).

#[export] Instance mctl_globals : ControlGlobals mctl := {|
  cg_active m := recActive (mc m);
  cg_id w m := model_id w (mc m);
  cg_sds m := sds (mc m);
  cg_with_sds m r := mk_mctl (with_sds (mc m) r) (opening m);
  cg_idle m := m
|}.

Definition msys_reachable : psys mctl -> Prop := psys_reachable mctl_step mctl_init.

(** The cut is faithful: run back to back, [rec_tick_begin] and the rest
    of the start branch compute [rec_tick] on every input and from every
    state. *)
Lemma rec_tick_split (raw : Z) (s : cap_state) :
  (let m := rec_tick_begin raw s in if opening m then rec_start (mc m) else mc m) =
  rec_tick raw s.
Proof.
  unfold rec_tick_begin, rec_tick. destruct (led0_step _) as [[cnt val] l].
  destruct (u8 _ =? btn_prev s); simpl; [done|].
  destruct (u8 _ =? vioBUTTON0); simpl; [|done].
  destruct (recActive s =? 0); simpl; [|done].
  unfold rec_start. cbn [sdsRecOpen rec_api sds sds_error recId_model_in].
  destruct_lets. done.
Qed.

Lemma msys_reach_init :
  msys_reachable (mk_psys (mk_mctl (rec_control_init None rec_empty 0) false) PIdle []).
Proof. apply psys_reach_init. split; [done|]. by exists None, 0. Qed.

(** C14: [recActive] is raised before the streams are opened: from
    start-up, a press runs [rec_control] up to [recActive = 1U]; the
    producer finds [recActive] set and calls [sdsRecWrite] before
    [sdsRecOpen] has assigned [recId_model_in], which is still [NULL]: the
    call fails with [SDS_REC_ERROR_PARAMETER] and the block is in no
    stream. *)
Example model_write_null_id :
  let d := [Byte.x01; Byte.x02] in
  let S := prod_check PsIn d
             (mk_psys (rec_tick_begin 1 (rec_control_init None rec_empty 0)) PIdle []) in
  msys_reachable S /\ opening (pctl S) = true /\ recActive (mc (pctl S)) = 1 /\
  ppc S = PWrite PsIn d /\ recId_model_in (mc (pctl S)) = None /\
  fst (rec_sdsRecWrite None d (sds (mc (pctl S)))) = SDS_REC_ERROR_PARAMETER /\
  plog (prod_write S) = [] /\
  rec_bytes (sds (mc (pctl (prod_write S)))) 0%nat = [] /\
  sds_error (mc (pctl (prod_write S))) = sds_error_init.
Proof.
  cbv zeta. split.
  - eapply psys_reach_step; [|apply PsCheck; reflexivity].
    eapply psys_reach_step; [exact msys_reach_init|]. apply PsCtl, MTick.
  - vm_compute. repeat split.
Qed.
