(* ===== verification/RecManagement.v ===== *)
(** * RecManagement: the recording control of the TestData variant

    Models [threadRecManagement] of src/Hardware/TestData/rec_management.c.
    It differs from the ModelTest control ([RecorderSds]) in three ways:
    the streams are "DataInput" and "DataOutput"; [recActive] is set only
    after both streams are opened, together with [recDone = 0U]; and the
    stop clears [recActive], then blocks in
    [do { osDelay(10U); } while (recDone == 0U);] until the flag [recDone]
    is set by another context, and only then closes the streams.

    The control thread is a state machine with a program counter
    ([RmLoop]: between two iterations of the [for (;;)] loop, [RmDrain]:
    inside the polling loop).  [rm_step] interleaves its steps with the
    context that sets [recDone] (the data thread, outside src/: it may set
    the flag at any time) and with the recorder's callback; [rm_reachable]
    is the set of states reachable from the thread's start.  The trace of
    recorder calls records the value of [recActive] at each open and the
    value of [recDone] the thread read before each close.

    The heartbeat and the button reading are the ones of [RecorderSds]
    ([led0_step], [btn_level], [press_edge]); the assertion macro
    [REC_ASSERT] (defined outside src/) is the latch [sds_assert] on
    [recError].  Section [Cycle] proves a whole recording session against
    the recorder interface's laws [SdsRecLaws] only. *)

From S2P Require Import Prelude ErrorLatch SdsRec RecorderSds.

Open Scope Z_scope.
Open Scope sds_scope.

Module TestData.

(** ** Configuration of rec_management.c *)

Definition REC_BUF_SIZE_DATA_IN : Z := 8192.
Definition REC_BUF_SIZE_DATA_OUT : Z := 1536.
Definition REC_IO_THRESHOLD_DATA_IN : Z := 7400.
Definition REC_IO_THRESHOLD_DATA_OUT : Z := 1400.

Definition rm_loc (ln : Z) : src_loc := mk_loc "rec_management.c" ln.

(** Where the control thread is. *)
Inductive rm_pc := RmLoop | RmDrain.

(** A recorder call: opens record [recActive] when they are issued, closes
    the value of [recDone] that let the thread out of the polling loop. *)
Inductive rm_call :=
  | RmInit
  | RmOpen (name : string) (active_at_call : Z)
  | RmClose (done_seen : Z).

Definition is_rm_open (c : rm_call) : bool := if c is RmOpen _ _ then true else false.
Definition is_rm_close (c : rm_call) : bool := if c is RmClose _ then true else false.

Section Thread.

Context {St Id : Type} `{SdsRecApi St Id}.

Record rm_state := mk_rm {
  pc : rm_pc;
  btn_prev : Z;
  led0_cnt : Z;
  led0_val : Z;
  recActive : Z;
  recDone : Z;
  recIdDataInput : option Id;
  recIdDataOutput : option Id;
  recError : sds_error_t;
  sds : St;
  leds : Z;
  calls : list rm_call
}.

(** The thread's start-up, before the loop. *)
Definition threadRecManagement_init (socket : option Z) (sds0 : St) (leds0 : Z) : rm_state :=
  let err0 := match socket with
              | Some status => sds_assert (rm_loc 90) (status =? 0) sds_error_init
              | None => sds_error_init
              end in
  let '(status, sds1) := sdsRecInit sds0 in
  let err1 := sds_assert (rm_loc 95) (status =? SDS_REC_OK) err0 in
  mk_rm RmLoop 0 0 0 0 0 None None err1 sds1 leds0 [RmInit].

(** The start branch: open both streams, LED1 on, then [recActive = 1U]
    and [recDone = 0U]. *)
Definition rm_start (s : rm_state) : rm_state :=
  let '(id_in, sds1) := sdsRecOpen "DataInput" REC_BUF_SIZE_DATA_IN
                          REC_IO_THRESHOLD_DATA_IN (sds s) in
  let err1 := sds_assert (rm_loc 117) (bool_decide (is_Some id_in)) (recError s) in
  let '(id_out, sds2) := sdsRecOpen "DataOutput" REC_BUF_SIZE_DATA_OUT
                           REC_IO_THRESHOLD_DATA_OUT sds1 in
  let err2 := sds_assert (rm_loc 124) (bool_decide (is_Some id_out)) err1 in
  mk_rm RmLoop (btn_prev s) (led0_cnt s) (led0_val s) 1 0 id_in id_out err2 sds2
    (vioSetSignal vioLED1 vioLEDon (leds s))
    (calls s ++ [RmOpen "DataInput" (recActive s); RmOpen "DataOutput" (recActive s)]).

(** The stop branch up to the polling loop: [recActive = 0U]. *)
Definition rm_stop_begin (s : rm_state) : rm_state :=
  mk_rm RmDrain (btn_prev s) (led0_cnt s) (led0_val s) 0 (recDone s) (recIdDataInput s)
    (recIdDataOutput s) (recError s) (sds s) (leds s) (calls s).

(** After the polling loop: close both streams, LED1 off, and the
    iteration ends. *)
Definition rm_stop_finish (s : rm_state) : rm_state :=
  let '(st1, sds1) := sdsRecClose (recIdDataInput s) (sds s) in
  let err1 := sds_assert (rm_loc 141) (st1 =? SDS_REC_OK) (recError s) in
  let '(st2, sds2) := sdsRecClose (recIdDataOutput s) sds1 in
  let err2 := sds_assert (rm_loc 145) (st2 =? SDS_REC_OK) err1 in
  mk_rm RmLoop (btn_prev s) (led0_cnt s) (led0_val s) (recActive s) (recDone s)
    (recIdDataInput s) (recIdDataOutput s) err2 sds2 (vioSetSignal vioLED1 vioLEDoff (leds s))
    (calls s ++ [RmClose (recDone s); RmClose (recDone s)]).

(** One iteration of the polling loop: [osDelay(10U)], then the test of
    [recDone]. *)
Definition rm_poll (s : rm_state) : rm_state :=
  if recDone s =? 0 then s else rm_stop_finish s.

(** One iteration of the [for (;;)] loop body up to its end or to the
    polling loop, with the button input at level [raw]. *)
Definition rm_tick (raw : Z) (s : rm_state) : rm_state :=
  let '(cnt, val, l) := led0_step (led0_cnt s, led0_val s, leds s) in
  let btn_val := u8 (vioGetSignal vioBUTTON0 raw) in
  let s1 := mk_rm RmLoop (btn_prev s) cnt val (recActive s) (recDone s) (recIdDataInput s)
              (recIdDataOutput s) (recError s) (sds s) l (calls s) in
  if negb (btn_val =? btn_prev s) then
    let s2 := mk_rm RmLoop btn_val cnt val (recActive s) (recDone s) (recIdDataInput s)
                (recIdDataOutput s) (recError s) (sds s) l (calls s) in
    if btn_val =? vioBUTTON0 then
      (if recActive s =? 0 then rm_start s2 else rm_stop_begin s2)
    else s2
  else s1.

(** The data thread sets [recDone]. *)
Definition rm_set_done (s : rm_state) : rm_state :=
  mk_rm (pc s) (btn_prev s) (led0_cnt s) (led0_val s) (recActive s) 1 (recIdDataInput s)
    (recIdDataOutput s) (recError s) (sds s) (leds s) (calls s).

(** [recorder_event_callback] of rec_management.c. *)
Definition rm_event (id : Id) (event : Z) (s : rm_state) : rm_state :=
  mk_rm (pc s) (btn_prev s) (led0_cnt s) (led0_val s) (recActive s) (recDone s)
    (recIdDataInput s) (recIdDataOutput s)
    (recorder_event_callback (rm_loc 72) id event (recError s)) (sds s) (leds s) (calls s).

Inductive rm_step : rm_state -> rm_state -> Prop :=
  | RmTickStep raw s : pc s = RmLoop -> rm_step s (rm_tick raw s)
  | RmPollStep s : pc s = RmDrain -> rm_step s (rm_poll s)
  | RmDoneStep s : rm_step s (rm_set_done s)
  | RmEventStep id ev s : rm_step s (rm_event id ev s).

Inductive rm_reachable : rm_state -> Prop :=
  | rm_reach_init socket sds0 leds0 :
      rm_reachable (threadRecManagement_init socket sds0 leds0)
  | rm_reach_step s s' : rm_reachable s -> rm_step s s' -> rm_reachable s'.

End Thread.

Arguments rm_state : clear implicits.

(** ** The control flow seen through the program counter, [recActive] and
    the trace *)

Section Properties.

Context {St Id : Type} `{SdsRecApi St Id}.

Definition rm_view (s : rm_state St Id) : rm_pc * Z * list rm_call :=
  (pc s, recActive s, calls s).

Lemma rm_tick_view raw (s : rm_state St Id) :
  rm_view (rm_tick raw s) =
  if press_edge (btn_prev s) raw then
    (if recActive s =? 0
     then (RmLoop, 1, calls s ++ [RmOpen "DataInput" (recActive s); RmOpen "DataOutput" (recActive s)])
     else (RmDrain, 0, calls s))
  else (RmLoop, recActive s, calls s).
Proof.
  unfold rm_tick, press_edge, btn_level. destruct (led0_step _) as [[cnt val] l].
  destruct (u8 _ =? btn_prev s) eqn:E; zbool.
  - rewrite E. destruct (btn_prev s =? vioBUTTON0); done.
  - simpl. destruct (u8 _ =? vioBUTTON0) eqn:E2; zbool; simpl; [|done].
    replace (btn_prev s =? vioBUTTON0) with false by (symmetry; apply Z.eqb_neq; lia).
    simpl. destruct (recActive s =? 0); [|done].
    unfold rm_start. destruct_lets. done.
Qed.

Lemma rm_poll_view (s : rm_state St Id) :
  rm_view (rm_poll s) =
  if recDone s =? 0 then rm_view s
  else (RmLoop, recActive s, calls s ++ [RmClose (recDone s); RmClose (recDone s)]).
Proof.
  unfold rm_poll. destruct (recDone s =? 0); [done|].
  unfold rm_stop_finish. destruct_lets. done.
Qed.

(** The invariant of the control thread. *)
Definition rm_inv (s : rm_state St Id) : Prop :=
  (forall d, In (RmClose d) (calls s) -> d <> 0) /\
  (forall n a, In (RmOpen n a) (calls s) -> a = 0) /\
  ((pc s = RmLoop /\ recActive s = 0 /\
    count_if is_rm_open (calls s) = count_if is_rm_close (calls s)) \/
   (pc s = RmLoop /\ recActive s = 1 /\
    count_if is_rm_open (calls s) = (count_if is_rm_close (calls s) + 2)%nat) \/
   (pc s = RmDrain /\ recActive s = 0 /\
    count_if is_rm_open (calls s) = (count_if is_rm_close (calls s) + 2)%nat)).

Lemma closes_app (l extra : list rm_call) :
  (forall d, In (RmClose d) l -> d <> 0) -> (forall d, In (RmClose d) extra -> d <> 0) ->
  forall d, In (RmClose d) (l ++ extra) -> d <> 0.
Proof. intros H1 H2 d Hd. apply in_app_or in Hd as [Hd|Hd]; auto. Qed.

Lemma opens_app (l extra : list rm_call) :
  (forall n a, In (RmOpen n a) l -> a = 0) -> (forall n a, In (RmOpen n a) extra -> a = 0) ->
  forall n a, In (RmOpen n a) (l ++ extra) -> a = 0.
Proof. intros H1 H2 n a Hn. apply in_app_or in Hn as [Hn|Hn]; eauto. Qed.

Lemma rm_inv_view (s s' : rm_state St Id) :
  rm_view s = rm_view s' -> rm_inv s -> rm_inv s'.
Proof. unfold rm_view, rm_inv. intros [= <- <- <-]. done. Qed.

Lemma rm_inv_tick raw (s : rm_state St Id) :
  pc s = RmLoop -> rm_inv s -> rm_inv (rm_tick raw s).
Proof.
  intros Hpc Hi. pose proof (rm_tick_view raw s) as Hv.
  destruct Hi as (Hc & Ho & Hk). unfold rm_inv, rm_view in *.
  destruct (press_edge _ _); [destruct (recActive s =? 0) eqn:Ea; zbool|];
    injection Hv as -> -> ->.
  - split; [|split].
    + apply closes_app; [done|]. intros d [Hd|[Hd|[]]]; discriminate.
    + apply opens_app; [done|]. intros n a [Hn|[Hn|[]]]; congruence.
    + right; left. split; [done|split; [done|]]. autorewrite with sds_rw. simpl.
      destruct Hk as [(_ & _ & Hk)|[(_ & Ha & _)|(Hd & _)]]; [lia|lia|congruence].
  - split; [done|split; [done|]]. right; right. split; [done|].
    destruct Hk as [(_ & Ha & _)|[(_ & _ & Hk)|(Hd & _)]]; [lia|done|congruence].
  - split; [done|split; [done|]].
    destruct Hk as [(_ & Ha & Hk)|[(_ & Ha & Hk)|(Hd & _)]]; [by left|by right; left|congruence].
Qed.

Lemma rm_inv_poll (s : rm_state St Id) :
  pc s = RmDrain -> rm_inv s -> rm_inv (rm_poll s).
Proof.
  intros Hpc Hi. destruct (recDone s =? 0) eqn:Ed; [unfold rm_poll; by rewrite Ed|]. zbool.
  pose proof (rm_poll_view s) as Hv. rewrite (proj2 (Z.eqb_neq _ _) Ed) in Hv.
  destruct Hi as (Hc & Ho & Hk). unfold rm_inv, rm_view in *. injection Hv as -> -> ->.
  split; [|split].
  - apply closes_app; [done|]. intros d [Hd|[Hd|[]]]; congruence.
  - apply opens_app; [done|]. intros n a [Hn|[Hn|[]]]; discriminate.
  - left. destruct Hk as [(Hl & _)|[(Hl & _)|(_ & Ha & Hk)]]; [congruence|congruence|].
    split; [done|split; [done|]]. autorewrite with sds_rw. simpl. lia.
Qed.

Lemma rm_inv_step (s s' : rm_state St Id) : rm_step s s' -> rm_inv s -> rm_inv s'.
Proof.
  intros Hs. destruct Hs as [raw s Hpc|s Hpc|s|id ev s].
  - by apply rm_inv_tick.
  - by apply rm_inv_poll.
  - by apply rm_inv_view.
  - by apply rm_inv_view.
Qed.

Lemma rm_reachable_inv (s : rm_state St Id) : rm_reachable s -> rm_inv s.
Proof.
  induction 1 as [socket sds0 leds0|s s' _ IH Hs]; [|by apply (rm_inv_step s)].
  unfold threadRecManagement_init. destruct_lets. unfold rm_inv. simpl.
  split; [intros d [Hd|[]]; discriminate|].
  split; [intros n a [Hn|[]]; discriminate|left; done].
Qed.

(** C5: in every reachable state of the TestData control thread
    interleaved with the context that sets [recDone] and the recorder's
    callback, every [sdsRecClose] was issued after the polling loop read
    [recDone] as non-zero: no stream is closed before the drain-complete
    flag. *)
Theorem rm_close_after_done (s : rm_state St Id) (d : Z) :
  rm_reachable s -> In (RmClose d) (calls s) -> d <> 0.
Proof. intros Hr. apply (rm_reachable_inv s Hr). Qed.

Lemma rm_poll_waiting (s : rm_state St Id) : recDone s = 0 -> rm_poll s = s.
Proof. intros Hd. unfold rm_poll. by rewrite Hd. Qed.

(** C17: the polling loop makes no progress while [recDone] is 0 (the
    whole thread, heartbeat included, stalls in it), and leaves it on the
    first poll after [recDone] is set, closing both streams. *)
Theorem rm_drain_exits (s : rm_state St Id) (k : nat) :
  pc s = RmDrain -> recDone s = 0 ->
  Nat.iter k rm_poll s = s /\
  rm_view (rm_poll (rm_set_done (Nat.iter k rm_poll s))) =
    (RmLoop, recActive s, calls s ++ [RmClose 1; RmClose 1]).
Proof.
  intros Hpc Hd.
  assert (Hk : Nat.iter k rm_poll s = s).
  { induction k as [|k IH]; [done|]. rewrite Nat.iter_succ, IH. by apply rm_poll_waiting. }
  split; [exact Hk|]. rewrite Hk, rm_poll_view. done.
Qed.

(** ** The [uint8_t] variables of the thread *)

(** The ranges of the thread's [uint8_t] locals ([btn_prev], [led0_cnt],
    [led0_val]) and globals ([recActive], [recDone]). *)
Definition rm_typed (s : rm_state St Id) : Prop :=
  0 <= led0_cnt s <= 10 /\ (led0_val s = 0 \/ led0_val s = 1) /\
  (btn_prev s = 0 \/ btn_prev s = 1) /\ (recActive s = 0 \/ recActive s = 1) /\
  (recDone s = 0 \/ recDone s = 1).

(** The fields of a tick other than the recorder and the trace. *)
Lemma rm_tick_fields raw (s : rm_state St Id) :
  (led0_cnt (rm_tick raw s), led0_val (rm_tick raw s)) =
    (let '(c, v, _) := led0_step (led0_cnt s, led0_val s, leds s) in (c, v)) /\
  btn_prev (rm_tick raw s) = btn_level raw /\
  ((recActive (rm_tick raw s), recDone (rm_tick raw s)) = (recActive s, recDone s) \/
   (recActive (rm_tick raw s), recDone (rm_tick raw s)) = (1, 0) \/
   (recActive (rm_tick raw s), recDone (rm_tick raw s)) = (0, recDone s)).
Proof.
  unfold rm_tick, btn_level. destruct (led0_step _) as [[cnt val] l].
  destruct (u8 _ =? btn_prev s) eqn:E; simpl; [zbool; rewrite E; auto|].
  destruct (u8 _ =? vioBUTTON0); simpl; [|auto].
  destruct (recActive s =? 0); unfold rm_start, rm_stop_begin; destruct_lets; simpl; auto.
Qed.

Lemma rm_typed_step (s s' : rm_state St Id) : rm_step s s' -> rm_typed s -> rm_typed s'.
Proof.
  intros Hs (Hc & Hv & Hb & Ha & Hd). destruct Hs as [raw s _|s _|s|id ev s].
  - destruct (rm_tick_fields raw s) as (Hl & Hbtn & Hrd).
    pose proof (led0_step_bounded _ _ (leds s) Hc Hv) as Hlb.
    destruct (led0_step _) as [[c' v'] l']. unfold rm_typed.
    injection Hl as -> ->. rewrite Hbtn.
    destruct Hlb as [Hc' Hv'].
    destruct Hrd as [[= -> ->]|[[= -> ->]|[= -> ->]]];
      (split; [exact Hc'|split; [exact Hv'|split; [apply btn_level_range|]]]); auto.
  - unfold rm_poll. destruct (recDone s =? 0); [unfold rm_typed; tauto|].
    unfold rm_stop_finish. destruct_lets. unfold rm_typed. simpl. tauto.
  - unfold rm_typed. simpl. tauto.
  - unfold rm_typed. simpl. tauto.
Qed.

(** C25: in every reachable state, every [uint8_t] variable of the thread
    holds a value of its type, in fact of its intended range: the
    heartbeat counter within [0..10], the LED0 value, the previous button
    level and the flags [recActive] and [recDone] 0 or 1. *)
Theorem rm_reachable_typed (s : rm_state St Id) : rm_reachable s -> rm_typed s.
Proof.
  induction 1 as [socket sds0 leds0|s s' _ IH Hs]; [|by apply (rm_typed_step s)].
  unfold threadRecManagement_init. destruct_lets. unfold rm_typed. simpl. lia.
Qed.

End Properties.

(** ** A recording session against the recorder's laws *)

Section Cycle.

Context {St Id : Type} `{SdsRecApi St Id}.
Context (ready : St -> Prop) (opn : St -> Id -> string -> Prop).
Context `{!SdsRecLaws St Id ready opn}.

(** The part of the state a session acts on. *)
Definition rm_core (s : rm_state St Id) :=
  (pc s, recActive s, recDone s, recIdDataInput s, recIdDataOutput s, recError s, sds s, calls s).

Lemma rm_start_core (s s' : rm_state St Id) :
  recActive s = recActive s' -> recError s = recError s' -> sds s = sds s' -> calls s = calls s' ->
  rm_core (rm_start s) = rm_core (rm_start s').
Proof.
  intros Ha He Hs Hc. unfold rm_start, rm_core. rewrite Ha, He, Hs, Hc.
  destruct (sdsRecOpen "DataInput" _ _ _) as [id_in s1].
  destruct (sdsRecOpen "DataOutput" _ _ s1). reflexivity.
Qed.

Lemma rm_tick_core raw (s : rm_state St Id) :
  rm_core (rm_tick raw s) =
  if press_edge (btn_prev s) raw then
    (if recActive s =? 0 then rm_core (rm_start s)
     else (RmDrain, 0, recDone s, recIdDataInput s, recIdDataOutput s, recError s, sds s, calls s))
  else (RmLoop, recActive s, recDone s, recIdDataInput s, recIdDataOutput s, recError s, sds s, calls s).
Proof.
  unfold rm_tick, press_edge, btn_level. destruct (led0_step _) as [[cnt val] l].
  destruct (u8 _ =? btn_prev s) eqn:E; zbool.
  - rewrite E. destruct (btn_prev s =? vioBUTTON0); done.
  - simpl. destruct (u8 _ =? vioBUTTON0) eqn:E2; zbool; simpl; [|done].
    replace (btn_prev s =? vioBUTTON0) with false by (symmetry; apply Z.eqb_neq; lia).
    simpl. destruct (recActive s =? 0); [|done]. by apply rm_start_core.
Qed.

Lemma rm_start_spec (s : rm_state St Id) :
  ready (sds s) ->
  (forall i, ~ opn (sds s) i "DataInput") -> (forall i, ~ opn (sds s) i "DataOutput") ->
  exists i o,
    recIdDataInput (rm_start s) = Some i /\ recIdDataOutput (rm_start s) = Some o /\
    recActive (rm_start s) = 1 /\ recDone (rm_start s) = 0 /\
    recError (rm_start s) = recError s /\ ready (sds (rm_start s)) /\
    calls (rm_start s) = calls s ++ [RmOpen "DataInput" (recActive s); RmOpen "DataOutput" (recActive s)] /\
    (forall j m, opn (sds (rm_start s)) j m <->
       (j = o /\ m = "DataOutput") \/ (j = i /\ m = "DataInput") \/ opn (sds s) j m).
Proof.
  intros Hr Hi Ho.
  assert (Hti : 0 <= REC_IO_THRESHOLD_DATA_IN < REC_BUF_SIZE_DATA_IN) by (vm_compute; split; done).
  assert (Hto : 0 <= REC_IO_THRESHOLD_DATA_OUT < REC_BUF_SIZE_DATA_OUT) by (vm_compute; split; done).
  destruct (sr_open_fresh _ _ _ _ Hr Hi Hti) as (i & s1 & Hop1 & Hr1 & Ht1).
  assert (Ho1 : forall j, ~ opn s1 j "DataOutput").
  { intros j Hj. apply Ht1 in Hj as [[_ ?]|Hj]; [done|by apply (Ho j)]. }
  destruct (sr_open_fresh _ _ _ _ Hr1 Ho1 Hto) as (o & s2 & Hop2 & Hr2 & Ht2).
  unfold rm_start. rewrite Hop1. cbn. rewrite Hop2. cbn.
  exists i, o. do 6 (split; [done|]). split; [done|].
  intros j m. rewrite Ht2, Ht1. done.
Qed.

Lemma rm_stop_finish_spec (s : rm_state St Id) i o :
  ready (sds s) -> recIdDataInput s = Some i -> recIdDataOutput s = Some o -> i <> o ->
  opn (sds s) i "DataInput" -> opn (sds s) o "DataOutput" ->
  pc (rm_stop_finish s) = RmLoop /\ recActive (rm_stop_finish s) = recActive s /\
  recError (rm_stop_finish s) = recError s /\ ready (sds (rm_stop_finish s)) /\
  calls (rm_stop_finish s) = calls s ++ [RmClose (recDone s); RmClose (recDone s)] /\
  (forall j m, opn (sds (rm_stop_finish s)) j m <-> j <> o /\ j <> i /\ opn (sds s) j m).
Proof.
  intros Hr Hin Hout Hne Hoi Hoo.
  destruct (sr_close_open _ _ _ Hr Hoi) as (s1 & Hc1 & Hr1 & Ht1).
  assert (Hoo1 : opn s1 o "DataOutput") by (apply Ht1; done).
  destruct (sr_close_open _ _ _ Hr1 Hoo1) as (s2 & Hc2 & Hr2 & Ht2).
  unfold rm_stop_finish. rewrite Hin, Hc1. cbn. rewrite Hout, Hc2. cbn.
  do 5 (split; [done|]). intros j m. rewrite Ht2, Ht1. done.
Qed.

(** Opening two fresh names and closing both identifiers leaves the table
    of open streams as it was. *)
Lemma opn_session_restores (s0 s1 s2 : St) i o n1 n2 :
  (forall j, ~ opn s0 j n1) -> (forall j, ~ opn s0 j n2) ->
  (forall j m, opn s1 j m <-> (j = o /\ m = n2) \/ (j = i /\ m = n1) \/ opn s0 j m) ->
  (forall j m, opn s2 j m <-> j <> o /\ j <> i /\ opn s1 j m) ->
  forall j m, opn s2 j m <-> opn s0 j m.
Proof.
  intros H1 H2 Ht1 Ht2 j m. rewrite Ht2, Ht1. split.
  - intros (Hjo & Hji & [[? _]|[[? _]|Hj]]); done.
  - intros Hj. split; [|split; [|by right; right]]; intros ->.
    + assert (m = n2) as -> by (apply (sr_open_unique s1 o); apply Ht1; [by right; right|by left]).
      by apply (H2 o).
    + assert (m = n1) as -> by (apply (sr_open_unique s1 i); apply Ht1; [by right; right|by right; left]).
      by apply (H1 i).
Qed.

Lemma rm_start_loop (s : rm_state St Id) : pc (rm_start s) = RmLoop /\ recActive (rm_start s) = 1.
Proof. unfold rm_start. by destruct_lets. Qed.

(** Pressed, released, pressed from idle: the start, then the stop up to
    the polling loop. *)
Lemma rm_press_release_press_core (s : rm_state St Id) :
  btn_prev s = 0 -> recActive s = 0 ->
  rm_core (rm_tick 1 (rm_tick 0 (rm_tick 1 s))) =
  (RmDrain, 0, recDone (rm_start s), recIdDataInput (rm_start s), recIdDataOutput (rm_start s),
   recError (rm_start s), sds (rm_start s), calls (rm_start s)).
Proof.
  intros Hb Ha. destruct (rm_start_loop s) as [Hp1 Ha1].
  pose proof (rm_tick_core 1 s) as C1. rewrite Hb, Ha in C1. change (press_edge 0 1) with true in C1.
  pose proof (proj1 (proj2 (rm_tick_fields 1 s))) as B1. change (btn_level 1) with 1 in B1.
  pose proof (rm_tick_core 0 (rm_tick 1 s)) as C2. rewrite B1 in C2.
  change (press_edge 1 0) with false in C2.
  pose proof (proj1 (proj2 (rm_tick_fields 0 (rm_tick 1 s)))) as B2. change (btn_level 0) with 0 in B2.
  rewrite rm_tick_core, B2. change (press_edge 0 1) with true. cbv iota.
  unfold rm_core in C1, C2. simpl in C1, C2. injection C2 as _ -> -> -> -> -> -> ->.
  injection C1 as _ -> -> -> -> -> -> ->. by rewrite Ha1.
Qed.

(** C12: on a recorder that satisfies the laws, is ready and has neither
    stream open, an idle thread that sees pressed, released, pressed and
    then polls any number of times before the data thread sets [recDone]
    completes one recording session: the opens and the closes succeed,
    the thread ends idle in its main loop, latches no error, and leaves the
    recorder ready with exactly the streams that were open before. *)
Theorem rm_cycle_no_error (s : rm_state St Id) (k : nat) :
  ready (sds s) -> btn_prev s = 0 -> recActive s = 0 ->
  (forall i, ~ opn (sds s) i "DataInput") -> (forall i, ~ opn (sds s) i "DataOutput") ->
  let s' := rm_poll (rm_set_done (Nat.iter k rm_poll (rm_tick 1 (rm_tick 0 (rm_tick 1 s))))) in
  pc s' = RmLoop /\ recActive s' = 0 /\ recError s' = recError s /\ ready (sds s') /\
  calls s' = calls s ++ [RmOpen "DataInput" 0; RmOpen "DataOutput" 0; RmClose 1; RmClose 1] /\
  (forall j m, opn (sds s') j m <-> opn (sds s) j m).
Proof.
  intros Hr Hb Ha Hi Ho. cbv zeta.
  destruct (rm_start_spec s Hr Hi Ho) as (i & o & Hin & Hout & _ & Hd1 & He1 & Hr1 & Hc1 & Ht1).
  assert (Hne : i <> o).
  { intros ->. assert (H1 : opn (sds (rm_start s)) o "DataOutput") by (apply Ht1; by left).
    assert (H2 : opn (sds (rm_start s)) o "DataInput") by (apply Ht1; by right; left).
    pose proof (sr_open_unique _ _ _ _ H1 H2). done. }
  pose proof (rm_press_release_press_core s Hb Ha) as C.
  set (s3 := rm_tick 1 (rm_tick 0 (rm_tick 1 s))) in *.
  unfold rm_core in C. injection C as Hp3 Ha3 Hd3 Hin3 Hout3 He3 Hs3 Hc3.
  assert (Hk : Nat.iter k rm_poll s3 = s3).
  { induction k as [|k IH]; [done|]. rewrite Nat.iter_succ, IH. apply rm_poll_waiting. congruence. }
  rewrite Hk. set (s4 := rm_set_done s3).
  assert (Hp4 : rm_poll s4 = rm_stop_finish s4) by reflexivity. rewrite Hp4.
  assert (Hs4 : sds s4 = sds (rm_start s)) by (unfold s4; simpl; congruence).
  assert (Hin4 : recIdDataInput s4 = Some i) by (unfold s4; simpl; congruence).
  assert (Hout4 : recIdDataOutput s4 = Some o) by (unfold s4; simpl; congruence).
  destruct (rm_stop_finish_spec s4 i o) as (Hp & Ha' & He' & Hr' & Hc' & Ht');
    [by rewrite Hs4|exact Hin4|exact Hout4|exact Hne|rewrite Hs4; apply Ht1; by right; left
    |rewrite Hs4; apply Ht1; by left|].
  rewrite Hs4 in Ht'.
  split; [exact Hp|split; [rewrite Ha'; unfold s4; simpl; congruence|split]].
  - rewrite He'. unfold s4. simpl. congruence.
  - split; [exact Hr'|split].
    + rewrite Hc'. unfold s4. simpl. rewrite Hc3, Hc1, Ha, <- app_assoc. done.
    + apply (opn_session_restores _ _ _ i o "DataInput" "DataOutput" Hi Ho Ht1 Ht').
Qed.


End Cycle.

(** ** A recording session on the stream-buffer recorder *)

#[local] Existing Instances Recorder.rec_api Recorder.rec_laws.

Definition rm_s0 : rm_state Recorder.sdsRecState nat :=
  threadRecManagement_init None Recorder.rec_empty 0.

(** Press, release, press (the thread enters the polling loop), one poll
    before [recDone] is set, [recDone] set, one poll. *)
Definition rm_session : rm_state Recorder.sdsRecState nat :=
  rm_poll (rm_set_done (rm_poll (rm_tick 1 (rm_tick 0 (rm_tick 1 rm_s0))))).

Lemma rm_session_reachable : rm_reachable rm_session.
Proof.
  unfold rm_session.
  eapply rm_reach_step; [|apply RmPollStep; reflexivity].
  eapply rm_reach_step; [|apply RmDoneStep].
  eapply rm_reach_step; [|apply RmPollStep; reflexivity].
  eapply rm_reach_step; [|apply RmTickStep; reflexivity].
  eapply rm_reach_step; [|apply RmTickStep; reflexivity].
  eapply rm_reach_step; [|apply RmTickStep; reflexivity].
  apply rm_reach_init.
Qed.

Lemma rm_close_after_done_witness :
  (rm_reachable rm_session /\ In (RmClose 1) (calls rm_session)) /\ 1 <> 0.
Proof.
  assert (Hin : In (RmClose 1) (calls rm_session)) by (vm_compute; right; right; right; by left).
  split; [split; [exact rm_session_reachable|exact Hin]|].
  exact (rm_close_after_done rm_session 1 rm_session_reachable Hin).
Defined.

Lemma rm_drain_exits_witness :
  let s := rm_tick 1 (rm_tick 0 (rm_tick 1 rm_s0)) in
  (pc s = RmDrain /\ recDone s = 0) /\
  Nat.iter 3 rm_poll s = s.
Proof.
  cbv zeta. split; [split; reflexivity|].
  exact (proj1 (rm_drain_exits (rm_tick 1 (rm_tick 0 (rm_tick 1 rm_s0))) 3 eq_refl eq_refl)).
Defined.

Lemma rm_reachable_typed_witness : rm_reachable rm_session /\ rm_typed rm_session.
Proof. split; [exact rm_session_reachable|exact (rm_reachable_typed _ rm_session_reachable)]. Defined.

Lemma rm_cycle_no_error_witness :
  (Recorder.rec_ready (sds rm_s0) /\ btn_prev rm_s0 = 0 /\ recActive rm_s0 = 0 /\
   (forall i, ~ Recorder.rec_open (sds rm_s0) i "DataInput") /\
   (forall i, ~ Recorder.rec_open (sds rm_s0) i "DataOutput")) /\
  recError (rm_poll (rm_set_done (Nat.iter 2 rm_poll (rm_tick 1 (rm_tick 0 (rm_tick 1 rm_s0))))))
    = recError rm_s0.
Proof.
  assert (Hr : Recorder.rec_ready (sds rm_s0)).
  { split; [reflexivity|]. intros i st Hst. simpl in Hst. by rewrite lookup_empty in Hst. }
  assert (Hf : forall n i, ~ Recorder.rec_open (sds rm_s0) i n).
  { intros n i (st & Hst & _). simpl in Hst. by rewrite lookup_empty in Hst. }
  split; [split; [exact Hr|]; split; [reflexivity|]; split; [reflexivity|]; split; apply Hf|].
  exact (proj1 (proj2 (proj2 (rm_cycle_no_error Recorder.rec_ready Recorder.rec_open rm_s0 2
           Hr eq_refl eq_refl (Hf _) (Hf _))))).
Defined.

End TestData.
