(* ===== verification/ControlSpec.v ===== *)
(** * ControlSpec: the recording controller's specification and the
    refinement of both variants

    Section 4.3 of the specification describes the recording controller
    as a state machine: from [Idle] a button press opens one recording
    session per configured stream and enters [Recording]; from
    [Recording] a press closes every session and returns to [Idle].  Seen
    from the recorder, a run of the controller is a trace of calls
    [sdsRecInit], [sdsRecOpen] and [sdsRecClose].

    [spec_step] is that state machine as an executable automaton over
    recorder events, with the configured stream names as parameters:
    [sdsRecInit] first, then per session an open of the input stream, an
    open of the output stream, and two closes.  The typeclass [CallEvent]
    reads a controller's trace entries as events, with an instance for the
    trace of each variant ([sds_call] of recorder_sds.c, [rm_call] of
    rec_management.c).

    The refinement theorems show that every trace either controller can
    produce is accepted by the automaton, and that the automaton's state is
    the abstraction of the controller's state: [Idle] when the controller
    is idle, [Recording] while it records (and, for TestData, while it
    waits for [recDone] with the sessions still open). *)

From S2P Require Import Prelude ErrorLatch SdsRec RecorderSds RecManagement.

Open Scope Z_scope.
Open Scope sds_scope.

(** ** The specification *)

(** What the recorder sees of the controller. *)
Inductive ctl_event := EvInit | EvOpen (name : string) | EvClose.

(** The states of the specification's controller, with the intermediate
    states between the two opens and between the two closes, and the
    state before [sdsRecInit]. *)
Inductive spec_state := SpecBoot | SpecIdle | SpecOpening | SpecRecording | SpecClosing.

#[export] Instance spec_state_eq_dec : EqDecision spec_state.
Proof. solve_decision. Defined.

Section Spec.

Variables n_in n_out : string.

Definition spec_step (q : spec_state) (e : ctl_event) : option spec_state :=
  match q, e with
  | SpecBoot, EvInit => Some SpecIdle
  | SpecIdle, EvOpen n => if String.eqb n n_in then Some SpecOpening else None
  | SpecOpening, EvOpen n => if String.eqb n n_out then Some SpecRecording else None
  | SpecRecording, EvClose => Some SpecClosing
  | SpecClosing, EvClose => Some SpecIdle
  | _, _ => None
  end.

Fixpoint spec_run (q : spec_state) (es : list ctl_event) : option spec_state :=
  match es with
  | [] => Some q
  | e :: t => spec_step q e ≫= fun q' => spec_run q' t
  end.

Lemma spec_run_app q l1 l2 :
  spec_run q (l1 ++ l2) = spec_run q l1 ≫= fun q' => spec_run q' l2.
Proof.
  revert q. induction l1 as [|e t IH]; intros q; simpl; [done|].
  destruct (spec_step q e); simpl; [apply IH|done].
Qed.

End Spec.

(** Reading a controller's trace entries as recorder events. *)
Class CallEvent (Call : Type) := call_event : Call -> ctl_event.

#[export] Instance sds_call_event : CallEvent sds_call := fun c =>
  match c with CallInit => EvInit | CallOpen n => EvOpen n | CallClose => EvClose end.

#[export] Instance rm_call_event : CallEvent TestData.rm_call := fun c =>
  match c with
  | TestData.RmInit => EvInit
  | TestData.RmOpen n _ => EvOpen n
  | TestData.RmClose _ => EvClose
  end.

Definition trace_of {Call} `{CallEvent Call} (l : list Call) : list ctl_event := map call_event l.

Lemma trace_of_app {Call} `{CallEvent Call} (l1 l2 : list Call) :
  trace_of (l1 ++ l2) = trace_of l1 ++ trace_of l2.
Proof. apply map_app. Qed.

(** The run of a trace extended by [extra] from the state [q] it reached. *)
Lemma spec_run_extend {Call} `{CallEvent Call} n_in n_out (l extra : list Call) q :
  spec_run n_in n_out SpecBoot (trace_of l) = Some q ->
  spec_run n_in n_out SpecBoot (trace_of (l ++ extra)) =
  spec_run n_in n_out q (trace_of extra).
Proof. intros Hq. by rewrite trace_of_app, spec_run_app, Hq. Qed.

(** ** ModelTest: [rec_control] *)

Section ModelTest.

Context {St Id : Type} `{SdsRecApi St Id}.

Definition model_abs (s : rec_state St Id) : spec_state :=
  if recActive s =? 0 then SpecIdle else SpecRecording.

Definition model_refines (s : rec_state St Id) : Prop :=
  rec_balanced s /\
  spec_run "Model_Input" "Model_Output" SpecBoot (trace_of (calls s)) = Some (model_abs s).

Lemma model_refines_toggle (s : rec_state St Id) :
  model_refines s -> model_refines (rec_toggle s).
Proof.
  intros [Hb Hr]. split; [by apply rec_toggle_balanced|].
  unfold model_abs, rec_toggle in *.
  destruct Hb as [[Ha _]|[Ha _]]; rewrite Ha in Hr |- *; simpl in Hr.
  - change (0 =? 0) with true. cbv iota.
    destruct (rec_start_calls s) as [-> ->]. rewrite (spec_run_extend _ _ _ _ _ Hr). done.
  - change (1 =? 0) with false. cbv iota.
    destruct (rec_stop_calls s) as [-> ->]. rewrite (spec_run_extend _ _ _ _ _ Hr). done.
Qed.

Lemma model_refines_step i (s : rec_state St Id) :
  model_refines s -> model_refines (rec_step i s).
Proof.
  intros Hs. destruct i as [raw|id ev]; simpl; [|done].
  pose proof (rec_tick_core raw s) as Hc. pose proof (rec_step_balanced (InTick raw) s (proj1 Hs)) as Hb.
  simpl in Hb. split; [exact Hb|].
  destruct (press_edge (btn_prev s) raw).
  - apply rec_core_fields in Hc as (Ha & Hcl & _). unfold model_abs. rewrite Ha, Hcl.
    apply model_refines_toggle, Hs.
  - apply rec_core_fields in Hc as (Ha & Hcl & _). unfold model_abs. rewrite Ha, Hcl.
    apply Hs.
Qed.

(** C9: [rec_control] refines the specification's controller: in every
    run (loop iterations and recorder callbacks, in any order and number),
    the recorder calls so far are a trace of the specification's state
    machine for the streams "Model_Input" and "Model_Output", [sdsRecInit]
    then sessions of an open of each stream in that order and two closes,
    and the machine is [Idle] exactly when [recActive] is 0, [Recording]
    otherwise. *)
Theorem rec_run_refines_spec (socket : option Z) (sds0 : St) (leds0 : Z)
  (ins : list (@rec_input Id)) :
  let s := rec_run ins (rec_control_init socket sds0 leds0) in
  spec_run "Model_Input" "Model_Output" SpecBoot (trace_of (calls s)) = Some (model_abs s).
Proof.
  assert (H0 : model_refines (rec_control_init socket sds0 leds0)).
  { unfold rec_control_init. destruct_lets. split; [by left|done]. }
  cbv zeta. enough (model_refines (rec_run ins (rec_control_init socket sds0 leds0))) as [_ Hr]
    by exact Hr.
  revert H0. generalize (rec_control_init socket sds0 leds0).
  induction ins as [|i t IH]; intros s Hs; simpl; [done|].
  by apply IH, model_refines_step.
Qed.

End ModelTest.

(** ** TestData: [threadRecManagement] *)

Import RecManagement.TestData.

Section TestData.

Context {St Id : Type} `{SdsRecApi St Id}.

(** The specification's state of a view [(pc, recActive, calls)]: the
    polling loop belongs to [Recording], whose sessions are still open. *)
Definition data_abs (v : rm_pc * Z * list rm_call) : spec_state :=
  let '(p, a, _) := v in
  match p with
  | RmLoop => if a =? 0 then SpecIdle else SpecRecording
  | RmDrain => SpecRecording
  end.

Definition data_refines (v : rm_pc * Z * list rm_call) : Prop :=
  spec_run "DataInput" "DataOutput" SpecBoot (trace_of v.2) = Some (data_abs v).

Lemma data_refines_step (s s' : rm_state St Id) :
  rm_step s s' -> rm_inv s -> data_refines (rm_view s) -> data_refines (rm_view s').
Proof.
  intros Hs Hi Hr. destruct Hs as [raw s Hpc|s Hpc|s|id ev s]; [| |done|done].
  - rewrite rm_tick_view. unfold data_refines, rm_view in *. simpl in Hr. rewrite Hpc in Hr.
    destruct (press_edge _ _); [destruct (recActive s =? 0) eqn:Ea|]; simpl; [|done|done].
    rewrite (spec_run_extend _ _ _ _ _ Hr). done.
  - rewrite rm_poll_view. destruct (recDone s =? 0); [exact Hr|].
    destruct Hi as (_ & _ & [(Hl & _)|[(Hl & _)|(_ & Ha & _)]]); [congruence|congruence|].
    unfold data_refines, rm_view in *. simpl in Hr. rewrite Hpc in Hr. simpl.
    rewrite (spec_run_extend _ _ _ _ _ Hr), Ha. done.
Qed.

(** C10: [threadRecManagement] refines the specification's controller: in
    every reachable state (interleaved with the context that sets
    [recDone] and the recorder callback), the recorder calls so far are a
    trace of the specification's state machine for the streams
    "DataInput" and "DataOutput", and the machine is [Idle] exactly when
    the thread loops with [recActive] 0, [Recording] while it records or
    waits in the polling loop. *)
Theorem rm_reachable_refines_spec (s : rm_state St Id) :
  rm_reachable s ->
  spec_run "DataInput" "DataOutput" SpecBoot (trace_of (calls s)) =
    Some (data_abs (pc s, recActive s, calls s)).
Proof.
  intros Hr. enough (rm_inv s /\ data_refines (rm_view s)) as [_ Hd] by exact Hd.
  induction Hr as [socket sds0 leds0|s s' Hr [Hi Hd] Hs].
  - split; [|unfold threadRecManagement_init; by destruct_lets].
    unfold threadRecManagement_init. destruct_lets. unfold rm_inv. simpl.
    split; [intros d [Hd|[]]; discriminate|].
    split; [intros n a [Hn|[]]; discriminate|left; done].
  - split; [by apply (rm_inv_step s)|by apply (data_refines_step s)].
Qed.

End TestData.

(** ** Witness *)

#[local] Existing Instances Recorder.rec_api.

Lemma rm_reachable_refines_spec_witness :
  rm_reachable rm_session /\
  spec_run "DataInput" "DataOutput" SpecBoot (trace_of (calls rm_session)) = Some SpecIdle.
Proof.
  split; [exact rm_session_reachable|].
  rewrite (rm_reachable_refines_spec _ rm_session_reachable). vm_compute. reflexivity.
Defined.
