(* ===== verification/DataCapture.v ===== *)
(** * DataCapture: the TestData capture system

    The TestData control thread [threadRecManagement] of
    src/Hardware/TestData/rec_management.c ([RecManagement]) with the data
    thread of [Producer] and the recorder thread, on the stream-buffer
    recorder.  The data thread sees the thread's globals through the
    instance [data_globals]: [recActive], [recIdDataInput],
    [recIdDataOutput]; when it finds [recActive] cleared it sets [recDone]
    ([rm_set_done]), the flag the control thread's polling loop waits for.
    Here the data thread is the only context that sets [recDone]: the
    control thread's own steps are [data_ctl_step] (loop iterations from
    the main loop, polls from the polling loop, recorder callbacks).

    The theorems show, by an invariant of the composed system
    ([dc_inv]): every block the data thread decided to write while
    recording reaches a stream that is still open, and is appended to it
    in full unless its buffer lacks room (contrast [Capture]'s
    [model_write_after_close]); the accepted bytes are never lost; and the
    stop sequence always completes: from any reachable state in the
    polling loop, the data thread's pending write, its report of
    idleness and one poll bring the control thread back to its main loop
    with both streams closed. *)

From S2P Require Import Prelude ErrorLatch SdsRec RecorderSds Producer RecManagement.
Import SdsRec.StreamBuffer SdsRec.Recorder RecManagement.TestData.

Open Scope Z_scope.
Open Scope sds_scope.

#[local] Existing Instances rec_api rec_laws.

Abbreviation dc_ctl := (rm_state sdsRecState nat).

Definition data_id (w : prod_stream) (s : dc_ctl) : option nat :=
  match w with
  | PsIn => recIdDataInput s
  | PsOut => recIdDataOutput s
  end.

Definition rm_with_sds (s : dc_ctl) (sr : sdsRecState) : dc_ctl :=
  mk_rm (pc s) (btn_prev s) (led0_cnt s) (led0_val s) (recActive s) (recDone s)
    (recIdDataInput s) (recIdDataOutput s) (recError s) sr (leds s) (calls s).

(** The globals of rec_management.c the data thread reads and writes. *)
#[export] Instance data_globals : ControlGlobals dc_ctl := {|
  cg_active := recActive;
  cg_id := data_id;
  cg_sds := sds;
  cg_with_sds := rm_with_sds;
  cg_idle := rm_set_done
|}.

#[export] Instance data_globals_laws : ControlGlobalsLaws dc_ctl.
Proof. split; done. Qed.

(** The control thread's own steps. *)
Inductive data_ctl_step : dc_ctl -> dc_ctl -> Prop :=
  | DataTick raw s : pc s = RmLoop -> data_ctl_step s (rm_tick raw s)
  | DataPoll s : pc s = RmDrain -> data_ctl_step s (rm_poll s)
  | DataEvent id ev s : data_ctl_step s (rm_event id ev s).

Definition data_ctl_init (s : dc_ctl) : Prop :=
  exists socket leds0, s = threadRecManagement_init socket rec_empty leds0.

Abbreviation dsys := (psys dc_ctl).

Definition dsys_step : dsys -> dsys -> Prop := psys_step data_ctl_step.
Definition dsys_reachable : dsys -> Prop := psys_reachable data_ctl_step data_ctl_init.

(** ** The recorder under the control thread's calls *)

Lemma rec_sdsRecOpen_keeps n sz thr s i :
  is_Some (rec_streams s !! i) -> is_Some (rec_streams (snd (rec_sdsRecOpen n sz thr s)) !! i).
Proof.
  intros Hi. destruct (rec_sdsRecOpen_cases n sz thr s) as [->|(_ & _ & ->)]; [done|].
  simpl. destruct (decide (i = rec_next s)) as [->|Hne].
  - by rewrite lookup_insert_eq.
  - by rewrite lookup_insert_ne.
Qed.

Lemma rec_sdsRecOpen_opened n sz thr s i :
  fst (rec_sdsRecOpen n sz thr s) = Some i -> is_Some (rec_streams (snd (rec_sdsRecOpen n sz thr s)) !! i).
Proof.
  destruct (rec_sdsRecOpen_cases n sz thr s) as [->|(_ & _ & ->)]; [done|].
  simpl. intros [= <-]. by rewrite lookup_insert_eq.
Qed.

Lemma rec_sdsRecWrite_keeps id d s i :
  is_Some (rec_streams s !! i) -> is_Some (rec_streams (snd (rec_sdsRecWrite id d s)) !! i).
Proof.
  intros Hi. unfold rec_sdsRecWrite. destruct id as [j|]; [|done].
  destruct (rec_streams s !! j) as [st|]; [|done]. destruct (stream_write d st). simpl.
  destruct (decide (i = j)) as [->|Hne]; [by rewrite lookup_insert_eq|by rewrite lookup_insert_ne].
Qed.

Lemma rec_io_keeps j s i : is_Some (rec_streams s !! i) -> is_Some (rec_streams (rec_io j s) !! i).
Proof. intros Hi. unfold rec_io. simpl. by rewrite lookup_alter_is_Some. Qed.

(** ** What the control thread's steps do to the shared globals *)

(** The globals the composed system depends on. *)
Definition rm_gview (s : dc_ctl) :=
  (pc s, recActive s, recDone s, recIdDataInput s, recIdDataOutput s, sds s).

Lemma rm_tick_gview raw (s : dc_ctl) :
  rm_gview (rm_tick raw s) =
  if press_edge (btn_prev s) raw then
    (if recActive s =? 0 then rm_gview (rm_start s)
     else (RmDrain, 0, recDone s, recIdDataInput s, recIdDataOutput s, sds s))
  else (RmLoop, recActive s, recDone s, recIdDataInput s, recIdDataOutput s, sds s).
Proof.
  pose proof (rm_tick_core raw s) as C. unfold rm_core, rm_gview in *.
  destruct (press_edge _ _); [destruct (recActive s =? 0)|];
    injection C as -> -> -> -> -> _ -> _; reflexivity.
Qed.

Lemma rm_start_gview (s : dc_ctl) :
  pc (rm_start s) = RmLoop /\ recActive (rm_start s) = 1 /\ recDone (rm_start s) = 0 /\
  forall w i, data_id w (rm_start s) = Some i -> is_Some (rec_streams (sds (rm_start s)) !! i).
Proof.
  unfold rm_start. cbn [sdsRecOpen rec_api].
  pose proof (rec_sdsRecOpen_opened "DataInput" REC_BUF_SIZE_DATA_IN REC_IO_THRESHOLD_DATA_IN (sds s))
    as Hin.
  destruct (rec_sdsRecOpen "DataInput" _ _ _) as [id_in s1]. simpl in Hin.
  pose proof (rec_sdsRecOpen_opened "DataOutput" REC_BUF_SIZE_DATA_OUT REC_IO_THRESHOLD_DATA_OUT s1)
    as Hout.
  pose proof (rec_sdsRecOpen_keeps "DataOutput" REC_BUF_SIZE_DATA_OUT REC_IO_THRESHOLD_DATA_OUT s1)
    as Hk.
  destruct (rec_sdsRecOpen "DataOutput" _ _ _) as [id_out s2]. simpl in *.
  split; [done|split; [done|split; [done|]]].
  intros [|] i Hi; simpl in Hi; [apply Hk, Hin, Hi|apply Hout, Hi].
Qed.

(** ** The invariant of the composed system *)

(** On the shared globals [(pc, recActive, recDone, recIdDataInput,
    recIdDataOutput, recorder)] and the data thread's position: while
    recording, [recDone] is 0; during a session (recording, or waiting for
    [recDone]) both identifiers that were assigned name open streams; a
    pending write finds [recDone] 0 and the session not over. *)
Definition gv_inv (g : rm_pc * Z * Z * option nat * option nat * sdsRecState) (pp : prod_pc)
  : Prop :=
  let '(p, a, d, iin, iout, sr) := g in
  (a = 1 -> d = 0) /\
  ((a = 1 \/ p = RmDrain) ->
   forall i, iin = Some i \/ iout = Some i -> is_Some (rec_streams sr !! i)) /\
  (forall w blk, pp = PWrite w blk -> d = 0 /\ (a = 1 \/ p = RmDrain)).

Definition dc_inv (S : dsys) : Prop := rm_inv (pctl S) /\ gv_inv (rm_gview (pctl S)) (ppc S).

Lemma rm_inv_active (s : dc_ctl) : rm_inv s -> recActive s = 0 \/ recActive s = 1.
Proof. intros (_ & _ & [(_ & -> & _)|[(_ & -> & _)|(_ & -> & _)]]); auto. Qed.

Lemma rm_inv_drain (s : dc_ctl) : rm_inv s -> pc s = RmDrain -> recActive s = 0.
Proof. intros (_ & _ & [(Hl & _)|[(Hl & _)|(_ & Ha & _)]]) Hd; congruence. Qed.

Lemma rm_inv_loop (s : dc_ctl) : rm_inv s -> pc s = RmLoop -> recActive s = 0 \/ recActive s = 1.
Proof. intros Hi _. by apply rm_inv_active. Qed.

Lemma dc_inv_tick raw (S : dsys) :
  pc (pctl S) = RmLoop -> dc_inv S -> dc_inv (mk_psys (rm_tick raw (pctl S)) (ppc S) (plog S)).
Proof.
  intros Hpc (Hi & Hg). split; [by apply rm_inv_tick|]. cbn [pctl ppc].
  rewrite rm_tick_gview. unfold rm_gview in Hg.
  destruct (press_edge _ _); [destruct (recActive (pctl S) =? 0) eqn:Ea; zbool|].
  - destruct (rm_start_gview (pctl S)) as (Hp1 & Ha1 & Hd1 & Hids1). destruct Hg as (_ & _ & Hpend).
    unfold rm_gview. rewrite Hp1, Ha1, Hd1. split; [done|split].
    + intros _ i [Hin|Hout]; [apply (Hids1 PsIn), Hin|apply (Hids1 PsOut), Hout].
    + intros w d Hw. destruct (Hpend w d Hw) as [_ [Ha|Hd]]; congruence.
  - destruct Hg as (Had & Hids & Hpend). split; [discriminate|split].
    + intros _. apply Hids. destruct (rm_inv_active _ Hi); [done|by left].
    + intros w d Hw. split; [by apply (Hpend w d Hw)|by right].
  - destruct Hg as (Had & Hids & Hpend). split; [done|split].
    + intros [Ha|Hd]; [by apply Hids; left|discriminate].
    + intros w d Hw. destruct (Hpend w d Hw) as [Hd [Ha|Hd']]; [by split; [|left]|congruence].
Qed.

Lemma dc_inv_poll (S : dsys) :
  pc (pctl S) = RmDrain -> dc_inv S -> dc_inv (mk_psys (rm_poll (pctl S)) (ppc S) (plog S)).
Proof.
  intros Hpc HI. destruct (recDone (pctl S) =? 0) eqn:Ed.
  - unfold rm_poll. rewrite Ed. by destruct S.
  - destruct HI as (Hi & Hg). zbool. split; [by apply rm_inv_poll|].
    pose proof (rm_inv_drain _ Hi Hpc) as Ha0. unfold rm_gview in *. cbn [pctl ppc].
    unfold rm_poll. rewrite (proj2 (Z.eqb_neq _ _) Ed).
    unfold rm_stop_finish. destruct_lets. cbn [pc recActive recDone recIdDataInput
      recIdDataOutput sds]. destruct Hg as (_ & _ & Hpend).
    split; [congruence|split].
    + intros [Ha|Hd]; congruence.
    + intros w d Hw. destruct (Hpend w d Hw) as [Hd _]. congruence.
Qed.

(** A step that keeps the globals, or changes only the recorder by calls
    that keep every open stream open. *)
Lemma dc_inv_sds (S : dsys) (f : sdsRecState -> sdsRecState) pp :
  (forall i, is_Some (rec_streams (sds (pctl S)) !! i) -> is_Some (rec_streams (f (sds (pctl S))) !! i)) ->
  (forall w d, pp = PWrite w d -> ppc S = PWrite w d) ->
  dc_inv S -> dc_inv (mk_psys (rm_with_sds (pctl S) (f (sds (pctl S)))) pp (plog S)).
Proof.
  intros Hk Hp (Hi & Had & Hids & Hpend). split; [by apply (rm_inv_view (pctl S))|].
  cbn [pctl ppc]. unfold rm_gview, rm_with_sds in *.
  cbn [pc recActive recDone recIdDataInput recIdDataOutput sds].
  split; [done|split].
  - intros Hs i Hin. by apply Hk, Hids.
  - intros w d Hw. by apply (Hpend w d), Hp.
Qed.

Lemma dc_inv_step S S' : dsys_step S S' -> dc_inv S -> dc_inv S'.
Proof.
  intros Hs HI. destruct Hs as [c c' pp lg Hc|i S|w d S Hp|w d S Hp].
  - destruct Hc as [raw s Hpc|s Hpc|id ev s].
    + exact (dc_inv_tick raw (mk_psys s pp lg) Hpc HI).
    + exact (dc_inv_poll (mk_psys s pp lg) Hpc HI).
    + destruct HI as [Hi Hg]. split; [by apply (rm_inv_view s)|exact Hg].
  - apply (dc_inv_sds S (rec_io i)); [intros j; apply rec_io_keeps|done|exact HI].
  - destruct HI as (Hi & Had & Hids & Hpend). unfold prod_check.
    cbn [cg_active data_globals]. destruct (c_true (recActive (pctl S))) eqn:Ea.
    + split; [done|]. cbn [pctl ppc]. split; [done|split; [done|]].
      intros w' d' _. destruct (rm_inv_active _ Hi) as [Ha|Ha]; [by rewrite Ha in Ea|].
      split; [by apply Had|by left].
    + apply c_true_false in Ea. split; [by apply (rm_inv_view (pctl S))|].
      cbn [pctl ppc cg_idle data_globals]. unfold rm_gview, rm_set_done.
      cbn [pc recActive recDone recIdDataInput recIdDataOutput sds].
      split; [congruence|split; [exact Hids|discriminate]].
  - unfold prod_write. rewrite Hp. cbn [cg_id cg_sds cg_with_sds data_globals].
    pose proof (rec_sdsRecWrite_keeps (data_id w (pctl S)) d (sds (pctl S))) as Hk.
    apply (dc_inv_sds S (fun r => snd (rec_sdsRecWrite (data_id w (pctl S)) d r)) PIdle) in HI;
      [|exact Hk|discriminate].
    destruct (rec_sdsRecWrite _ _ _) as [r sr]. exact HI.
Qed.

Lemma data_ctl_init_empty c : data_ctl_init c ->
  rec_wf (sds c) /\ rec_fresh (sds c) /\ forall j, rec_bytes (sds c) j = [].
Proof.
  intros (socket & leds0 & ->).
  assert (Hs : sds (threadRecManagement_init socket rec_empty leds0) = mk_rec true ∅ 0 ∅)
    by (destruct socket; reflexivity).
  rewrite Hs. split; [|split].
  - intros i st. simpl. by rewrite lookup_empty.
  - intros i. simpl. rewrite !lookup_empty. by intros [[]|[]].
  - intros j. unfold rec_bytes. simpl. by rewrite !lookup_empty.
Qed.

Lemma dsys_reachable_dc_inv S : dsys_reachable S -> dc_inv S.
Proof.
  induction 1 as [c (socket & leds0 & ->)|S S' _ IH Hs]; [|by apply (dc_inv_step S)].
  unfold dc_inv, rm_gview. cbn [pctl ppc].
  unfold threadRecManagement_init. destruct_lets. cbn [pc recActive recDone].
  split; [|split; [discriminate|split; [intros [Ha|Hd]; discriminate|discriminate]]].
  unfold rm_inv. simpl. split; [intros d [Hd|[]]; discriminate|].
  split; [intros n a [Hn|[]]; discriminate|left; done].
Qed.

Lemma sds_rm_start (s : dc_ctl) :
  sds (rm_start s) =
  snd (rec_sdsRecOpen "DataOutput" REC_BUF_SIZE_DATA_OUT REC_IO_THRESHOLD_DATA_OUT
         (snd (rec_sdsRecOpen "DataInput" REC_BUF_SIZE_DATA_IN REC_IO_THRESHOLD_DATA_IN (sds s)))).
Proof.
  unfold rm_start. cbn [sdsRecOpen rec_api].
  destruct (rec_sdsRecOpen "DataInput" _ _ _) as [i s1]. simpl.
  destruct (rec_sdsRecOpen "DataOutput" _ _ _) as [o s2]. done.
Qed.

Lemma sds_rm_stop_finish (s : dc_ctl) :
  sds (rm_stop_finish s) =
  snd (rec_sdsRecClose (recIdDataOutput s) (snd (rec_sdsRecClose (recIdDataInput s) (sds s)))).
Proof.
  unfold rm_stop_finish. cbn [sdsRecClose rec_api].
  destruct (rec_sdsRecClose (recIdDataInput s) _) as [r1 s1]. simpl.
  destruct (rec_sdsRecClose (recIdDataOutput s) _) as [r2 s2]. done.
Qed.

Lemma data_ctl_step_evolves c c' : data_ctl_step c c' -> rec_evolves (sds c) (sds c').
Proof.
  intros [raw s _|s _|id ev s].
  - assert (Hs : sds (rm_tick raw s) = (rm_gview (rm_tick raw s)).2) by done.
    rewrite Hs, rm_tick_gview.
    destruct (press_edge _ _); [destruct (recActive s =? 0)|]; simpl; [|apply rec_evolves_refl..].
    rewrite sds_rm_start. eapply rec_evolves_trans; apply rec_evolves_open.
  - unfold rm_poll. destruct (recDone s =? 0); [apply rec_evolves_refl|].
    rewrite sds_rm_stop_finish. eapply rec_evolves_trans; apply rec_evolves_close.
  - apply rec_evolves_refl.
Qed.

(** The accepted bytes are never lost: [Producer]'s invariant of the
    composed system, for this control thread. *)
Lemma dsys_reachable_inv S : dsys_reachable S -> psys_inv S.
Proof. apply psys_reachable_inv; [apply data_ctl_step_evolves|apply data_ctl_init_empty]. Qed.

(** A write to an open stream appends the block in full, unless the
    buffer lacks room. *)
Lemma rec_sdsRecWrite_open_bytes i d s st :
  rec_streams s !! i = Some st ->
  rec_bytes (snd (rec_sdsRecWrite (Some i) d s)) i =
  rec_bytes s i ++ (if st_size st <? fill st + Z.of_nat (length d) then [] else d).
Proof.
  intros Hst. rewrite rec_sdsRecWrite_bytes, bool_decide_eq_true_2 by done. simpl.
  unfold rec_sdsRecWrite. rewrite Hst.
  destruct (stream_write_cases d st) as [[Hlt ->]|[Hle ->]]; simpl.
  - by replace (st_size st <? _) with true by (symmetry; apply Z.ltb_lt; lia).
  - replace (st_size st <? _) with false by (symmetry; apply Z.ltb_ge; lia).
    destruct d as [|x d]; done.
Qed.

(** The producer's [sdsRecWrite] on an open stream, for any control
    thread. *)
Lemma prod_write_appended {C} `{ControlGlobalsLaws C} (S : psys C) w d i st :
  ppc S = PWrite w d -> cg_id w (pctl S) = Some i -> rec_streams (cg_sds (pctl S)) !! i = Some st ->
  rec_bytes (cg_sds (pctl (prod_write S))) i =
    rec_bytes (cg_sds (pctl S)) i ++ (if st_size st <? fill st + Z.of_nat (length d) then [] else d).
Proof.
  intros Hp Hid Hst. unfold prod_write. rewrite Hp. cbn zeta. rewrite Hid.
  pose proof (rec_sdsRecWrite_open_bytes i d (cg_sds (pctl S)) st Hst) as Hb.
  destruct (rec_sdsRecWrite _ _ _) as [r sr]. simpl. by rewrite cg_sds_with.
Qed.

(** ** Properties of the TestData capture system *)

(** C6: every block the data thread decided to write while recording
    reaches a stream that is still open, whatever runs between its test of
    [recActive] and its [sdsRecWrite] (the stop included, since the stop
    waits for [recDone], which only the data thread sets and only when it
    has no write pending); the block is appended in full to the stream's
    bytes unless the buffer lacks room for it. *)
Theorem data_write_appended (S : dsys) (w : prod_stream) (d : list byte) (i : nat) :
  dsys_reachable S -> ppc S = PWrite w d -> data_id w (pctl S) = Some i ->
  exists st, rec_streams (sds (pctl S)) !! i = Some st /\
    rec_bytes (sds (pctl (prod_write S))) i =
      rec_bytes (sds (pctl S)) i ++ (if st_size st <? fill st + Z.of_nat (length d) then [] else d).
Proof.
  intros HS Hp Hid. destruct (dsys_reachable_dc_inv S HS) as (_ & Hg).
  unfold rm_gview in Hg. destruct Hg as (_ & Hids & Hpend).
  destruct (Hpend w d Hp) as [_ Hsess].
  destruct (Hids Hsess i) as [st Hst]; [destruct w; [left|right]; exact Hid|].
  exists st. split; [exact Hst|]. exact (prod_write_appended S w d i st Hp Hid Hst).
Qed.

Lemma dsys_step_write S w d : ppc S = PWrite w d -> dsys_step S (prod_write S).
Proof. intros Hp. by eapply PsWrite. Qed.

Lemma dsys_step_check S w d : ppc S = PIdle -> dsys_step S (prod_check w d S).
Proof. intros Hp. by apply PsCheck. Qed.

Lemma dsys_step_poll S :
  pc (pctl S) = RmDrain -> dsys_step S (mk_psys (rm_poll (pctl S)) (ppc S) (plog S)).
Proof. intros Hpc. destruct S. by apply PsCtl, DataPoll. Qed.

Lemma dsys_step_tick raw S :
  pc (pctl S) = RmLoop -> dsys_step S (mk_psys (rm_tick raw (pctl S)) (ppc S) (plog S)).
Proof. intros Hpc. destruct S. by apply PsCtl, DataTick. Qed.

Lemma prod_write_view S w d :
  ppc S = PWrite w d -> rm_view (pctl (prod_write S)) = rm_view (pctl S) /\ ppc (prod_write S) = PIdle.
Proof.
  intros Hp. unfold prod_write. rewrite Hp. cbn [cg_id cg_sds cg_with_sds data_globals].
  destruct (rec_sdsRecWrite _ _ _). done.
Qed.

(** The data thread finishes its pending write, if any. *)
Lemma data_flush_pending S :
  exists n S1, (n <= 1)%nat /\ nsteps dsys_step n S S1 /\
    rm_view (pctl S1) = rm_view (pctl S) /\ ppc S1 = PIdle.
Proof.
  destruct (ppc S) as [|w d] eqn:Hp.
  - exists 0%nat, S. split; [lia|split; [constructor|done]].
  - exists 1%nat, (prod_write S). split; [lia|split; [|by apply (prod_write_view S w d)]].
    eapply nsteps_l; [by eapply dsys_step_write|constructor].
Qed.

(** C15: the stop sequence terminates: from every reachable state in which
    the control thread waits in the polling loop, at most three steps (the
    data thread's pending write, its test that finds [recActive] cleared
    and sets [recDone], one poll) bring the control thread back to its main
    loop with both streams closed.  The drain-wait cannot deadlock. *)
Theorem data_stop_terminates (S : dsys) :
  dsys_reachable S -> pc (pctl S) = RmDrain ->
  exists n S', (n <= 3)%nat /\ nsteps dsys_step n S S' /\
    pc (pctl S') = RmLoop /\ ppc S' = PIdle /\
    calls (pctl S') = calls (pctl S) ++ [RmClose 1; RmClose 1].
Proof.
  intros HS Hpc. destruct (dsys_reachable_dc_inv S HS) as [Hi _].
  pose proof (rm_inv_drain _ Hi Hpc) as Ha0.
  destruct (data_flush_pending S) as (n & S1 & Hn & Hsteps & Hv & Hp1).
  unfold rm_view in Hv. injection Hv as Hpc1 Ha1 Hc1.
  assert (HS2 : prod_check PsIn [] S1 = mk_psys (rm_set_done (pctl S1)) PIdle (plog S1)).
  { unfold prod_check. cbn [cg_active data_globals]. by rewrite Ha1, Ha0. }
  exists (n + 2)%nat, (mk_psys (rm_poll (rm_set_done (pctl S1))) PIdle (plog S1)).
  split; [lia|split].
  - eapply nsteps_trans; [exact Hsteps|].
    eapply nsteps_l; [by apply (dsys_step_check S1 PsIn [])|]. rewrite HS2.
    eapply nsteps_l; [|constructor].
    apply (dsys_step_poll (mk_psys (rm_set_done (pctl S1)) PIdle (plog S1))). simpl. congruence.
  - pose proof (rm_poll_view (rm_set_done (pctl S1))) as Hv3. unfold rm_view in Hv3.
    simpl in Hv3. injection Hv3 as Hp3 _ Hc3. cbn [pctl ppc].
    split; [exact Hp3|split; [done|]]. rewrite Hc3. by rewrite Hc1.
Qed.

(** ** A recording session with the data thread *)

Definition dsys_tick (raw : Z) (S : dsys) : dsys := mk_psys (rm_tick raw (pctl S)) (ppc S) (plog S).
Definition dsys_poll (S : dsys) : dsys := mk_psys (rm_poll (pctl S)) (ppc S) (plog S).

Lemma dsys_reach_init socket leds0 :
  dsys_reachable (mk_psys (threadRecManagement_init socket rec_empty leds0) PIdle []).
Proof. apply psys_reach_init. by exists socket, leds0. Qed.

Lemma dsys_reach_next S S' : dsys_reachable S -> dsys_step S S' -> dsys_reachable S'.
Proof. apply psys_reach_step. Qed.

(** Start, the data thread decides to write, release, press (the thread
    enters the polling loop) and one poll, which waits. *)
Definition data_pending_state : dsys :=
  dsys_poll (dsys_tick 1 (dsys_tick 0 (prod_check PsIn [Byte.x01; Byte.x02]
    (dsys_tick 1 (mk_psys (threadRecManagement_init None rec_empty 0) PIdle []))))).

Lemma data_pending_state_reachable : dsys_reachable data_pending_state.
Proof.
  unfold data_pending_state.
  eapply dsys_reach_next; [|apply dsys_step_poll; reflexivity].
  eapply dsys_reach_next; [|apply dsys_step_tick; reflexivity].
  eapply dsys_reach_next; [|apply dsys_step_tick; reflexivity].
  eapply dsys_reach_next; [|apply dsys_step_check; reflexivity].
  eapply dsys_reach_next; [|apply dsys_step_tick; reflexivity].
  apply dsys_reach_init.
Qed.

(** The race of [model_write_after_close] played on TestData: the
    data thread decides to write a block while recording, the button
    stops the recording before the write, the control thread waits in the
    polling loop; the write is accepted, the data thread then sets
    [recDone], and the next poll closes both streams: the block is the
    final output of "DataInput", no error is latched. *)
Example data_session_scenario :
  let S := dsys_poll (prod_check PsIn [] (prod_write data_pending_state)) in
  calls (pctl S) =
    [RmInit; RmOpen "DataInput" 0; RmOpen "DataOutput" 0; RmClose 1; RmClose 1] /\
  pc (pctl S) = RmLoop /\ rec_streams (sds (pctl S)) = ∅ /\
  rec_closed (sds (pctl S)) !! 0%nat = Some [Byte.x01; Byte.x02] /\
  recError (pctl S) = sds_error_init.
Proof. vm_compute. repeat split. Qed.

(** ** Witnesses *)

Lemma data_write_appended_witness :
  (dsys_reachable data_pending_state /\ ppc data_pending_state = PWrite PsIn [Byte.x01; Byte.x02] /\
   data_id PsIn (pctl data_pending_state) = Some 0%nat) /\
  rec_bytes (sds (pctl (prod_write data_pending_state))) 0%nat = [Byte.x01; Byte.x02].
Proof.
  assert (Hp : ppc data_pending_state = PWrite PsIn [Byte.x01; Byte.x02]) by reflexivity.
  assert (Hid : data_id PsIn (pctl data_pending_state) = Some 0%nat) by (vm_compute; reflexivity).
  split; [split; [exact data_pending_state_reachable|split; [exact Hp|exact Hid]]|].
  destruct (data_write_appended _ _ _ _ data_pending_state_reachable Hp Hid) as (st & Hst & ->).
  vm_compute in Hst. injection Hst as <-. vm_compute. reflexivity.
Defined.

Lemma data_stop_terminates_witness :
  (dsys_reachable data_pending_state /\ pc (pctl data_pending_state) = RmDrain) /\
  exists n S', (n <= 3)%nat /\ nsteps dsys_step n data_pending_state S' /\
    pc (pctl S') = RmLoop /\ ppc S' = PIdle /\
    calls (pctl S') = calls (pctl data_pending_state) ++ [RmClose 1; RmClose 1].
Proof.
  assert (Hpc : pc (pctl data_pending_state) = RmDrain) by reflexivity.
  split; [split; [exact data_pending_state_reachable|exact Hpc]|].
  exact (data_stop_terminates _ data_pending_state_reachable Hpc).
Defined.
