(* ===== verification/DataRace.v ===== *)
(** * DataRace: the [recDone] handshake with a non-atomic data thread

    [DataCapture] proves the TestData stop safe for a data thread whose
    test [recActive == 0U] and store [recDone = 1U] are one step.  A data
    thread written as [if (recActive == 0U) { recDone = 1U; }] loads
    [recActive] and stores [recDone] separately.  Here that store is a
    step of its own ([D2Store]): the data thread, having found
    [recActive] cleared, holds a pending store ([done_pending]) that the
    control thread can overtake.

    [data_stale_done] is a reachable run of this system: the data thread
    reads [recActive == 0U] while idle; the control thread starts
    recording (rec_management.c, lines 111-130, [recDone = 0U] included);
    the data thread's store [recDone = 1U] lands after line 130; the data
    thread then decides to write a block; the button stops recording and
    the first poll of the drain-wait (lines 135-137) reads the stale
    [recDone], closes both streams, and the block reaches a closed
    stream and is lost. *)

From S2P Require Import Prelude ErrorLatch SdsRec RecorderSds Producer RecManagement DataCapture.
Import SdsRec.StreamBuffer SdsRec.Recorder RecManagement.TestData.

Open Scope Z_scope.
Open Scope sds_scope.

#[local] Existing Instances rec_api rec_laws.

(** The control thread's state with the data thread's pending store to
    [recDone]. *)
Record dctl2 := mk_d2 { d2 : dc_ctl; done_pending : bool }.

Inductive d2_step : dctl2 -> dctl2 -> Prop :=
  | D2Ctl c c' p : data_ctl_step c c' -> d2_step (mk_d2 c p) (mk_d2 c' p)
  | D2Store c : d2_step (mk_d2 c true) (mk_d2 (rm_set_done c) false).

Definition d2_init (m : dctl2) : Prop := done_pending m = false /\ data_ctl_init (d2 m).

(** The data thread that finds [recActive] cleared only records that it
    will store [recDone = 1U]. *)
#[export] Instance d2_globals : ControlGlobals dctl2 := {|
  cg_active m := recActive (d2 m);
  cg_id w m := data_id w (d2 m);
  cg_sds m := sds (d2 m);
  cg_with_sds m r := mk_d2 (rm_with_sds (d2 m) r) (done_pending m);
  cg_idle m := mk_d2 (d2 m) true
|}.

Definition d2sys_reachable : psys dctl2 -> Prop := psys_reachable d2_step d2_init.

Definition d2_ctl (c' : dc_ctl) (S : psys dctl2) : psys dctl2 :=
  mk_psys (mk_d2 c' (done_pending (pctl S))) (ppc S) (plog S).

Lemma d2_reach_ctl S c' :
  d2sys_reachable S -> data_ctl_step (d2 (pctl S)) c' -> d2sys_reachable (d2_ctl c' S).
Proof.
  intros HS Hc. eapply psys_reach_step; [exact HS|]. destruct S as [[c p] pp lg].
  by apply PsCtl, D2Ctl.
Qed.

Lemma d2_reach_store S :
  d2sys_reachable S -> done_pending (pctl S) = true ->
  d2sys_reachable (mk_psys (mk_d2 (rm_set_done (d2 (pctl S))) false) (ppc S) (plog S)).
Proof.
  intros HS Hp. eapply psys_reach_step; [exact HS|]. destruct S as [[c p] pp lg].
  simpl in Hp. subst p. by apply PsCtl, D2Store.
Qed.

Lemma d2_reach_check w d S :
  d2sys_reachable S -> ppc S = PIdle -> d2sys_reachable (prod_check w d S).
Proof. intros HS Hp. eapply psys_reach_step; [exact HS|]. by apply PsCheck. Qed.

Definition d2_s0 : psys dctl2 :=
  mk_psys (mk_d2 (threadRecManagement_init None rec_empty 0) false) PIdle [].

(** The data thread reads [recActive == 0U]; the control thread starts
    recording; the stale store lands; the data thread decides to write. *)
Definition d2_s4 : psys dctl2 :=
  let S1 := prod_check PsIn [] d2_s0 in
  let S2 := d2_ctl (rm_tick 1 (d2 (pctl S1))) S1 in
  let S3 := mk_psys (mk_d2 (rm_set_done (d2 (pctl S2))) false) (ppc S2) (plog S2) in
  prod_check PsIn [Byte.x01; Byte.x02] S3.

(** Release, press (the thread enters the drain-wait), one poll. *)
Definition d2_s7 : psys dctl2 :=
  let S5 := d2_ctl (rm_tick 0 (d2 (pctl d2_s4))) d2_s4 in
  let S6 := d2_ctl (rm_tick 1 (d2 (pctl S5))) S5 in
  d2_ctl (rm_poll (d2 (pctl S6))) S6.

Lemma d2_s7_reachable : d2sys_reachable d2_s7.
Proof.
  assert (H0 : d2sys_reachable d2_s0) by (apply psys_reach_init; split; [done|by exists None, 0]).
  assert (H4 : d2sys_reachable d2_s4).
  { unfold d2_s4. apply d2_reach_check; [|reflexivity].
    apply d2_reach_store; [|reflexivity].
    apply d2_reach_ctl; [|apply DataTick; reflexivity].
    apply d2_reach_check; [exact H0|reflexivity]. }
  unfold d2_s7.
  apply d2_reach_ctl; [|apply DataPoll; reflexivity].
  apply d2_reach_ctl; [|apply DataTick; reflexivity].
  apply d2_reach_ctl; [exact H4|apply DataTick; reflexivity].
Qed.

(** C16: with a data thread whose test [recActive == 0U] and store
    [recDone = 1U] are separate steps, the drain-wait is not safe: there
    is a reachable state in which the control thread, back in its main
    loop, has closed both streams after reading a [recDone] the data
    thread stored for the previous idle period, while the data thread
    still holds a block it decided to write during the recording; its
    [sdsRecWrite] reaches the closed "DataInput" stream, fails, and the
    block is lost. *)
Example data_stale_done :
  d2sys_reachable d2_s7 /\
  calls (d2 (pctl d2_s7)) =
    [RmInit; RmOpen "DataInput" 0; RmOpen "DataOutput" 0; RmClose 1; RmClose 1] /\
  ppc d2_s7 = PWrite PsIn [Byte.x01; Byte.x02] /\
  data_id PsIn (d2 (pctl d2_s7)) = Some 0%nat /\
  rec_streams (sds (d2 (pctl d2_s7))) !! 0%nat = None /\
  fst (rec_sdsRecWrite (Some 0%nat) [Byte.x01; Byte.x02] (sds (d2 (pctl d2_s7)))) = SDS_REC_ERROR /\
  rec_bytes (sds (d2 (pctl (prod_write d2_s7)))) 0%nat = [] /\
  recError (d2 (pctl (prod_write d2_s7))) = sds_error_init.
Proof. split; [exact d2_s7_reachable|]. vm_compute. repeat split. Qed.
