(* ===== verification/DataStart.v ===== *)
(** * DataStart: the TestData start, statement by statement

    [RecManagement] runs the start branch of [threadRecManagement]
    (rec_management.c, lines 111-130) as one step.  Here each of its
    statements is a step of its own: the open of "DataInput" with its
    assertion (lines 113-117), the open of "DataOutput" with its assertion
    (lines 120-124), LED1 on (line 127), [recActive = 1U] (line 129) and
    [recDone = 0U] (line 130).  The loop iteration that starts recording
    is cut before line 113 ([rm_tick_begin]); [xctl] is the control
    thread with the next statement of the start branch it will run.

    The data thread (as in [DataCapture]: its test [recActive == 0U] and
    its store [recDone = 1U] are one step) and the recorder thread run
    between any two of these statements.  The invariant [x_inv] of the
    composed system shows that the order of the statements makes the
    start safe: [recActive] is raised only once both identifiers name open
    streams, and [recDone] is cleared before the control thread can reach
    a stop, so every block the data thread decides to write reaches an
    open stream ([data_split_start_write_appended]).  ModelTest, which
    raises [recActive] first, is not ([CaptureRace]). *)

From S2P Require Import Prelude ErrorLatch SdsRec RecorderSds Producer RecManagement DataCapture.
Import SdsRec.StreamBuffer SdsRec.Recorder RecManagement.TestData.

Open Scope Z_scope.
Open Scope sds_scope.

(** The statement of the start branch the control thread runs next. *)
Inductive start_pc := StOpenIn | StOpenOut | StLed | StActive | StDone.

#[export] Instance start_pc_eq_dec : EqDecision start_pc.
Proof. solve_decision. Defined.

(** ** The statements of the start branch *)

Section Statements.

Context {St Id : Type} `{SdsRecApi St Id}.
Implicit Types s : rm_state St Id.

(** Lines 113-117: [recIdDataInput = sdsRecOpen("DataInput", ...)] and its
    assertion. *)
Definition start_open_in s : rm_state St Id :=
  let '(id_in, sds1) := sdsRecOpen "DataInput" REC_BUF_SIZE_DATA_IN
                          REC_IO_THRESHOLD_DATA_IN (sds s) in
  let err1 := sds_assert (rm_loc 117) (bool_decide (is_Some id_in)) (recError s) in
  mk_rm (pc s) (btn_prev s) (led0_cnt s) (led0_val s) (recActive s) (recDone s) id_in
    (recIdDataOutput s) err1 sds1 (leds s) (calls s ++ [RmOpen "DataInput" (recActive s)]).

(** Lines 120-124: [recIdDataOutput = sdsRecOpen("DataOutput", ...)] and
    its assertion. *)
Definition start_open_out s : rm_state St Id :=
  let '(id_out, sds2) := sdsRecOpen "DataOutput" REC_BUF_SIZE_DATA_OUT
                           REC_IO_THRESHOLD_DATA_OUT (sds s) in
  let err2 := sds_assert (rm_loc 124) (bool_decide (is_Some id_out)) (recError s) in
  mk_rm (pc s) (btn_prev s) (led0_cnt s) (led0_val s) (recActive s) (recDone s)
    (recIdDataInput s) id_out err2 sds2 (leds s) (calls s ++ [RmOpen "DataOutput" (recActive s)]).

(** Line 127: [vioSetSignal(vioLED1, vioLEDon)]. *)
Definition start_led s : rm_state St Id :=
  mk_rm (pc s) (btn_prev s) (led0_cnt s) (led0_val s) (recActive s) (recDone s)
    (recIdDataInput s) (recIdDataOutput s) (recError s) (sds s)
    (vioSetSignal vioLED1 vioLEDon (leds s)) (calls s).

(** Line 129: [recActive = 1U]. *)
Definition start_set_active s : rm_state St Id :=
  mk_rm (pc s) (btn_prev s) (led0_cnt s) (led0_val s) 1 (recDone s)
    (recIdDataInput s) (recIdDataOutput s) (recError s) (sds s) (leds s) (calls s).

(** Line 130: [recDone = 0U], the last statement of the branch. *)
Definition start_clear_done s : rm_state St Id :=
  mk_rm (pc s) (btn_prev s) (led0_cnt s) (led0_val s) (recActive s) 0
    (recIdDataInput s) (recIdDataOutput s) (recError s) (sds s) (leds s) (calls s).

(** Run statement [p]; the statement after it, or [None] at the end of the
    branch. *)
Definition start_stmt (p : start_pc) s : rm_state St Id * option start_pc :=
  match p with
  | StOpenIn => (start_open_in s, Some StOpenOut)
  | StOpenOut => (start_open_out s, Some StLed)
  | StLed => (start_led s, Some StActive)
  | StActive => (start_set_active s, Some StDone)
  | StDone => (start_clear_done s, None)
  end.

(** A loop iteration up to line 113 when it starts recording (lines
    97-111), the whole iteration otherwise. *)
Definition rm_tick_begin (raw : Z) s : rm_state St Id * option start_pc :=
  let '(cnt, val, l) := led0_step (led0_cnt s, led0_val s, leds s) in
  let btn_val := u8 (vioGetSignal vioBUTTON0 raw) in
  if negb (btn_val =? btn_prev s) && (btn_val =? vioBUTTON0) && (recActive s =? 0) then
    (mk_rm RmLoop btn_val cnt val (recActive s) (recDone s) (recIdDataInput s)
       (recIdDataOutput s) (recError s) (sds s) l (calls s), Some StOpenIn)
  else (rm_tick raw s, None).

(** The rest of the branch from [p] on, run to its end. *)
Fixpoint start_rest (fuel : nat) (p : option start_pc) s : rm_state St Id :=
  match fuel, p with
  | S n, Some q => let '(s', p') := start_stmt q s in start_rest n p' s'
  | _, _ => s
  end.

(** The cut is faithful: the statements run back to back are the start
    branch of [RecManagement]. *)
Lemma start_rest_rm_start s : pc s = RmLoop -> start_rest 5 (Some StOpenIn) s = rm_start s.
Proof.
  intros Hpc. destruct s as [p bp cnt val a d iin iout err r l cs]. simpl in Hpc. subst p.
  unfold rm_start. simpl. unfold start_open_in. simpl.
  destruct (sdsRecOpen "DataInput" _ _ r) as [id_in r1]. unfold start_open_out. simpl.
  destruct (sdsRecOpen "DataOutput" _ _ r1) as [id_out r2].
  unfold start_led, start_set_active, start_clear_done. simpl. by rewrite <- app_assoc.
Qed.

Lemma rm_tick_begin_split raw s :
  start_rest 5 (rm_tick_begin raw s).2 (rm_tick_begin raw s).1 = rm_tick raw s.
Proof.
  unfold rm_tick_begin, rm_tick. destruct (led0_step _) as [[cnt val] l].
  destruct (u8 _ =? btn_prev s); simpl; [done|].
  destruct (u8 _ =? vioBUTTON0); simpl; [|done].
  destruct (recActive s =? 0); simpl; [|done].
  by apply start_rest_rm_start.
Qed.

End Statements.

(** ** The composed system *)

#[local] Existing Instances rec_api rec_laws.

(** The control thread, with the statement of the start branch it runs
    next ([None]: it is not inside the start branch). *)
Record xctl := mk_x { xc : dc_ctl; xpc : option start_pc }.

Definition x_of (r : dc_ctl * option start_pc) : xctl := mk_x r.1 r.2.

(** The control thread's own steps: a loop iteration (up to the start
    branch), a statement of the start branch, a poll, the recorder
    callback (which runs in the recorder's thread, so also inside the
    start branch). *)
Inductive xctl_step : xctl -> xctl -> Prop :=
  | XTick raw c : pc c = RmLoop -> xctl_step (mk_x c None) (x_of (rm_tick_begin raw c))
  | XStmt p c : xctl_step (mk_x c (Some p)) (x_of (start_stmt p c))
  | XPoll c : pc c = RmDrain -> xctl_step (mk_x c None) (mk_x (rm_poll c) None)
  | XEvent id ev m : xctl_step m (mk_x (rm_event id ev (xc m)) (xpc m)).

Definition xctl_init (m : xctl) : Prop := xpc m = None /\ data_ctl_init (xc m).

(** The globals of rec_management.c the data thread reads and writes. *)
#[export] Instance x_globals : ControlGlobals xctl := {|
  cg_active m := recActive (xc m);
  cg_id w m := data_id w (xc m);
  cg_sds m := sds (xc m);
  cg_with_sds m r := mk_x (rm_with_sds (xc m) r) (xpc m);
  cg_idle m := mk_x (rm_set_done (xc m)) (xpc m)
|}.

#[export] Instance x_globals_laws : ControlGlobalsLaws xctl.
Proof. split; done. Qed.

Abbreviation xsys := (psys xctl).

Definition xsys_step : xsys -> xsys -> Prop := psys_step xctl_step.
Definition xsys_reachable : xsys -> Prop := psys_reachable xctl_step xctl_init.

(** ** The invariant of the composed system *)

(** An identifier that was assigned names an open stream. *)
Definition id_open (sr : sdsRecState) (id : option nat) : Prop :=
  forall i, id = Some i -> is_Some (rec_streams sr !! i).

(** On the next statement of the start branch, the shared globals
    [(pc, recActive, recDone, recIdDataInput, recIdDataOutput, recorder)]
    and the data thread's position: [recActive] is 1 only at the last
    statement of the start branch or after it; while recording, [recDone]
    is 0 except before line 130; the identifiers the start assigned name
    open streams from their open on, and during the session; a pending
    write finds the session not over and [recDone] 0, or the start at line
    130. *)
Definition xv_inv (q : option start_pc) (g : rm_pc * Z * Z * option nat * option nat * sdsRecState)
  (pp : prod_pc) : Prop :=
  let '(p, a, d, iin, iout, sr) := g in
  (a = 0 \/ a = 1) /\
  (p = RmDrain -> a = 0) /\
  (forall x, q = Some x -> p = RmLoop /\ (a = 1 <-> x = StDone)) /\
  (a = 1 -> q <> Some StDone -> d = 0) /\
  ((q = Some StOpenOut \/ q = Some StLed \/ q = Some StActive \/ a = 1 \/ p = RmDrain) ->
   id_open sr iin) /\
  ((q = Some StLed \/ q = Some StActive \/ a = 1 \/ p = RmDrain) -> id_open sr iout) /\
  match pp with
  | PIdle => True
  | PWrite _ _ => (d = 0 \/ q = Some StDone) /\ (a = 1 \/ p = RmDrain)
  end.

Definition x_inv (S : xsys) : Prop := xv_inv (xpc (pctl S)) (rm_gview (xc (pctl S))) (ppc S).

Lemma id_open_keeps (f : sdsRecState -> sdsRecState) sr id :
  (forall i, is_Some (rec_streams sr !! i) -> is_Some (rec_streams (f sr) !! i)) ->
  id_open sr id -> id_open (f sr) id.
Proof. intros Hk Ho i Hi. by apply Hk, Ho. Qed.

Lemma rm_tick_begin_cases raw (c : dc_ctl) :
  ((rm_tick_begin raw c).2 = None /\ (rm_tick_begin raw c).1 = rm_tick raw c /\
   (press_edge (btn_prev c) raw = false \/ recActive c <> 0)) \/
  ((rm_tick_begin raw c).2 = Some StOpenIn /\ recActive c = 0 /\
   rm_gview (rm_tick_begin raw c).1 =
     (RmLoop, 0, recDone c, recIdDataInput c, recIdDataOutput c, sds c)).
Proof.
  unfold rm_tick_begin, press_edge, btn_level. destruct (led0_step _) as [[cnt val] l].
  destruct (u8 (vioGetSignal vioBUTTON0 raw) =? vioBUTTON0) eqn:Eb; zbool.
  - rewrite Eb, andb_true_r, andb_true_l. rewrite (Z.eqb_sym vioBUTTON0).
    destruct (negb (btn_prev c =? vioBUTTON0)); [|by left; auto].
    destruct (recActive c =? 0) eqn:Ea; zbool; [right; by rewrite Ea|left; auto].
  - rewrite andb_false_r. simpl. left. auto.
Qed.

Lemma start_stmt_gview p (c : dc_ctl) :
  rm_gview (start_stmt p c).1 =
  let '(pp, a, d, iin, iout, sr) := rm_gview c in
  match p with
  | StOpenIn =>
      let r := rec_sdsRecOpen "DataInput" REC_BUF_SIZE_DATA_IN REC_IO_THRESHOLD_DATA_IN sr in
      (pp, a, d, fst r, iout, snd r)
  | StOpenOut =>
      let r := rec_sdsRecOpen "DataOutput" REC_BUF_SIZE_DATA_OUT REC_IO_THRESHOLD_DATA_OUT sr in
      (pp, a, d, iin, fst r, snd r)
  | StLed => (pp, a, d, iin, iout, sr)
  | StActive => (pp, 1, d, iin, iout, sr)
  | StDone => (pp, a, 0, iin, iout, sr)
  end.
Proof.
  destruct p; simpl; [unfold start_open_in|unfold start_open_out|done..]; cbn [sdsRecOpen rec_api];
    by destruct (rec_sdsRecOpen _ _ _ _).
Qed.

Lemma rm_poll_gview (c : dc_ctl) :
  rm_gview (rm_poll c) =
  if recDone c =? 0 then rm_gview c
  else (RmLoop, recActive c, recDone c, recIdDataInput c, recIdDataOutput c, sds (rm_stop_finish c)).
Proof.
  unfold rm_poll. destruct (recDone c =? 0); [done|].
  unfold rm_stop_finish. by destruct_lets.
Qed.

Lemma id_open_opened n sz thr sr :
  id_open (snd (rec_sdsRecOpen n sz thr sr)) (fst (rec_sdsRecOpen n sz thr sr)).
Proof. intros i. apply rec_sdsRecOpen_opened. Qed.

Lemma id_open_open n sz thr sr id : id_open sr id -> id_open (snd (rec_sdsRecOpen n sz thr sr)) id.
Proof. apply (id_open_keeps (fun r => snd (rec_sdsRecOpen n sz thr r))), rec_sdsRecOpen_keeps. Qed.

(** Close a case of the invariant: the facts are propositional over
    equations between the globals. *)
Ltac xv_solve :=
  unfold xv_inv in *; simpl in *;
  repeat match goal with
  | H : context [match ?pp with PIdle => _ | PWrite _ _ => _ end] |- _ => destruct pp
  end;
  simpl in *; intuition congruence.

Lemma xv_inv_ctl (m m' : xctl) pp :
  xctl_step m m' -> xv_inv (xpc m) (rm_gview (xc m)) pp -> xv_inv (xpc m') (rm_gview (xc m')) pp.
Proof.
  intros Hs Hi. destruct Hs as [raw c Hpc|p c|c Hpc|id ev m]; cbn [xc xpc x_of] in *.
  - unfold rm_gview in Hi.
    destruct (rm_tick_begin_cases raw c) as [(-> & -> & He)|(-> & Ha & ->)]; [|xv_solve].
    rewrite rm_tick_gview. destruct (press_edge _ _); [|xv_solve].
    replace (recActive c =? 0) with false; [xv_solve|].
    symmetry. apply Z.eqb_neq. destruct He as [He|He]; [discriminate|exact He].
  - rewrite start_stmt_gview. unfold rm_gview in *. simpl in Hi |- *.
    destruct Hi as (HA & HB & HC & HD & HE & HF & HG).
    destruct (HC p eq_refl) as [Hl Hdone].
    destruct p; cbn [start_stmt snd].
    + pose proof (id_open_opened "DataInput" REC_BUF_SIZE_DATA_IN REC_IO_THRESHOLD_DATA_IN (sds c)).
      remember (rec_sdsRecOpen "DataInput" _ _ _) as r. xv_solve.
    + pose proof (HE ltac:(auto)) as Hin.
      pose proof (id_open_open "DataOutput" REC_BUF_SIZE_DATA_OUT REC_IO_THRESHOLD_DATA_OUT _ _ Hin).
      pose proof (id_open_opened "DataOutput" REC_BUF_SIZE_DATA_OUT REC_IO_THRESHOLD_DATA_OUT (sds c)).
      remember (rec_sdsRecOpen "DataOutput" _ _ _) as r. xv_solve.
    + pose proof (HE ltac:(auto)). pose proof (HF ltac:(auto)). xv_solve.
    + pose proof (HE ltac:(auto)). pose proof (HF ltac:(auto)). xv_solve.
    + xv_solve.
  - unfold rm_gview in Hi. rewrite rm_poll_gview. destruct (recDone c =? 0) eqn:Ed; [xv_solve|].
    zbool. xv_solve.
  - exact Hi.
Qed.

(** A step that changes only the recorder, by calls that keep every open
    stream open. *)
Lemma x_inv_sds (S : xsys) (f : sdsRecState -> sdsRecState) pp :
  (forall i, is_Some (rec_streams (sds (xc (pctl S))) !! i) ->
             is_Some (rec_streams (f (sds (xc (pctl S)))) !! i)) ->
  (pp = PIdle \/ pp = ppc S) ->
  x_inv S -> x_inv (mk_psys (mk_x (rm_with_sds (xc (pctl S)) (f (sds (xc (pctl S))))) (xpc (pctl S)))
                      pp (plog S)).
Proof.
  intros Hk Hpp HI. pose proof (id_open_keeps f _ (recIdDataInput (xc (pctl S))) Hk).
  pose proof (id_open_keeps f _ (recIdDataOutput (xc (pctl S))) Hk).
  unfold x_inv, rm_gview, rm_with_sds in *. cbn [pctl ppc xc xpc] in *.
  destruct Hpp as [->| ->]; xv_solve.
Qed.

Lemma x_inv_step S S' : xsys_step S S' -> x_inv S -> x_inv S'.
Proof.
  intros Hs HI. destruct Hs as [c c' pp lg Hc|i S|w d S Hp|w d S Hp].
  - exact (xv_inv_ctl c c' pp Hc HI).
  - apply (x_inv_sds S (rec_io i)); [intros j; apply rec_io_keeps|by right|exact HI].
  - unfold prod_check. cbn [cg_active cg_idle x_globals].
    destruct (c_true (recActive (xc (pctl S)))) eqn:Ea;
      [apply c_true_true in Ea|apply c_true_false in Ea];
      unfold x_inv, rm_gview, rm_set_done in *; rewrite Hp in HI;
      [destruct (decide (xpc (pctl S) = Some StDone))|]; xv_solve.
  - unfold prod_write. rewrite Hp. cbn [cg_id cg_sds cg_with_sds x_globals].
    pose proof (rec_sdsRecWrite_keeps (data_id w (xc (pctl S))) d (sds (xc (pctl S)))) as Hk.
    apply (x_inv_sds S (fun r => snd (rec_sdsRecWrite (data_id w (xc (pctl S))) d r)) PIdle) in HI;
      [|exact Hk|by left].
    destruct (rec_sdsRecWrite _ _ _) as [r sr]. exact HI.
Qed.

Lemma xsys_reachable_x_inv S : xsys_reachable S -> x_inv S.
Proof.
  induction 1 as [[c q] [Hq (socket & leds0 & Hc)]|S S' _ IH Hs]; [|by apply (x_inv_step S)].
  cbn [xpc xc] in Hq, Hc. subst q c. unfold x_inv, rm_gview. cbn [pctl ppc xc xpc].
  unfold threadRecManagement_init. destruct_lets. xv_solve.
Qed.

(** ** The property *)

(** C13: the statements of the start branch are in an order that makes
    it safe: with the data thread and the recorder thread running between
    any two statements of rec_management.c's start (lines 113-130), every
    block the data thread decided to write after seeing [recActive] set
    reaches a stream that is open, and is appended to it in full unless its
    buffer lacks room: [recActive = 1U] comes after both [sdsRecOpen]
    calls, and [recDone = 0U] comes before any stop can poll it. *)
Theorem data_split_start_write_appended (S : xsys) (w : prod_stream) (d : list byte) (i : nat) :
  xsys_reachable S -> ppc S = PWrite w d -> data_id w (xc (pctl S)) = Some i ->
  exists st, rec_streams (sds (xc (pctl S))) !! i = Some st /\
    rec_bytes (sds (xc (pctl (prod_write S)))) i =
      rec_bytes (sds (xc (pctl S))) i ++ (if st_size st <? fill st + Z.of_nat (length d) then [] else d).
Proof.
  intros HS Hp Hid. pose proof (xsys_reachable_x_inv S HS) as HI.
  unfold x_inv, xv_inv, rm_gview in HI. rewrite Hp in HI.
  destruct HI as (_ & _ & _ & _ & Hin & Hout & _ & Hsess).
  destruct w; [destruct (Hin ltac:(tauto) i Hid) as [st Hst]|destruct (Hout ltac:(tauto) i Hid) as [st Hst]];
    exists st; (split; [exact Hst|exact (prod_write_appended S _ d i st Hp Hid Hst)]).
Qed.

(** ** A run with the data thread between the statements of the start *)

Definition xs0 : xsys := mk_psys (mk_x (threadRecManagement_init None rec_empty 0) None) PIdle [].

(** The control thread's next statement of the start branch. *)
Definition x_stmt (S : xsys) : xsys :=
  match xpc (pctl S) with
  | Some p => mk_psys (x_of (start_stmt p (xc (pctl S)))) (ppc S) (plog S)
  | None => S
  end.

Lemma x_reach_stmt S : xsys_reachable S -> xsys_reachable (x_stmt S).
Proof.
  intros HS. destruct S as [[c [p|]] pp lg]; [|exact HS].
  eapply psys_reach_step; [exact HS|]. apply PsCtl, XStmt.
Qed.

Lemma x_reach_check w d S : xsys_reachable S -> ppc S = PIdle -> xsys_reachable (prod_check w d S).
Proof. intros HS Hp. eapply psys_reach_step; [exact HS|]. by apply PsCheck. Qed.

(** A press starts recording; after the two opens the data thread finds
    [recActive] still 0 and sets [recDone]; the start goes on to its end;
    the data thread then finds [recActive] set and decides to write. *)
Definition x_pending : xsys :=
  let S1 := mk_psys (x_of (rm_tick_begin 1 (xc (pctl xs0)))) PIdle [] in
  let S2 := prod_check PsIn [Byte.x01; Byte.x02] (x_stmt (x_stmt S1)) in
  prod_check PsIn [Byte.x01; Byte.x02] (x_stmt (x_stmt (x_stmt S2))).

Lemma x_pending_reachable : xsys_reachable x_pending.
Proof.
  assert (H1 : xsys_reachable (mk_psys (x_of (rm_tick_begin 1 (xc (pctl xs0)))) PIdle [])).
  { assert (H0 : xsys_reachable xs0) by (apply psys_reach_init; split; [done|by exists None, 0]).
    eapply psys_reach_step; [exact H0|].
    apply PsCtl, (XTick 1 (threadRecManagement_init None rec_empty 0)). vm_compute. reflexivity. }
  unfold x_pending. apply x_reach_check; [|reflexivity].
  do 3 apply x_reach_stmt. apply x_reach_check; [|reflexivity]. by do 2 apply x_reach_stmt.
Qed.

(** ** Witness *)

Lemma data_split_start_write_appended_witness :
  (xsys_reachable x_pending /\ ppc x_pending = PWrite PsIn [Byte.x01; Byte.x02] /\
   data_id PsIn (xc (pctl x_pending)) = Some 0%nat) /\
  rec_bytes (sds (xc (pctl (prod_write x_pending)))) 0%nat = [Byte.x01; Byte.x02].
Proof.
  assert (Hp : ppc x_pending = PWrite PsIn [Byte.x01; Byte.x02]) by (vm_compute; reflexivity).
  assert (Hid : data_id PsIn (xc (pctl x_pending)) = Some 0%nat) by (vm_compute; reflexivity).
  split; [split; [exact x_pending_reachable|split; [exact Hp|exact Hid]]|].
  destruct (data_split_start_write_appended _ _ _ _ x_pending_reachable Hp Hid) as (st & Hst & ->).
  vm_compute in Hst. injection Hst as <-. vm_compute. reflexivity.
Defined.
