(* ===== verification/SensorDrv.v ===== *)
(** * SensorDrv: the sensor driver of the Alif DevKit-E7

    Models src/Sensors/Alif_DevKit-E7/Source/sensor_drv.c: two logical
    sensors (accelerometer and gyroscope of one BMI323 device) in the
    table [Sensors[2]], looked up by name, enabled together, and read one
    sample at a time.

    - A [sensorId_t] is a pointer into [Sensors]; it is modelled as an
      index ([Some n] for [&Sensors[n]], [None] for [NULL]).
    - [Sensors] is built as the C initialiser builds it: the entries of the
      configured sensors ([SENSOR0_NAME], [SENSOR1_NAME]) in order, then
      zero entries (configuration pointer [NULL]) up to two.
    - The BMI323 driver ([bmi323_icm42670_init], [getBMI323Accel],
      [getBMI323Gyro]) is outside this repository: its results are inputs
      of the operations.  A sample [xyz_accel_gyro_imu_s] is modelled by the
      bytes of the structure from its field [acc_x] and from [gyro_x] on.
    - A caller's buffer is the list of bytes of the object [buf] points to
      ([None] for [NULL]); [buf_size] is the size the caller passes, which
      the C code trusts.  An access the C code would make through [NULL] or
      past the end of an object is an explicit outcome, not a value.
    - [num_samples * sample_size] is computed in [uint32_t] and wraps. *)

From S2P Require Import Prelude.

Open Scope Z_scope.
Open Scope sds_scope.

(** The result of an operation: a value, or the undefined behaviour the C
    code would reach. *)
Inductive outcome (A : Type) :=
  | Done (a : A)
  | NullDeref
  | OutOfBounds.
Arguments Done {A} a.
Arguments NullDeref {A}.
Arguments OutOfBounds {A}.

(** Return codes of [sensor_drv.h]. *)
Definition SENSOR_OK : Z := 0.
Definition SENSOR_ERROR : Z := -1.

(** [sensorConfig_t]: the union holds either the FIFO parameters or, in
    DMA mode, the block parameters. *)
Inductive sensor_params :=
  | FifoParams (sample_interval fifo_size data_threshold : Z)
  | BlockParams (block_interval block_size block_num : Z).

Record sensorConfig_t := mk_config {
  cfg_name : string;
  dma_mode : Z;
  sample_size : Z;
  params : sensor_params
}.

(** The initialiser of [sensorConfig0] / [sensorConfig1]: the preprocessor
    picks the union member from the DMA mode. *)
Definition sensor_config (name : string) (dma ss a b c : Z) : sensorConfig_t :=
  mk_config name dma ss (if dma =? 0 then FifoParams a b c else BlockParams a b c).

(** [sensorStatus_t]: the bit fields [active], [overflow], [reserved]. *)
Record sensorStatus_t := mk_status { active : Z; overflow : Z; reserved : Z }.

Definition status_zero : sensorStatus_t := mk_status 0 0 0.

Record sensor_t := mk_sensor { config : option sensorConfig_t; status : sensorStatus_t }.

(** The driver's state: the table [Sensors], and the number of times the
    physical device was initialised. *)
Record drv_state := mk_drv { Sensors : list sensor_t; dev_inits : nat }.

(** [static sensor_t Sensors[2] = { ... }] for the configured sensors. *)
Definition Sensors_init (cfg0 cfg1 : option sensorConfig_t) : drv_state :=
  let present := omap id [cfg0; cfg1] in
  let entries := map (fun c => mk_sensor (Some c) status_zero) present in
  mk_drv (entries ++ replicate (2 - length entries) (mk_sensor None status_zero)) 0.

Definition sensorId_t := option nat.

(** The loop of [sensorGetId] from index [n]: [strcmp] reads the name
    through the entry's configuration pointer. *)
Fixpoint find_sensor (name : string) (l : list sensor_t) (n : nat) : outcome sensorId_t :=
  match l with
  | [] => Done None
  | s :: t =>
      match config s with
      | None => NullDeref
      | Some c => if String.eqb name (cfg_name c) then Done (Some n) else find_sensor name t (S n)
      end
  end.

Definition sensorGetId (name : option string) (d : drv_state) : outcome sensorId_t :=
  match name with
  | None => Done None
  | Some nm => find_sensor nm (Sensors d) 0
  end.

Definition sensorGetConfig (id : sensorId_t) (d : drv_state) : option sensorConfig_t :=
  match id with
  | None => None
  | Some n => match Sensors d !! n with Some s => config s | None => None end
  end.

Definition sensorRegisterEvents {Cb : Type} (id : sensorId_t) (event_cb : Cb) (event_mask : Z) : Z :=
  SENSOR_ERROR.

Definition sensor_active (d : drv_state) (n : nat) : Z :=
  match Sensors d !! n with Some s => active (status s) | None => 0 end.

Definition set_active (s : sensor_t) : sensor_t :=
  mk_sensor (config s) (mk_status 1 (overflow (status s)) (reserved (status s))).

(** [sensorEnable(id)]; [init_rc] is what [bmi323_icm42670_init()] returns
    if it is called. *)
Definition sensorEnable (id : sensorId_t) (init_rc : Z) (d : drv_state) : Z * drv_state :=
  match id with
  | None => (SENSOR_ERROR, d)
  | Some _ =>
      if (sensor_active d 0%nat =? 0) || (sensor_active d 1%nat =? 0) then
        if Z.land init_rc 1 =? 1 then
          (SENSOR_OK, mk_drv (alter set_active 1%nat (alter set_active 0%nat (Sensors d))) (S (dev_inits d)))
        else (SENSOR_ERROR, mk_drv (Sensors d) (S (dev_inits d)))
      else (SENSOR_ERROR, d)
  end.

Definition sensorDisable (id : sensorId_t) : Z := SENSOR_ERROR.

Definition sensorGetStatus (id : sensorId_t) (d : drv_state) : sensorStatus_t :=
  match id with
  | None => status_zero
  | Some n =>
      match Sensors d !! n with
      | Some s => mk_status (active (status s)) 0 (reserved status_zero)
      | None => status_zero
      end
  end.

(** The bytes of a sample structure from [acc_x] on and from [gyro_x] on. *)
Record xyz_accel_gyro_imu_s := mk_imu { from_acc_x : list byte; from_gyro_x : list byte }.

(** The next results of [getBMI323Accel(&sample)] and [getBMI323Gyro(&sample)]. *)
Record bmi323_reads := mk_reads {
  getBMI323Accel : Z * xyz_accel_gyro_imu_s;
  getBMI323Gyro : Z * xyz_accel_gyro_imu_s
}.

(** [memcpy(dst, src, len)] on the objects [dst] and [src]. *)
Definition memcpy (dst src : list byte) (len : Z) : outcome (list byte) :=
  if (Z.of_nat (length dst) <? len) || (Z.of_nat (length src) <? len) then OutOfBounds
  else Done (take (Z.to_nat len) src ++ drop (Z.to_nat len) dst).

(** One read: copy [sample_size] bytes from the field the sensor reads. *)
Definition read_one (rd : Z * xyz_accel_gyro_imu_s) (field : xyz_accel_gyro_imu_s -> list byte)
  (b : list byte) (ss : Z) : outcome (Z * option (list byte)) :=
  let '(rc, sample) := rd in
  if rc =? 0 then
    match memcpy b (field sample) ss with
    | Done b' => Done (1, Some b')
    | NullDeref => NullDeref
    | OutOfBounds => OutOfBounds
    end
  else Done (0, Some b).

(** [sensorReadSamples(id, num_samples, buf, buf_size)]: the number of
    samples read and the caller's buffer afterwards. *)
Definition sensorReadSamples (id : sensorId_t) (num_samples : Z) (buf : option (list byte))
  (buf_size : Z) (hw : bmi323_reads) (d : drv_state) : outcome (Z * option (list byte)) :=
  match id with
  | None => Done (0, buf)
  | Some n =>
      if num_samples =? 0 then Done (0, buf) else
      match buf with
      | None => Done (0, None)
      | Some b =>
          match Sensors d !! n with
          | None => OutOfBounds
          | Some s =>
              match config s with
              | None => NullDeref
              | Some c =>
                  if buf_size >=? num_samples *u32 sample_size c then
                    match n with
                    | 0%nat => read_one (getBMI323Accel hw) from_acc_x b (sample_size c)
                    | 1%nat => read_one (getBMI323Gyro hw) from_gyro_x b (sample_size c)
                    | _ => Done (0, buf)
                    end
                  else Done (0, buf)
              end
          end
      end
  end.

Definition sensorGetBlockData (id : sensorId_t) : option (list byte) := None.

(** ** Lemmas *)

(** The table always has its two entries. *)
Definition drv_wf (d : drv_state) : Prop := length (Sensors d) = 2%nat.

Lemma Sensors_init_wf c0 c1 : drv_wf (Sensors_init c0 c1).
Proof. unfold drv_wf. destruct c0, c1; reflexivity. Qed.

Lemma drv_wf_lookup d n :
  drv_wf d -> (n < 2)%nat -> exists s, Sensors d !! n = Some s.
Proof. unfold drv_wf. intros Hl Hn. apply lookup_lt_is_Some_2. lia. Qed.

Lemma sensorEnable_wf id rc d : drv_wf d -> drv_wf (snd (sensorEnable id rc d)).
Proof.
  unfold drv_wf, sensorEnable. intros Hl. destruct id; [|done].
  case_tests; simpl; rewrite ?length_alter; done.
Qed.

Lemma lookup_enable_all (l : list sensor_t) n s :
  l !! n = Some s -> (n < 2)%nat ->
  alter set_active 1%nat (alter set_active 0%nat l) !! n = Some (set_active s).
Proof.
  intros Hs Hn. destruct n as [|[|n]]; [| |lia].
  - rewrite list_lookup_alter_ne, list_lookup_alter, Hs by lia. done.
  - rewrite list_lookup_alter, list_lookup_alter_ne, Hs by lia. done.
Qed.

Definition enable_attempted (id : sensorId_t) (d : drv_state) : bool :=
  bool_decide (is_Some id) && ((sensor_active d 0%nat =? 0) || (sensor_active d 1%nat =? 0)).

(** ** Properties *)

(** C30: every branch of [sensorEnable]: it succeeds exactly when the
    handle is not [NULL], one of the two sensors is inactive, and the
    device initialisation reports success in bit 0; the device is
    initialised exactly when the handle is not [NULL] and a sensor is
    inactive, whether or not that succeeds. *)
Theorem sensorEnable_spec (id : sensorId_t) (rc : Z) (d : drv_state) :
  fst (sensorEnable id rc d) =
    (if enable_attempted id d && Z.testbit rc 0 then SENSOR_OK else SENSOR_ERROR) /\
  dev_inits (snd (sensorEnable id rc d)) =
    (dev_inits d + if enable_attempted id d then 1 else 0)%nat.
Proof.
  assert (Hb : (Z.land rc 1 =? 1) = Z.testbit rc 0).
  { rewrite land_1_mod2, Z.bit0_odd, (Zmod_odd rc). by destruct (Z.odd rc). }
  unfold sensorEnable, enable_attempted. rewrite Hb.
  destruct id as [n|]; [|split; [done|simpl; lia]].
  rewrite bool_decide_eq_true_2 by done. rewrite andb_true_l.
  destruct (_ || _); [|split; [done|simpl; lia]].
  destruct (Z.testbit rc 0); simpl; split; try done; lia.
Qed.

(** C20: enabling one sensor activates both: after a successful
    [sensorEnable] on any handle, [sensorGetStatus] reports both logical
    sensors active. *)
Theorem sensorEnable_activates_all (id : sensorId_t) (rc : Z) (d : drv_state) (n : nat) :
  drv_wf d -> fst (sensorEnable id rc d) = SENSOR_OK -> (n < 2)%nat ->
  active (sensorGetStatus (Some n) (snd (sensorEnable id rc d))) = 1.
Proof.
  intros Hw Hok Hn. destruct (drv_wf_lookup d n Hw Hn) as [s Hs].
  unfold sensorEnable in *. destruct id; [|done].
  destruct (_ || _); [|done]. destruct (Z.land rc 1 =? 1); [|done].
  simpl. rewrite (lookup_enable_all _ _ _ Hs Hn). done.
Qed.

(** C23: once an enable has succeeded, every later [sensorEnable], for
    either sensor, fails and leaves the driver (and the device) untouched.
    The specification's scenario "enable(sensor0) then enable(sensor1):
    the second call still succeeds" does not hold. *)
Theorem sensorEnable_second_fails (id id' : sensorId_t) (rc rc' : Z) (d : drv_state) :
  drv_wf d -> fst (sensorEnable id rc d) = SENSOR_OK ->
  sensorEnable id' rc' (snd (sensorEnable id rc d)) =
  (SENSOR_ERROR, snd (sensorEnable id rc d)).
Proof.
  intros Hw Hok.
  assert (Ha : forall n, (n < 2)%nat -> sensor_active (snd (sensorEnable id rc d)) n = 1).
  { intros n Hn. pose proof (sensorEnable_activates_all id rc d n Hw Hok Hn) as H.
    unfold sensorGetStatus, sensor_active in *.
    destruct (Sensors _ !! n); [done|]. discriminate. }
  unfold sensorEnable at 1. destruct id'; [|done].
  rewrite (Ha 0%nat), (Ha 1%nat) by lia. done.
Qed.

Lemma sensorEnable_activates_all_witness :
  let d := Sensors_init (Some (sensor_config "Accelerometer" 0 6 10000 6 6))
             (Some (sensor_config "Gyroscope" 0 6 10000 6 6)) in
  (drv_wf d /\ fst (sensorEnable (Some 0%nat) 1 d) = SENSOR_OK /\ (1 < 2)%nat) /\
  active (sensorGetStatus (Some 1%nat) (snd (sensorEnable (Some 0%nat) 1 d))) = 1.
Proof.
  cbv zeta. split; [split; [apply Sensors_init_wf|split; [reflexivity|lia]]|].
  apply sensorEnable_activates_all; [apply Sensors_init_wf|reflexivity|lia].
Defined.

Lemma sensorEnable_second_fails_witness :
  let d := Sensors_init (Some (sensor_config "Accelerometer" 0 6 10000 6 6))
             (Some (sensor_config "Gyroscope" 0 6 10000 6 6)) in
  (drv_wf d /\ fst (sensorEnable (Some 0%nat) 1 d) = SENSOR_OK) /\
  fst (sensorEnable (Some 1%nat) 1 (snd (sensorEnable (Some 0%nat) 1 d))) = SENSOR_ERROR.
Proof.
  cbv zeta. split; [split; [apply Sensors_init_wf|reflexivity]|].
  rewrite sensorEnable_second_fails; [reflexivity|apply Sensors_init_wf|reflexivity].
Defined.

Lemma read_one_count rd field b ss k b' :
  read_one rd field b ss = Done (k, b') -> k = 0 \/ k = 1.
Proof.
  unfold read_one. destruct rd as [rc smp]. destruct (rc =? 0); [|intros [= <- _]; by left].
  destruct (memcpy _ _ _); [intros [= <- _]; by right|done|done].
Qed.

(** C31: [sensorReadSamples] never reports more than one sample, whatever
    the number requested. *)
Theorem sensorReadSamples_at_most_one (id : sensorId_t) (num : Z) (buf : option (list byte))
  (buf_size : Z) (hw : bmi323_reads) (d : drv_state) (k : Z) (buf' : option (list byte)) :
  sensorReadSamples id num buf buf_size hw d = Done (k, buf') -> k = 0 \/ k = 1.
Proof.
  unfold sensorReadSamples.
  destruct id as [n|]; [|intros [= <- _]; by left].
  destruct (num =? 0); [intros [= <- _]; by left|].
  destruct buf as [b|]; [|intros [= <- _]; by left].
  destruct (Sensors d !! n) as [s|]; [|done]. destruct (config s) as [c|]; [|done].
  destruct (_ >=? _); [|intros [= <- _]; by left].
  destruct n as [|[|n]]; [apply read_one_count|apply read_one_count|intros [= <- _]; by left].
Qed.

Lemma sensorReadSamples_at_most_one_witness :
  sensorReadSamples (Some 0%nat) 5 (Some (repeat Byte.x00 30)) 30
    (mk_reads (0, mk_imu (repeat Byte.x01 12) []) (0, mk_imu [] []))
    (Sensors_init (Some (sensor_config "Accelerometer" 0 6 10000 6 6)) None)
  = Done (1, Some (repeat Byte.x01 6 ++ repeat Byte.x00 24)) /\ (1 = 0 \/ 1 = 1).
Proof.
  assert (H : sensorReadSamples (Some 0%nat) 5 (Some (repeat Byte.x00 30)) 30
    (mk_reads (0, mk_imu (repeat Byte.x01 12) []) (0, mk_imu [] []))
    (Sensors_init (Some (sensor_config "Accelerometer" 0 6 10000 6 6)) None)
    = Done (1, Some (repeat Byte.x01 6 ++ repeat Byte.x00 24))) by (vm_compute; reflexivity).
  split; [exact H|]. exact (sensorReadSamples_at_most_one _ _ _ _ _ _ _ _ H).
Defined.

(** C21: when [num_samples * sample_size] does not overflow 32 bits, a
    request whose byte count exceeds [buf_size] reads nothing and leaves
    the buffer untouched. *)
Theorem sensorReadSamples_short_buffer (n : nat) (c : sensorConfig_t) (st : sensorStatus_t)
  (num : Z) (buf : option (list byte)) (buf_size : Z) (hw : bmi323_reads) (d : drv_state) :
  Sensors d !! n = Some (mk_sensor (Some c) st) ->
  1 <= num -> 0 <= sample_size c -> num * sample_size c < 4294967296 ->
  buf_size < num * sample_size c ->
  sensorReadSamples (Some n) num buf buf_size hw d = Done (0, buf).
Proof.
  intros Hs Hn Hss Hno Hlt. unfold sensorReadSamples.
  replace (num =? 0) with false by (symmetry; apply Z.eqb_neq; lia).
  destruct buf as [b|]; [|done]. rewrite Hs. simpl.
  rewrite u32_mul_nowrap by lia.
  replace (buf_size >=? num * sample_size c) with false by (symmetry; rewrite Z.geb_leb; apply Z.leb_gt; lia).
  done.
Qed.

Lemma sensorReadSamples_short_buffer_witness :
  let d := Sensors_init (Some (sensor_config "Accelerometer" 0 6 10000 6 6))
             (Some (sensor_config "Gyroscope" 0 6 10000 6 6)) in
  (Sensors d !! 1%nat = Some (mk_sensor (Some (sensor_config "Gyroscope" 0 6 10000 6 6)) status_zero)
   /\ 1 <= 2 /\ 0 <= 6 /\ 2 * 6 < 4294967296 /\ 8 < 2 * 6) /\
  sensorReadSamples (Some 1%nat) 2 (Some (repeat Byte.x00 8)) 8
    (mk_reads (0, mk_imu [] []) (0, mk_imu [] [])) d = Done (0, Some (repeat Byte.x00 8)).
Proof.
  cbv zeta. split; [split; [reflexivity|lia]|].
  apply (sensorReadSamples_short_buffer 1 (sensor_config "Gyroscope" 0 6 10000 6 6) status_zero);
    [reflexivity|simpl; lia..].
Defined.

(** C22: the byte count is computed in [uint32_t]: for 2^31 samples of a
    6-byte sensor the product wraps to 0, the size check passes with
    [buf_size = 0], and the copy writes 6 bytes past an empty buffer.  The
    guard does not protect the caller for every [num_samples >= 1]. *)
Example sensorReadSamples_wraps :
  let d := Sensors_init (Some (sensor_config "Accelerometer" 0 6 10000 6 6))
             (Some (sensor_config "Gyroscope" 0 6 10000 6 6)) in
  2147483648 *u32 6 = 0 /\
  sensorReadSamples (Some 0%nat) 2147483648 (Some []) 0
    (mk_reads (0, mk_imu (repeat Byte.x01 12) []) (0, mk_imu [] [])) d = OutOfBounds.
Proof. vm_compute. split; reflexivity. Qed.

(** The field a handle reads from: [acc_x] for [&Sensors[0]], [gyro_x] for
    [&Sensors[1]]. *)
Definition sensor_field (n : nat) (hw : bmi323_reads) : Z * list byte :=
  match n with
  | 0%nat => (fst (getBMI323Accel hw), from_acc_x (snd (getBMI323Accel hw)))
  | _ => (fst (getBMI323Gyro hw), from_gyro_x (snd (getBMI323Gyro hw)))
  end.

(** C29: a read that passes the check copies exactly [sample_size] bytes of
    the sample into the front of the buffer and reports one sample: the
    accelerometer fields for the first table entry, the gyroscope fields
    for the second; a failed driver read reports none and copies
    nothing. *)
Theorem sensorReadSamples_copies (n : nat) (c : sensorConfig_t) (st : sensorStatus_t)
  (num : Z) (b : list byte) (buf_size : Z) (hw : bmi323_reads) (d : drv_state) :
  (n < 2)%nat -> Sensors d !! n = Some (mk_sensor (Some c) st) -> num <> 0 ->
  num *u32 sample_size c <= buf_size ->
  0 <= sample_size c <= Z.of_nat (length b) ->
  sample_size c <= Z.of_nat (length (snd (sensor_field n hw))) ->
  sensorReadSamples (Some n) num (Some b) buf_size hw d =
  if fst (sensor_field n hw) =? 0 then
    Done (1, Some (take (Z.to_nat (sample_size c)) (snd (sensor_field n hw)) ++
                   drop (Z.to_nat (sample_size c)) b))
  else Done (0, Some b).
Proof.
  intros Hn Hs Hnum Hchk Hb Hf. unfold sensorReadSamples.
  replace (num =? 0) with false by (symmetry; by apply Z.eqb_neq). rewrite Hs. simpl.
  replace (buf_size >=? _) with true by (symmetry; rewrite Z.geb_leb; by apply Z.leb_le).
  assert (Hm : forall src, sample_size c <= Z.of_nat (length src) ->
            memcpy b src (sample_size c) =
            Done (take (Z.to_nat (sample_size c)) src ++ drop (Z.to_nat (sample_size c)) b)).
  { intros src Hsrc. unfold memcpy.
    replace (_ || _) with false by (symmetry; apply orb_false_iff; split; apply Z.ltb_ge; lia).
    done. }
  destruct n as [|[|n]]; [| |lia]; simpl in *; unfold read_one;
    [destruct (getBMI323Accel hw) as [rc smp]|destruct (getBMI323Gyro hw) as [rc smp]];
    simpl in *; destruct (rc =? 0); try done; rewrite Hm by done; done.
Qed.

Lemma sensorReadSamples_copies_witness :
  let d := Sensors_init (Some (sensor_config "Accelerometer" 0 6 10000 6 6))
             (Some (sensor_config "Gyroscope" 0 6 10000 6 6)) in
  let hw := mk_reads (0, mk_imu (repeat Byte.x01 12) []) (0, mk_imu [] (repeat Byte.x02 6)) in
  ((1 < 2)%nat /\
   Sensors d !! 1%nat = Some (mk_sensor (Some (sensor_config "Gyroscope" 0 6 10000 6 6)) status_zero) /\
   1 <> 0 /\ 1 *u32 6 <= 8 /\ 0 <= 6 <= Z.of_nat (length (repeat Byte.x00 8)) /\
   6 <= Z.of_nat (length (snd (sensor_field 1 hw)))) /\
  sensorReadSamples (Some 1%nat) 1 (Some (repeat Byte.x00 8)) 8 hw d =
  Done (1, Some (repeat Byte.x02 6 ++ [Byte.x00; Byte.x00])).
Proof.
  cbv zeta.
  split; [repeat split; (reflexivity || vm_compute; (lia || discriminate))|].
  rewrite (sensorReadSamples_copies 1 (sensor_config "Gyroscope" 0 6 10000 6 6) status_zero);
    [reflexivity|lia|reflexivity|lia|vm_compute; discriminate|simpl; lia|simpl; lia].
Defined.

(** C32: with both sensors configured under different names, looking a
    sensor up by its configured name returns its table entry, whose
    configuration is the one it was declared with. *)
Theorem sensorGetId_roundtrip (c0 c1 : sensorConfig_t) :
  cfg_name c0 <> cfg_name c1 ->
  let d := Sensors_init (Some c0) (Some c1) in
  sensorGetId (Some (cfg_name c0)) d = Done (Some 0%nat) /\
  sensorGetId (Some (cfg_name c1)) d = Done (Some 1%nat) /\
  sensorGetConfig (Some 0%nat) d = Some c0 /\ sensorGetConfig (Some 1%nat) d = Some c1.
Proof.
  intros Hne. cbv zeta. unfold sensorGetId. simpl.
  rewrite !String.eqb_refl.
  replace (String.eqb (cfg_name c1) (cfg_name c0)) with false
    by (symmetry; apply String.eqb_neq; congruence).
  done.
Qed.

Lemma sensorGetId_roundtrip_witness :
  "Accelerometer" <> "Gyroscope" /\
  sensorGetId (Some "Gyroscope")
    (Sensors_init (Some (sensor_config "Accelerometer" 0 6 10000 6 6))
       (Some (sensor_config "Gyroscope" 0 6 10000 6 6))) = Done (Some 1%nat).
Proof.
  assert (H : "Accelerometer" <> "Gyroscope") by discriminate.
  split; [exact H|].
  exact (proj1 (proj2 (sensorGetId_roundtrip (sensor_config "Accelerometer" 0 6 10000 6 6)
                         (sensor_config "Gyroscope" 0 6 10000 6 6) H))).
Defined.

(** C33: with only [SENSOR0_NAME] configured, the second table entry has
    no configuration, and looking up any other name dereferences its
    [NULL] configuration pointer in [strcmp]. *)
Theorem sensorGetId_null_config (c0 : sensorConfig_t) (name : string) :
  name <> cfg_name c0 ->
  sensorGetId (Some name) (Sensors_init (Some c0) None) = NullDeref.
Proof.
  intros Hne. unfold sensorGetId. simpl.
  replace (String.eqb name (cfg_name c0)) with false by (symmetry; by apply String.eqb_neq).
  done.
Qed.

Lemma sensorGetId_null_config_witness :
  "Gyroscope" <> cfg_name (sensor_config "Accelerometer" 0 6 10000 6 6) /\
  sensorGetId (Some "Gyroscope")
    (Sensors_init (Some (sensor_config "Accelerometer" 0 6 10000 6 6)) None) = NullDeref.
Proof.
  assert (H : "Gyroscope" <> cfg_name (sensor_config "Accelerometer" 0 6 10000 6 6))
    by discriminate.
  split; [exact H|]. exact (sensorGetId_null_config _ _ H).
Defined.

(** C34: with only [SENSOR1_NAME] configured, the C initialiser puts that
    sensor in [Sensors[0]], and [sensorReadSamples] then reads the
    accelerometer for it, whatever sensor it was configured as. *)
Example sensor1_only_reads_accelerometer :
  let gyro := sensor_config "Gyroscope" 0 6 10000 6 6 in
  let d := Sensors_init None (Some gyro) in
  let hw := mk_reads (0, mk_imu (repeat Byte.x01 6) []) (0, mk_imu [] (repeat Byte.x02 6)) in
  sensorGetId (Some "Gyroscope") d = Done (Some 0%nat) /\
  sensorReadSamples (Some 0%nat) 1 (Some (repeat Byte.x00 6)) 6 hw d =
  Done (1, Some (repeat Byte.x01 6)).
Proof. vm_compute. split; reflexivity. Qed.
